(** * poliops-scripts-linux: a shallow embedding of the two batch pipelines

    [copy_fiscal_year_data.py] (Pipeline A, the fiscal-year export) and
    [get_check_files.py] (Pipeline B, the inbound check-file transfer).

    Modelling conventions.
    - Python [str] is [string]; Python [int] is [Z]; lists are [list].
    - A Python exception is a value of [exn]; a computation that may raise
      returns [result].  Code that also talks to the outside world threads a
      state through and keeps the state reached when an exception escapes.
    - Collaborators that live outside the repository (the database driver,
      the remote shell, the csv tokenizer, the clock) are section variables:
      the theorems hold for every behaviour of theirs.
    - The [csv] module is used at the level of records: a reader hands over
      lists of fields, a writer receives lists of fields.  Quoting and
      escaping of the bytes on disk belong to the library and are not
      modelled. *)

From Stdlib Require Import ZArith Strings.String Strings.Ascii Strings.Byte
  Numbers.DecimalString Numbers.DecimalZ Lia.
From stdpp Require Import base list gmap strings fin_maps.

#[local] Set Warnings "-clear-no-such-hyp".

Local Open Scope string_scope.
Local Open Scope Z_scope.
Local Open Scope list_scope.

(** ** Exceptions and results *)

Inductive exn : Set :=
| TypeError
| ValueError
| AttributeError
| UnboundLocalError
| StopIteration
| OverflowError
| StructError
| IndexError
| KeyError
| SystemExit.

Inductive result (A : Type) : Type :=
| Ok (a : A)
| Raise (e : exn).

Arguments Ok {A} a.
Arguments Raise {A} e.

#[global] Instance result_ret : MRet result := fun A a => Ok a.
#[global] Instance result_bind : MBind result := fun A B f m =>
  match m with
  | Ok a => f a
  | Raise e => Raise e
  end.

Definition is_ok {A} (r : result A) : bool :=
  match r with Ok _ => true | Raise _ => false end.

(** ** Python built-ins used by the scripts *)

Module Py.

(** [str(n)] for an [int]. *)
Definition str (n : Z) : string := NilZero.string_of_int (Z.to_int n).

(** [int(s)] for a [str]: an optional minus sign followed by decimal digits.
    The scripts only ever apply it to a string produced by [str]. *)
Definition int (s : string) : result Z :=
  match NilZero.int_of_string s with
  | Some d => Ok (Z.of_int d)
  | None => Raise ValueError
  end.

(** [os.path.join(a, b)] on a POSIX host. *)
Definition starts_with_slash (s : string) : bool :=
  match s with
  | String c _ => Ascii.eqb c "/"
  | EmptyString => false
  end.

Fixpoint ends_with_slash (s : string) : bool :=
  match s with
  | EmptyString => false
  | String c EmptyString => Ascii.eqb c "/"
  | String _ s' => ends_with_slash s'
  end.

Definition path_join (a b : string) : string :=
  if starts_with_slash b then b
  else if (String.eqb a "" || ends_with_slash a)%bool then a +:+ b
  else a +:+ "/" +:+ b.

(** [sep.join(parts)]. *)
Fixpoint join (sep : string) (parts : list string) : string :=
  match parts with
  | [] => ""
  | [p] => p
  | p :: ps => p +:+ sep +:+ join sep ps
  end.

(** [s.replace(old, new)] for a one-character [old]. *)
Fixpoint replace_char (old : ascii) (new : string) (s : string) : string :=
  match s with
  | EmptyString => EmptyString
  | String c s' =>
      if Ascii.eqb c old then new +:+ replace_char old new s'
      else String c (replace_char old new s')
  end.

(** The ASCII characters [str.split()] treats as white space. *)
Definition is_space (c : ascii) : bool :=
  let n := nat_of_ascii c in
  ((n =? 32) || ((9 <=? n) && (n <=? 13)) || ((28 <=? n) && (n <=? 31)))%nat%bool.

(** [s.split()]: maximal runs of non-space characters, in order.  [cur] is
    the token being read, reversed. *)
Definition flush (cur : list ascii) (acc : list string) : list string :=
  match cur with
  | [] => acc
  | _ => acc ++ [string_of_list_ascii (rev cur)]
  end.

Fixpoint split_go (s : string) (cur : list ascii) (acc : list string) : list string :=
  match s with
  | EmptyString => flush cur acc
  | String c s' =>
      if is_space c then split_go s' [] (flush cur acc)
      else split_go s' (c :: cur) acc
  end.

Definition split (s : string) : list string := split_go s [] [].

End Py.

(** * Pipeline A: [copy_fiscal_year_data.py] *)

Module FiscalYear.

Record CompanySpec := {
  dbname : string;
  date_from : string;
  mda_columns : option (list string)
}.

Record ReportSpec := {
  table_name : string;
  suffix : string;
  has_mda_columns : bool
}.

Definition COMPANIES : list (string * CompanySpec) :=
  [ ("aflcio",
     {| dbname := "AFLCI"; date_from := "2017-01-01";
        mda_columns := Some
          ["Date"; "Check #"; "Commit ID"; "Request ID";
           "LM2 Code"; "LM2 Desc"; "LM2 Amt";
           "Project Code"; "Project Desc"; "Project Amt";
           "Affiliate Code"; "Affiliate Desc"; "Affiliate Amt";
           "State Code"; "State Desc"; "State Amt";
           "Employee Code"; "Employee Desc"; "Employee Amt";
           "Period Code"; "Period Desc"; "Period Amt";
           "Other1 Code"; "Other1 Amt"; "Other1 Desc";
           "Other2 Code"; "Other2 Amt"; "Other2 Desc";
           "DEX_ROW_TS"; "ORPSTDDT"; "ACCT_ROW_ID"; "GL_ROW_ID";
           "Jrn Entry"; "SEQNUMBR"; "ORTRXSRC"; "Generation"] |});
    ("cope", {| dbname := "PAC"; date_from := "2014-01-01"; mda_columns := None |});
    ("wpr", {| dbname := "WPR"; date_from := "2014-01-01"; mda_columns := None |}) ].

Definition REPORTS : list ReportSpec :=
  [ {| table_name := "Poliops_MDA_View"; suffix := ""; has_mda_columns := true |};
    {| table_name := "S2_GL20_Poliops_exp"; suffix := "_narrow";
       has_mda_columns := false |} ].

(** Leaving one for the header. *)
Definition ROWS_PER_FILE : nat := Z.to_nat 49999.

Definition LOCAL := "local".
Definition REMOTE := "remote".
Definition DIRECTORY := "directory".
Definition HOST := "host".
Definition USER := "user".
Definition KEYNAME := "keyname".
Definition REMOTE_KEYS : list string := [HOST; USER; KEYNAME].

(** A fetched row: one rendered value per column. *)
Definition row := list string.

(** The open cursor: the rows of the result set not fetched yet. *)
Record cursor := { pending : list row }.

(** [cur.fetchmany(size)]: up to [size] rows, which the cursor then no
    longer holds. *)
Definition fetchmany (size : nat) (cur : cursor) : list row * cursor :=
  (take size (pending cur), {| pending := drop size (pending cur) |}).

(** The local file system: for each path, the records handed to the
    [csv.writer] of the file, header first.  Opening a path for writing
    replaces what it held. *)
Abbreviation filesystem := (gmap string (list row)).

(** [make_writer]: the closure [_inner] over [header] and the file name
    stem. *)
Definition make_writer (header : row) (local_directory company_name type_suffix : string)
    (rows : list row) (sequence_suffix : string) (fs : filesystem) : string * filesystem :=
  let prefix := Py.path_join local_directory company_name in
  let pathname_out := prefix +:+ type_suffix +:+ sequence_suffix +:+ ".tsv" in
  (pathname_out, <[pathname_out := header :: rows]> fs).

(** The suffix of the page after the one named [sequence_suffix]. *)
Definition next_sequence_suffix (sequence_suffix : string) : result string :=
  if String.eqb sequence_suffix "" then Ok "2"
  else n ← Py.int sequence_suffix; Ok (Py.str (n + 1)).

Definition DQUOTE : string := String (ascii_of_nat 34) EmptyString.

(** The text of the debug call of lines 202-203. *)
Definition exhausted_text (company_name sequence_suffix : string) : string :=
  ("exhausted on " +:+ company_name +:+ ",")
  +:+ ("suffix " +:+ DQUOTE +:+ sequence_suffix +:+ DQUOTE).

(** The state of the paging loop of [create_reports]: the cursor, the
    files, the list of path names, and the texts handed to [logging.debug]
    so far (whether they are emitted depends on the level of the root
    logger). *)
Record paging := {
  pg_cursor : cursor;
  pg_files : filesystem;
  pg_retval : list string;
  pg_debug : list string
}.

(** The [while len(rows) > 0] loop.  [fuel] bounds the number of iterations;
    [None] means the bound was reached.  An exception leaves the files
    written so far in place.  The loop is left through the [break] of line
    204, after the debug call of lines 202-203 with the suffix of the file
    just written, or at once when the first fetch is empty. *)
Fixpoint write_pages (fuel : nat) (company_name : string)
    (write_rows : list row → string → filesystem → string * filesystem)
    (rows : list row) (sequence_suffix : string) (st : paging)
    : option (result unit * paging) :=
  match fuel with
  | O => None
  | S fuel' =>
      if (0 <? length rows)%nat then
        let '(pathname_out, fs1) := write_rows rows sequence_suffix (pg_files st) in
        let retval1 := pg_retval st ++ [pathname_out] in
        let '(rows1, cur1) := fetchmany ROWS_PER_FILE (pg_cursor st) in
        let st1 := {| pg_cursor := cur1; pg_files := fs1; pg_retval := retval1;
                      pg_debug := pg_debug st |} in
        if (length rows1 =? 0)%nat then
          Some (Ok (), {| pg_cursor := cur1; pg_files := fs1; pg_retval := retval1;
                          pg_debug := pg_debug st
                                      ++ [exhausted_text company_name sequence_suffix] |})
        else
          match next_sequence_suffix sequence_suffix with
          | Ok sequence_suffix1 =>
              write_pages fuel' company_name write_rows rows1 sequence_suffix1 st1
          | Raise e => Some (Raise e, st1)
          end
      else Some (Ok (), st)
  end.

(** Lines 193-208 of [create_reports] for one executed query: make the
    writer, fetch the first page, run the loop.  The loop body runs at most
    once per pending row, so this much fuel suffices. *)
Definition write_report (header : row) (local_directory company_name type_suffix : string)
    (st : paging) : option (result unit * paging) :=
  let write_rows := make_writer header local_directory company_name type_suffix in
  let sequence_suffix := "" in
  let '(rows, cur) := fetchmany ROWS_PER_FILE (pg_cursor st) in
  write_pages (S (length (pending (pg_cursor st)))) company_name write_rows rows
    sequence_suffix
    {| pg_cursor := cur; pg_files := pg_files st; pg_retval := pg_retval st;
       pg_debug := pg_debug st |}.

(** *** The output converter for SQL timestamps *)

(** [struct.unpack('<2l', raw_value)]: two little-endian signed 32-bit
    integers out of exactly eight bytes. *)
Definition byte_value (b : byte) : Z := Z.of_N (Byte.to_N b).

Definition le_int32 (b0 b1 b2 b3 : byte) : Z :=
  let u := Z.lor (Z.lor (byte_value b0) (Z.shiftl (byte_value b1) 8))
                 (Z.lor (Z.shiftl (byte_value b2) 16) (Z.shiftl (byte_value b3) 24)) in
  if u <? 2 ^ 31 then u else u - 2 ^ 32.

Definition unpack_2l (raw_value : list byte) : result (Z * Z) :=
  match raw_value with
  | [b0; b1; b2; b3; b4; b5; b6; b7] =>
      Ok (le_int32 b0 b1 b2 b3, le_int32 b4 b5 b6 b7)
  | _ => Raise StructError
  end.

(** [round(partial_day / 300.0, 3)], kept in milliseconds.  The ticks are
    three-hundredths of a second, so the quotient is a whole number of
    thirds of ten milliseconds: it is never halfway between two
    milliseconds and never closer to such a midpoint than a sixth of a
    millisecond, far above the error of double arithmetic on 32-bit
    operands.  Rounding to the nearest millisecond in exact arithmetic thus
    gives what the float computation gives. *)
Definition round_ticks_ms (partial_day : Z) : Z := (20 * partial_day + 3) / 6.

(** A [datetime]: civil date and time of day. *)
Record datetime := {
  year : Z; month : Z; day : Z;
  hour : Z; minute : Z; second : Z; millisecond : Z
}.

Definition DI400Y : Z := 146097.
Definition DI100Y : Z := 36524.
Definition DI4Y : Z := 1461.
Definition MAXORDINAL : Z := 3652059.

Definition DAYS_IN_MONTH : list Z := [31; 28; 31; 30; 31; 30; 31; 31; 30; 31; 30; 31].
Definition DAYS_BEFORE_MONTH : list Z :=
  [0; 31; 59; 90; 120; 151; 181; 212; 243; 273; 304; 334].

(** Month tables are indexed from 1, as in the [datetime] module. *)
Definition month_entry (table : list Z) (m : Z) : Z :=
  default (-1) (table !! Z.to_nat (m - 1)).

Definition bool_to_Z (b : bool) : Z := if b then 1 else 0.

(** The month and day of the [n]-th day (from 0) of a year. *)
Definition month_and_day (n : Z) (leapyear : bool) : Z * Z :=
  let month := Z.shiftr (n + 50) 5 in
  let preceding :=
    month_entry DAYS_BEFORE_MONTH month + bool_to_Z ((2 <? month) && leapyear) in
  if n <? preceding then
    let month' := month - 1 in
    let preceding' :=
      preceding - (month_entry DAYS_IN_MONTH month' + bool_to_Z ((month' =? 2) && leapyear)) in
    (month', n - preceding' + 1)
  else (month, n - preceding + 1).

(** The [datetime] module's conversion of a proleptic Gregorian ordinal
    (1 is 0001-01-01) to year, month and day. *)
Definition ord2ymd (ordinal : Z) : Z * Z * Z :=
  let n := ordinal - 1 in
  let n400 := n / DI400Y in
  let n := n mod DI400Y in
  let year := n400 * 400 + 1 in
  let n100 := n / DI100Y in
  let n := n mod DI100Y in
  let n4 := n / DI4Y in
  let n := n mod DI4Y in
  let n1 := n / 365 in
  let n := n mod 365 in
  let year := year + n100 * 100 + n4 * 4 + n1 in
  if (n1 =? 4) || (n100 =? 4) then (year - 1, 12, 31)
  else
    let leapyear := (n1 =? 3) && (negb (n4 =? 24) || (n100 =? 3)) in
    let '(month, day) := month_and_day n leapyear in
    (year, month, day).

(** [datetime(1900, 1, 1).toordinal()]. *)
Definition EPOCH_ORDINAL : Z := 693596.

Definition MS_PER_DAY : Z := 86400000.

(** [datetime(1900, 1, 1) + (timedelta(days=d) + timedelta(seconds=s))]
    with [s] given in milliseconds.  The sum must fall in years 1 to 9999. *)
Definition epoch_plus (days_since_1900 ms : Z) : result datetime :=
  let ordinal := EPOCH_ORDINAL + days_since_1900 + ms / MS_PER_DAY in
  let rest := ms mod MS_PER_DAY in
  if (0 <? ordinal) && (ordinal <=? MAXORDINAL) then
    let '(y, m, d) := ord2ymd ordinal in
    Ok {| year := y; month := m; day := d;
          hour := rest / 3600000;
          minute := (rest / 60000) mod 60;
          second := (rest / 1000) mod 60;
          millisecond := rest mod 1000 |}
  else Raise OverflowError.

Definition MONTH_ABBR : list string :=
  ["Jan"; "Feb"; "Mar"; "Apr"; "May"; "Jun";
   "Jul"; "Aug"; "Sep"; "Oct"; "Nov"; "Dec"].

(** A number printed in at least two digits, as [%d], [%I] and [%M] do. *)
Definition zero_padded2 (n : Z) : string :=
  let s := Py.str n in
  if (String.length s <? 2)%nat then "0" +:+ s else s.

(** [date_time.strftime('%b %d %Y %I:%M%p')] in the C locale. *)
Definition strftime_b_d_Y_I_M_p (dt : datetime) : string :=
  let b := default "" (MONTH_ABBR !! Z.to_nat (month dt - 1)) in
  let hour12 := if hour dt mod 12 =? 0 then 12 else hour dt mod 12 in
  let p := if hour dt <? 12 then "AM" else "PM" in
  b +:+ " " +:+ zero_padded2 (day dt) +:+ " " +:+ Py.str (year dt) +:+ " "
    +:+ zero_padded2 hour12 +:+ ":" +:+ zero_padded2 (minute dt) +:+ p.

(** [s[i:]] and [s[0:i]]. *)
Definition slice_from (i : nat) (s : string) : string :=
  String.substring i (String.length s - i) s.
Definition slice_to (i : nat) (s : string) : string := String.substring 0 i s.

Definition datetime_to_string (raw_value : list byte) : result string :=
  '(days_since_1900, partial_day) ← unpack_2l raw_value;
  let partial_day := round_ticks_ms partial_day in
  date_time ← epoch_plus days_since_1900 partial_day;
  let retval := strftime_b_d_Y_I_M_p date_time in
  match String.get 4 retval with
  | None => Raise IndexError
  | Some c =>
      if Ascii.eqb c "0" then Ok (slice_to 4 retval +:+ " " +:+ slice_from 5 retval)
      else Ok retval
  end.


(** *** The run as a whole *)

(** What the run does to the outside world, in order. *)
Inductive event : Type :=
| EPrint (text : string)                            (* [print] *)
| ELogDebug (text : string)                         (* an emitted debug record *)
| EDbConnect (name : string)                        (* [afl.odbc_connections.connect] *)
| EAddOutputConverter                               (* [conn.add_output_converter] *)
| EExecute (query_text : string) (params : list string)   (* [cur.execute] *)
| ESshClient (host user pkey : string)              (* [SSHClient(...)] *)
| ECopyFile (local_file remote_file : string).      (* [client.copy_file] *)

Record world := {
  trace : list event;
  files : filesystem
}.

Definition emit (e : event) (w : world) : world :=
  {| trace := trace w ++ [e]; files := files w |}.

(** A step of the script: it may run out of loop fuel ([None]), raise, or
    return; the world it reached is kept in both of the latter cases. *)
Definition prog (A : Type) : Type := world → option (result A * world).

#[global] Instance prog_ret : MRet prog := fun A a w => Some (Ok a, w).
#[global] Instance prog_bind : MBind prog := fun A B f m w =>
  match m w with
  | None => None
  | Some (Raise e, w1) => Some (Raise e, w1)
  | Some (Ok a, w1) => f a w1
  end.

Definition do_event (e : event) : prog unit := fun w => Some (Ok (), emit e w).
Definition raise {A} (e : exn) : prog A := fun w => Some (Raise e, w).
Definition lift {A} (r : result A) : prog A := fun w => Some (r, w).

(** [logging.debug(text)] on the root logger, which emits only after
    [basicConfig(level=DEBUG)]. *)
Definition logging_debug (debugging : bool) (text : string) : prog unit :=
  if debugging then do_event (ELogDebug text) else mret ().

(** The records of a sequence of such calls. *)
Definition debug_records (debugging : bool) (texts : list string) : list event :=
  if debugging then map ELogDebug texts else [].

(** The two kinds of object that meet in the second debug line. *)
Inductive pyobj : Type :=
| PStr (s : string)
| PDict (d : gmap string string).

(** [a + b]: concatenation of two [str]; a [dict] supports no [+]. *)
Definition py_add (a b : pyobj) : result pyobj :=
  match a, b with
  | PStr x, PStr y => Ok (PStr (x +:+ y))
  | _, _ => Raise TypeError
  end.

Definition as_text (o : pyobj) : result string :=
  match o with
  | PStr s => Ok s
  | PDict _ => Raise TypeError
  end.

Definition NL : string := String (ascii_of_nat 10) "".
Definition INDENT : string := "            ".

Definition CONFIG_HELP : string :=
  "The configuration file provided requires two sections:" +:+ NL +:+ NL
  +:+ INDENT +:+ "a. local, with the key 'directory'" +:+ NL
  +:+ INDENT +:+ "b. remote, with the keys 'host', 'user' 'directory', and 'keyname'."
  +:+ NL +:+ NL
  +:+ INDENT +:+ "The file provided is missing one or more of these components." +:+ NL
  +:+ INDENT.

Definition make_query_text (company_spec : CompanySpec) (report_spec : ReportSpec) : string :=
  let columns :=
    match has_mda_columns report_spec, mda_columns company_spec with
    | true, Some cols =>
        Py.join (",  " +:+ NL) (map (fun col => "[" +:+ col +:+ "]") cols)
    | _, _ => "*"
    end in
  "SELECT " +:+ columns +:+ NL
  +:+ INDENT +:+ "FROM " +:+ dbname company_spec +:+ ".dbo." +:+ table_name report_spec +:+ NL
  +:+ INDENT +:+ "WHERE [Date] >= Convert(datetime, ?, 120)" +:+ NL
  +:+ INDENT +:+ "ORDER BY dex_row_ts DESC".

Definition make_pathname_out (local_directory company_name suffix : string) : string :=
  Py.path_join local_directory (company_name +:+ suffix +:+ ".tsv").

Section Collaborators.

(** [ConfigParser().read(path)] followed by [get(section, key)]: the value,
    or [None] where the library raises a [configparser.Error]. *)
Variable config_get : string → string → string → option string.

(** The database: the column names and the rows (timestamps already
    rendered by the output converter) a query returns. *)
Variable execute : string → list string → list string * list row.

(** [get_configuration]: a missing section or key prints the explanation
    and exits. *)
Fixpoint read_remote_specs (config_path : string) (keys : list string)
    (remote_specs : gmap string string) : option (gmap string string) :=
  match keys with
  | [] => Some remote_specs
  | key :: keys' =>
      match config_get config_path REMOTE key with
      | Some v => read_remote_specs config_path keys' (<[key := v]> remote_specs)
      | None => None
      end
  end.

Definition get_configuration (config_path : string) : prog (string * gmap string string) :=
  match config_get config_path LOCAL DIRECTORY with
  | Some local_directory =>
      match read_remote_specs config_path REMOTE_KEYS ∅ with
      | Some remote_specs => mret (local_directory, remote_specs)
      | None => do_event (EPrint CONFIG_HELP);; raise SystemExit
      end
  | None => do_event (EPrint CONFIG_HELP);; raise SystemExit
  end.

Definition get_connection : prog unit :=
  do_event (EDbConnect "gps");; do_event EAddOutputConverter.

(** One turn of [for report_spec in REPORTS].  The only events of the
    paging loop are the debug records, which the root logger emits when
    [debugging] has set its level. *)
Definition create_report (debugging : bool) (local_directory company_name : string)
    (company_spec : CompanySpec) (report_spec : ReportSpec)
    (retval : list string) : prog (list string) := fun w =>
  let query_text := make_query_text company_spec report_spec in
  let pathname_out := make_pathname_out local_directory company_name (suffix report_spec) in
  let params := [date_from company_spec +:+ " 00:00:00.000"] in
  let w1 := emit (EExecute query_text params) w in
  let '(header, result_set) := execute query_text params in
  match write_report header local_directory company_name (suffix report_spec)
          {| pg_cursor := {| pending := result_set |};
             pg_files := files w1; pg_retval := retval; pg_debug := [] |} with
  | None => None
  | Some (r, st) =>
      let w2 := {| trace := trace w1 ++ debug_records debugging (pg_debug st);
                   files := pg_files st |} in
      Some (match r with Ok _ => Ok (pg_retval st) | Raise e => Raise e end, w2)
  end.

Fixpoint create_reports_from (debugging : bool) (reports : list ReportSpec)
    (local_directory company_name : string) (company_spec : CompanySpec)
    (retval : list string) : prog (list string) :=
  match reports with
  | [] => mret retval
  | report_spec :: reports' =>
      retval1 ← create_report debugging local_directory company_name company_spec
                  report_spec retval;
      create_reports_from debugging reports' local_directory company_name company_spec
        retval1
  end.

Definition create_reports (debugging : bool) (local_directory company_name : string)
    (company_spec : CompanySpec) : prog (list string) :=
  create_reports_from debugging REPORTS local_directory company_name company_spec [].

Definition lookup_key (d : gmap string string) (k : string) : result string :=
  match d !! k with
  | Some v => Ok v
  | None => Raise KeyError
  end.

(** [os.path.split(name)[1]]: what follows the last slash. *)
Fixpoint basename_go (s : string) (cur : string) : string :=
  match s with
  | EmptyString => cur
  | String c s' =>
      if Ascii.eqb c "/" then basename_go s' "" else basename_go s' (cur +:+ String c "")
  end.
Definition basename (name : string) : string := basename_go name "".

Fixpoint copy_each (pathnames : list string) : prog unit :=
  match pathnames with
  | [] => mret ()
  | name :: pathnames' =>
      do_event (ECopyFile name (basename name));; copy_each pathnames'
  end.

Definition copy_files (remote_specs : gmap string string) (pathnames : list string)
    : prog unit :=
  host ← lift (lookup_key remote_specs HOST);
  user ← lift (lookup_key remote_specs USER);
  pkey ← lift (lookup_key remote_specs KEYNAME);
  do_event (ESshClient host user pkey);;
  copy_each pathnames.

Fixpoint create_all (debugging : bool) (companies : list (string * CompanySpec))
    (local_directory : string) (pathnames_all : list string) : prog (list string) :=
  match companies with
  | [] => mret pathnames_all
  | (company, spec) :: companies' =>
      pathnames ← create_reports debugging local_directory company spec;
      create_all debugging companies' local_directory (pathnames_all ++ pathnames)
  end.

Definition copy_fiscal_year_data (config_path : string) (debugging : bool) : prog unit :=
  '(local_directory, remote_specs) ← get_configuration config_path;
  logging_debug debugging ("local directory is " +:+ local_directory);;
  text ← lift (o ← py_add (PStr "remote specs are ") (PDict remote_specs); as_text o);
  logging_debug debugging text;;
  get_connection;;
  pathnames_all ← create_all debugging COMPANIES local_directory [];
  copy_files remote_specs pathnames_all.

End Collaborators.

End FiscalYear.

(** * Pipeline B: [get_check_files.py] *)

Module CheckFiles.

Record Company := {
  abbreviation : string;
  directory_name : string
}.

Record FileSpec := {
  remote_path : string;
  remote_path_old : string;
  local_path : string;
  share_path : string
}.

#[global] Instance FileSpec_eq_dec : EqDecision FileSpec.
Proof. solve_decision. Defined.

Definition LOCAL := "local".
Definition REMOTE := "remote".
Definition DIRECTORY := "directory".
Definition HOST := "host".
Definition USER := "user".
Definition KEYNAME := "keyname".
Definition TEMP_DIRECTORY := "temp_directory".
Definition DESTINATION_DIRECTORY := "destination_directory".
Definition DONE_DIRECTORY := "done_directory".

(** The key sets of [KEYS_WANTED], listed in one order: the order in which
    a missing key is noticed does not change what the script does. *)
Definition KEYS_WANTED : list (string * list string) :=
  [ (REMOTE, [HOST; USER; KEYNAME; DIRECTORY; DONE_DIRECTORY]);
    (LOCAL, [TEMP_DIRECTORY; DESTINATION_DIRECTORY]) ].

Definition COMPANIES : list Company :=
  [ {| abbreviation := "afl"; directory_name := "AFLCIO" |};
    {| abbreviation := "cope"; directory_name := "COPE" |};
    {| abbreviation := "wpr"; directory_name := "WPR" |} ].

Definition FIELD_MAPPINGS : list (string * string) :=
  [ ("FCC", "LM2");
    ("Project Code", "PROJECTS");
    ("State Code", "STATE");
    ("Staffer ID", "EMPLOYEES");
    ("CommitID", "COMMITID");
    ("RequestID", "REQUESTID");
    ("PP Code", "PROGRAM") ].

(** [FIELD_MAPPINGS.get(name)]; [name in FIELD_MAPPINGS] is [is_Some] of it. *)
Fixpoint mapping_get (table : list (string * string)) (name : string) : option string :=
  match table with
  | [] => None
  | (k, v) :: table' => if String.eqb k name then Some v else mapping_get table' name
  end.

(** *** Dictionaries of the [csv] module *)

(** What a [DictReader] row can hold under a key: a field, [None] for a
    column the line was too short for, or the list of surplus fields. *)
Inductive cell : Type :=
| CStr (s : string)
| CNone
| CList (l : list string).

#[global] Instance cell_eq_dec : EqDecision cell.
Proof. solve_decision. Defined.

(** A dictionary in insertion order.  The key [None] is the reader's
    [restkey]. *)
Abbreviation dict := (list (option string * cell)).

Definition key_eqb (a b : option string) : bool :=
  match a, b with
  | Some x, Some y => String.eqb x y
  | None, None => true
  | _, _ => false
  end.

Fixpoint dict_get (d : dict) (k : option string) : option cell :=
  match d with
  | [] => None
  | (k', v) :: d' => if key_eqb k' k then Some v else dict_get d' k
  end.

(** [d[k] = v]: an existing key keeps its place. *)
Fixpoint dict_set (d : dict) (k : option string) (v : cell) : dict :=
  match d with
  | [] => [(k, v)]
  | (k', v') :: d' =>
      if key_eqb k' k then (k, v) :: d' else (k', v') :: dict_set d' k v
  end.

Definition dict_keys (d : dict) : list (option string) := map fst d.

(** [dict(zip(fieldnames, row))]. *)
Fixpoint dict_zip (fieldnames : list string) (fields : list string) (d : dict) : dict :=
  match fieldnames, fields with
  | name :: fieldnames', v :: fields' =>
      dict_zip fieldnames' fields' (dict_set d (Some name) (CStr v))
  | _, _ => d
  end.

Fixpoint fill_restval (names : list string) (d : dict) : dict :=
  match names with
  | [] => d
  | name :: names' => fill_restval names' (dict_set d (Some name) CNone)
  end.

(** [DictReader.__next__] on one non-blank record. *)
Definition reader_row (fieldnames : list string) (fields : list string) : dict :=
  let d := dict_zip fieldnames fields [] in
  let lf := length fieldnames in
  let lr := length fields in
  if (lf <? lr)%nat then dict_set d None (CList (drop lf fields))
  else if (lr <? lf)%nat then fill_restval (drop lr fieldnames) d
  else d.

(** The rows a [DictReader] yields after the header: blank records are
    skipped. *)
Definition reader_rows (fieldnames : list string) (records : list (list string))
    : list dict :=
  map (reader_row fieldnames)
      (List.filter (fun fields => negb (bool_decide (fields = []))) records).

(** [DictWriter._dict_to_list] with [extrasaction='raise'] and
    [restval='']. *)
Definition dict_to_list (fieldnames : list string) (rowdict : dict) : result (list cell) :=
  let wrong_fields :=
    List.filter (fun k => match k with
                          | Some name => negb (bool_decide (name ∈ fieldnames))
                          | None => true
                          end) (dict_keys rowdict) in
  match wrong_fields with
  | [] => Ok (map (fun key => default (CStr "") (dict_get rowdict (Some key))) fieldnames)
  | _ => Raise ValueError
  end.

(** *** [rewrite_csv] *)

Definition TAB : ascii := ascii_of_nat 9.

(** The body of [for name in reader.fieldnames]. *)
Definition rename (name : string) : string :=
  match mapping_get FIELD_MAPPINGS name with
  | Some mapped => mapped
  | None => name
  end.

(** [row[name].replace('\t', ' ')]: only a [str] has [replace]. *)
Definition cell_replace_tab (v : cell) : result cell :=
  match v with
  | CStr s => Ok (CStr (Py.replace_char TAB " " s))
  | _ => Raise AttributeError
  end.

(** The loop [for name in row] building [row_out]; [row] is the dictionary
    being read, [names] its keys still to visit. *)
Fixpoint build_row_out (row : dict) (names : list (option string)) (row_out : dict)
    : result dict :=
  match names with
  | [] => Ok row_out
  | name :: names' =>
      match dict_get row name with
      | None => Raise KeyError
      | Some v =>
          match name ≫= mapping_get FIELD_MAPPINGS with
          | Some mapped => build_row_out row names' (dict_set row_out (Some mapped) v)
          | None =>
              v' ← cell_replace_tab v;
              build_row_out row names' (dict_set row_out name v')
          end
      end
  end.

(** The output stream: the records handed to the writer so far. *)
Abbreviation ostream := (list (list cell)).

(** The loop [for i, row in enumerate(reader)].  [i] is the loop variable,
    unbound until the first turn; [count] is the index of the next row. *)
Fixpoint rewrite_rows (fieldnames_out : list string) (rows : list dict)
    (count : Z) (i : option Z) (ofh : ostream) : result (option Z) * ostream :=
  match rows with
  | [] => (Ok i, ofh)
  | row :: rows' =>
      match build_row_out row (dict_keys row) [] with
      | Raise e => (Raise e, ofh)
      | Ok row_out =>
          match dict_to_list fieldnames_out row_out with
          | Raise e => (Raise e, ofh)
          | Ok record =>
              rewrite_rows fieldnames_out rows' (count + 1) (Some count) (ofh ++ [record])
          end
      end
  end.

(** [rewrite_csv]: [ifh] is given as the records the csv tokenizer makes of
    it; the first is the header.  Returns the result and what was written
    to [ofh]. *)
Definition rewrite_csv (ifh : list (list string)) (ofh : ostream) : result Z * ostream :=
  match ifh with
  | [] => (Raise TypeError, ofh)           (* [reader.fieldnames] is [None] *)
  | fieldnames :: records =>
      let fieldnames_out := map rename fieldnames in
      let ofh1 := ofh ++ [map CStr fieldnames_out] in
      match rewrite_rows fieldnames_out (reader_rows fieldnames records) 0 None ofh1 with
      | (Raise e, ofh2) => (Raise e, ofh2)
      | (Ok None, ofh2) => (Raise UnboundLocalError, ofh2)
      | (Ok (Some i), ofh2) => (Ok (i + 1), ofh2)
      end
  end.

(** *** The run as a whole *)

(** What [client.run_command] gives back. *)
Record host_output := {
  stdout : list string;
  exit_code : Z
}.

(** What the run does to the outside world, in order. *)
Inductive event : Type :=
| EDbConnect (name : string)                        (* [RunRecorder()] *)
| ESshClient (host user pkey : string)
| ERunCommand (command_line : string)               (* [client.run_command] *)
| ERecordFoundNotCopied (pathname : string)
| ERecordCopy (pathname : string) (data_records : Z)
| EPrint (text : string)
| ELogDebug (text : string)                         (* an emitted debug record *)
| ELogFormatFailure (text : string)                 (* a record whose arguments do not fit *)
| ELogWarning (text : string)
| ELogError (text : string).

(** The local and shared files: the records written to each path. *)
Abbreviation filesystem := (gmap string ostream).

Record world := {
  trace : list event;
  files : filesystem
}.

Definition emit (e : event) (w : world) : world :=
  {| trace := trace w ++ [e]; files := files w |}.

Definition set_file (path : string) (content : ostream) (w : world) : world :=
  {| trace := trace w; files := <[path := content]> (files w) |}.

(** A step of the script: a result or an exception, and the world reached. *)
Definition prog (A : Type) : Type := world → result A * world.

#[global] Instance prog_ret : MRet prog := fun A a w => (Ok a, w).
#[global] Instance prog_bind : MBind prog := fun A B f m w =>
  match m w with
  | (Raise e, w1) => (Raise e, w1)
  | (Ok a, w1) => f a w1
  end.

Definition do_event (e : event) : prog unit := fun w => (Ok (), emit e w).
Definition raise {A} (e : exn) : prog A := fun w => (Raise e, w).

(** [for x in xs: body(x)]. *)
Fixpoint for_each {A} (xs : list A) (body : A → prog unit) : prog unit :=
  match xs with
  | [] => mret ()
  | x :: xs' => body x;; for_each xs' body
  end.

Definition DQUOTE : string := String (ascii_of_nat 34) EmptyString.

Definition mv_command (spec : FileSpec) : string :=
  "mv " +:+ remote_path spec +:+ " " +:+ remote_path_old spec.

Section Collaborators.

(** [ConfigParser().read(path)] followed by [get(group, name)]: the value,
    or [None] where the library raises a [configparser.Error]. *)
Variable config_get : string → string → string → option string.

(** The remote host: what a command line prints and returns. *)
Variable remote : string → host_output.

(** The records the csv tokenizer makes of a sequence of lines. *)
Variable csv_reader : list string → list (list string).

(** [datetime.today().strftime('%Y%m%d-%H%M')]. *)
Variable today : string.

Variable debugging : bool.

Definition run_command (command_line : string) : prog host_output :=
  do_event (ERunCommand command_line);; mret (remote command_line).

(** The module logger, at level DEBUG only when debugging. *)
Definition logger_debug (text : string) : prog unit :=
  if debugging then do_event (ELogDebug text) else mret ().

(** [logger.debug('checking for', path)]: one argument and no placeholder
    in the message; handling the record reports the mismatch on stderr and
    goes on. *)
Definition logger_debug_unformattable (text : string) : prog unit :=
  if debugging then do_event (ELogFormatFailure text) else mret ().

(** [get_configuration]. *)
Fixpoint read_group (pathname_in group : string) (names : list string)
    (values : gmap string string) : option (gmap string string) :=
  match names with
  | [] => Some values
  | name :: names' =>
      match config_get pathname_in group name with
      | Some v => read_group pathname_in group names' (<[name := v]> values)
      | None => None
      end
  end.

Fixpoint read_groups (pathname_in : string) (groups : list (string * list string))
    (retval : gmap string (gmap string string)) : option (gmap string (gmap string string)) :=
  match groups with
  | [] => Some retval
  | (group, names) :: groups' =>
      match read_group pathname_in group names ∅ with
      | Some values => read_groups pathname_in groups' (<[group := values]> retval)
      | None => None
      end
  end.

Definition get_configuration (pathname_in : string) : prog (gmap string (gmap string string)) :=
  match read_groups pathname_in KEYS_WANTED ∅ with
  | Some retval => mret retval
  | None =>
      do_event (ELogError "malformed .ini file provided, quitting.");;
      raise SystemExit
  end.

(** [specs[group][name]]. *)
Definition config_item (specs : gmap string (gmap string string)) (group name : string)
    : prog string :=
  match specs !! group ≫= (.!! name) with
  | Some v => mret v
  | None => raise KeyError
  end.

Definition make_ssh_client (specs : gmap string (gmap string string)) : prog unit :=
  host ← config_item specs REMOTE HOST;
  user ← config_item specs REMOTE USER;
  pkey ← config_item specs REMOTE KEYNAME;
  do_event (ESshClient host user pkey).

Definition name_prospective_files (specs : gmap string (gmap string string))
    (companies : list Company) : prog (list FileSpec) :=
  remote_directory ← config_item specs REMOTE DIRECTORY;
  temp_directory ← config_item specs LOCAL TEMP_DIRECTORY;
  share_directory ← config_item specs LOCAL DESTINATION_DIRECTORY;
  done_directory ← config_item specs REMOTE DONE_DIRECTORY;
  let filename := today +:+ ".txt" in
  mret (map (fun company =>
    {| remote_path :=
         Py.path_join remote_directory ("cr-" +:+ abbreviation company +:+ ".csv");
       remote_path_old :=
         Py.path_join done_directory ("cr-" +:+ abbreviation company +:+ ".csv");
       local_path :=
         Py.path_join (Py.path_join temp_directory (directory_name company)) filename;
       share_path :=
         Py.path_join (Py.path_join share_directory (directory_name company)) filename |})
    companies).

(** The first loop of [available_non_empty_files]: a file is kept once for
    each line [ls] prints about it. *)
Fixpoint list_present (prospective_files : list FileSpec) (temp : list FileSpec)
    : prog (list FileSpec) :=
  match prospective_files with
  | [] => mret temp
  | spec :: rest =>
      logger_debug_unformattable "checking for";;
      host_out ← run_command ("ls " +:+ remote_path spec);
      list_present rest (temp ++ map (fun _ => spec) (stdout host_out))
  end.

(** The test on the first line [wc -l] prints. *)
Definition has_records (line : string) : bool :=
  let parts := Py.split line in
  ((length parts =? 2)%nat && negb (String.eqb (default "" (parts !! 0%nat)) "1"))%bool.

(** The second loop. *)
Fixpoint keep_non_empty (temp : list FileSpec) (retval : list FileSpec)
    : prog (list FileSpec) :=
  match temp with
  | [] => mret retval
  | spec :: rest =>
      logger_debug ("checking for " +:+ remote_path spec);;
      host_out ← run_command ("wc -l " +:+ remote_path spec);
      match stdout host_out with
      | [] => raise StopIteration
      | line :: _ =>
          if has_records line then
            logger_debug ("found " +:+ remote_path spec +:+ " with at least one record");;
            keep_non_empty rest (retval ++ [spec])
          else
            do_event (ERecordFoundNotCopied (remote_path spec));;
            logger_debug (remote_path spec +:+ " found but empty");;
            keep_non_empty rest retval
      end
  end.

Definition available_non_empty_files (prospective_files : list FileSpec)
    : prog (list FileSpec) :=
  temp ← list_present prospective_files [];
  keep_non_empty temp [].

(** One turn of the loop of [move_remote_files_aside]. *)
Definition move_aside (spec : FileSpec) : prog unit :=
  let command_line := mv_command spec in
  do_event (EPrint ("running " +:+ DQUOTE +:+ command_line +:+ DQUOTE));;
  host_out ← run_command command_line;
  if exit_code host_out =? 0 then mret ()
  else do_event (ELogWarning ("received code of " +:+ Py.str (exit_code host_out)
                              +:+ " on " +:+ command_line)).

Definition move_remote_files_aside (specs : list FileSpec) : prog unit :=
  for_each specs move_aside.

(** One turn of the loop of [copy_files_to_host]: the local file is opened
    (and emptied) before the remote one is read. *)
Definition copy_file_to_host (spec : FileSpec) : prog unit := fun w =>
  let w1 := set_file (local_path spec) [] w in
  match run_command ("cat " +:+ remote_path spec) w1 with
  | (Raise e, w2) => (Raise e, w2)
  | (Ok host_out, w2) =>
      let '(r, ofh) := rewrite_csv (csv_reader (stdout host_out)) [] in
      let w3 := set_file (local_path spec) ofh w2 in
      match r with
      | Raise e => (Raise e, w3)
      | Ok records => do_event (ERecordCopy (remote_path spec) records) w3
      end
  end.

Definition copy_files_to_host (file_specs : list FileSpec) : prog (list FileSpec) :=
  for_each file_specs copy_file_to_host;; mret file_specs.

(** [shutil.copyfile(spec.local_path, spec.share_path)]. *)
Definition copyfile (spec : FileSpec) : prog unit := fun w =>
  (Ok (), set_file (share_path spec) (default [] (files w !! local_path spec)) w).

Definition copy_files_to_share (specs : list FileSpec) : prog unit :=
  for_each specs copyfile.

(** The body of [copy_check_files].  The [logging.debug] of line 295 goes to
    the root logger, which this script never sets below WARNING: it emits
    nothing. *)
Definition copy_check_files (config_path : string) : prog unit :=
  do_event (EDbConnect "ga_helper");;
  config ← get_configuration config_path;
  make_ssh_client config;;
  prospective_files ← name_prospective_files config COMPANIES;
  files_wanted ← available_non_empty_files prospective_files;
  (if (0 <? length files_wanted)%nat then
     copied_files ← copy_files_to_host files_wanted;
     copy_files_to_share copied_files
   else mret ());;
  move_remote_files_aside prospective_files.

End Collaborators.

End CheckFiles.

(** * Notions the statements use *)

Module Spec.

Import FiscalYear.

(** The sequence suffix of the [i]-th file of a report, counting from 0:
    none for the first, then the numerals 2, 3, 4, ... *)
Definition sequence_suffix_of (i : nat) : string :=
  match i with
  | O => ""
  | S j => Py.str (Z.of_nat j + 2)
  end.

(** The name of the [i]-th file of a report. *)
Definition report_file (local_directory company_name type_suffix : string) (i : nat)
    : string :=
  Py.path_join local_directory company_name +:+ type_suffix
    +:+ sequence_suffix_of i +:+ ".tsv".

(** The number of files for a result set of [k * ROWS_PER_FILE + r] rows. *)
Definition file_count (k r : nat) : nat := (k + (if (0 <? r)%nat then 1 else 0))%nat.

(** What the paging loop hands to [logging.debug] for a report of [n]
    files whose first file is the [i]-th of the sequence: nothing when there
    is no file, and else one text, which names the suffix of the last
    file. *)
Definition exhausted_records (company_name : string) (i n : nat) : list string :=
  match n with
  | O => []
  | S m => [exhausted_text company_name (sequence_suffix_of (i + m))]
  end.

(** The data rows of a written file: all its records but the header. *)
Definition file_body (fs : gmap string (list row)) (path : string) : list row :=
  match fs !! path with
  | Some (_ :: body) => body
  | _ => []
  end.

Definition file_header (fs : gmap string (list row)) (path : string) : option row :=
  fs !! path ≫= head.

(** The legacy timestamp format "Mon DD YYYY HH:MMAM/PM", written from its
    description: the month by its three-letter English name, the day in two
    columns with a space for a missing tens digit, the year in four digits,
    the hour of the twelve-hour clock and the minute in two digits each. *)
Definition digit (n : Z) : ascii := ascii_of_nat (48 + Z.to_nat n).

Definition two_digits (n : Z) : string :=
  String (digit (n / 10)) (String (digit (n mod 10)) EmptyString).

Definition four_digits (n : Z) : string :=
  String (digit (n / 1000)) (String (digit (n / 100 mod 10))
    (String (digit (n / 10 mod 10)) (String (digit (n mod 10)) EmptyString))).

Definition day_field (d : Z) : string :=
  if d <? 10 then String " " (String (digit d) EmptyString) else two_digits d.

Definition month_name (m : Z) : string :=
  match m with
  | 1 => "Jan" | 2 => "Feb" | 3 => "Mar" | 4 => "Apr" | 5 => "May" | 6 => "Jun"
  | 7 => "Jul" | 8 => "Aug" | 9 => "Sep" | 10 => "Oct" | 11 => "Nov" | 12 => "Dec"
  | _ => EmptyString
  end.

Definition legacy_timestamp (dt : datetime) : string :=
  month_name (month dt) +:+ " " +:+ day_field (day dt) +:+ " "
    +:+ four_digits (year dt) +:+ " "
    +:+ two_digits (if hour dt mod 12 =? 0 then 12 else hour dt mod 12) +:+ ":"
    +:+ two_digits (minute dt) +:+ (if hour dt <? 12 then "AM" else "PM").

(** The proleptic Gregorian calendar, written from its rules: a year is a
    leap year when it is a multiple of 4 and not of 100, or a multiple of
    400; February has 29 days in a leap year and 28 otherwise. *)
Definition is_leap (y : Z) : bool :=
  (y mod 4 =? 0) && (negb (y mod 100 =? 0) || (y mod 400 =? 0)).

Definition month_length (leap : bool) (m : Z) : Z :=
  match m with
  | 2 => if leap then 29 else 28
  | 4 | 6 | 9 | 11 => 30
  | _ => 31
  end.

Definition days_in_month (y m : Z) : Z := month_length (is_leap y) m.

(** The days of the months of a year that come before month [m]. *)
Definition days_before_month (leap : bool) (m : Z) : Z :=
  foldr Z.add 0 (map (λ i, month_length leap (Z.of_nat i)) (seq 1 (Z.to_nat (m - 1)))).

(** The days of the years 1 to [y - 1]: 365 each, and one more for each
    leap year among them. *)
Definition days_before_year (y : Z) : Z :=
  365 * (y - 1) + (y - 1) / 4 - (y - 1) / 100 + (y - 1) / 400.

(** The number of days from 1900-01-01 to day [d] of month [m] of year
    [y]: what the first integer of a raw value counts. *)
Definition day_number (y m d : Z) : Z :=
  (days_before_year y - days_before_year 1900)
  + days_before_month (is_leap y) m + (d - 1).

(** The raw value of a SQL [datetime]: the days since 1900-01-01 and the
    ticks since midnight, each as a 32-bit integer in two's complement,
    least significant byte first. *)
Definition byte_of (n : Z) : byte := default x00%byte (Byte.of_N (Z.to_N n)).

Definition int32_bytes (n : Z) : list byte :=
  [byte_of (n mod 256); byte_of (n / 256 mod 256);
   byte_of (n / 65536 mod 256); byte_of (n / 16777216 mod 256)].

Definition raw_datetime (days_since_1900 partial_day : Z) : list byte :=
  int32_bytes days_since_1900 ++ int32_bytes partial_day.

(** The range of the SQL Server [datetime] type: days from 1753-01-01 to
    9999-12-31 counted from 1900-01-01, and ticks of 1/300 s within a day. *)
Definition sql_datetime (days_since_1900 partial_day : Z) : Prop :=
  -53690 ≤ days_since_1900 ≤ 2958463 ∧ 0 ≤ partial_day < 25920000.

(** Whether a field holds a literal tab. *)
Definition has_tab (s : string) : bool :=
  existsb (Ascii.eqb CheckFiles.TAB) (list_ascii_of_string s).

(** The first line [wc -l] prints about a file, when it prints any. *)
Definition wc_line (remote : string → CheckFiles.host_output) (spec : CheckFiles.FileSpec)
    : option string :=
  head (CheckFiles.stdout (remote ("wc -l " +:+ CheckFiles.remote_path spec))).

(** Whether [ls] prints anything about a file. *)
Definition listed (remote : string → CheckFiles.host_output) (spec : CheckFiles.FileSpec)
    : Prop :=
  CheckFiles.stdout (remote ("ls " +:+ CheckFiles.remote_path spec)) ≠ [].

(** Whether the filter keeps a file, given what [wc -l] prints. *)
Definition kept (remote : string → CheckFiles.host_output) (spec : CheckFiles.FileSpec)
    : bool :=
  match wc_line remote spec with
  | Some line => CheckFiles.has_records line
  | None => false
  end.

(** The event of issuing a move-aside command. *)
Definition is_mv_event (e : CheckFiles.event) : bool :=
  match e with
  | CheckFiles.ERunCommand command_line => String.prefix "mv " command_line
  | _ => false
  end.

(** The move-aside command for a company's file. *)
Definition move_aside_command (remote_directory done_directory : string)
    (company : CheckFiles.Company) : string :=
  let filename := "cr-" +:+ CheckFiles.abbreviation company +:+ ".csv" in
  "mv " +:+ Py.path_join remote_directory filename
        +:+ " " +:+ Py.path_join done_directory filename.

(** Whether a string holds a slash. *)
Definition has_slash (s : string) : bool :=
  existsb (Ascii.eqb "/") (list_ascii_of_string s).

(** A column name the rename table does not list. *)
Definition unmapped (name : string) : Prop :=
  CheckFiles.mapping_get CheckFiles.FIELD_MAPPINGS name = None.

(** The [j]-th page of a row sequence. *)
Definition page (all : list row) (j : nat) : list row :=
  take ROWS_PER_FILE (drop (j * ROWS_PER_FILE) all).

(** The dictionary a record of the same width as the header is read into,
    when no column name repeats. *)
Definition paired (names fields : list string) : list (option string * CheckFiles.cell) :=
  zip (Some <$> names) (CheckFiles.CStr <$> fields).

(** An entry that line 237 of the rewriter copies as it is. *)
Definition clean (entry : option string * CheckFiles.cell) : Prop :=
  ∃ n s, entry = (Some n, CheckFiles.CStr s) ∧ unmapped n ∧ has_tab s = false.

(** The check that [month_and_day] stays within a calendar, in both kinds
    of year. *)
Definition month_and_day_ok (n : Z) : bool :=
  forallb (λ leapyear,
             let '(m, d) := month_and_day n leapyear in
             (1 <=? m) && (m <=? 12) && (1 <=? d) && (d <=? 31))
          [true; false].

(** The check that [month_and_day] gives the month and day of the calendar
    to the [n]-th day (from 0) of a year, in both kinds of year. *)
Definition month_and_day_exact (n : Z) : bool :=
  forallb (λ leapyear,
             let '(m, d) := month_and_day n leapyear in
             (1 <=? m) && (m <=? 12) && (1 <=? d) && (d <=? month_length leapyear m)
             && (days_before_month leapyear m + d =? n + 1))
          [true; false].

(** A step is quiet when it adds events to the trace, none of them a
    move-aside command, whatever its outcome. *)
Definition quiet {A} (m : CheckFiles.prog A) : Prop :=
  ∀ w, ∃ evs, CheckFiles.trace (snd (m w)) = CheckFiles.trace w ++ evs
              ∧ Forall (λ e, is_mv_event e = false) evs.

(** The files the first loop of the filter keeps: one copy for each line
    [ls] prints about a file. *)
Definition present (remote : string → CheckFiles.host_output)
    (prospective_files : list CheckFiles.FileSpec) : list CheckFiles.FileSpec :=
  flat_map (λ spec, map (λ _, spec)
                        (CheckFiles.stdout (remote ("ls " +:+ CheckFiles.remote_path spec))))
           prospective_files.

(** What a debug call adds to the trace. *)
Definition debug_events (debugging : bool) (e : CheckFiles.event) : list CheckFiles.event :=
  if debugging then [e] else [].

(** What [rewrite_csv] makes of the remote file of [spec]: its result and
    the records of the local file. *)
Definition rewritten (remote : string → CheckFiles.host_output)
    (csv_reader : list string → list (list string)) (spec : CheckFiles.FileSpec)
    : result Z * list (list CheckFiles.cell) :=
  CheckFiles.rewrite_csv
    (csv_reader (CheckFiles.stdout (remote ("cat " +:+ CheckFiles.remote_path spec)))) [].

(** The events of copying one file to this host: the [cat], and the audit
    record when the rewrite returns. *)
Definition copy_events (remote : string → CheckFiles.host_output)
    (csv_reader : list string → list (list string)) (spec : CheckFiles.FileSpec)
    : list CheckFiles.event :=
  CheckFiles.ERunCommand ("cat " +:+ CheckFiles.remote_path spec)
  :: match fst (rewritten remote csv_reader spec) with
     | Ok records => [CheckFiles.ERecordCopy (CheckFiles.remote_path spec) records]
     | Raise _ => []
     end.

(** The events of looking for one file. *)
Definition ls_events (debugging : bool) (spec : CheckFiles.FileSpec)
    : list CheckFiles.event :=
  debug_events debugging (CheckFiles.ELogFormatFailure "checking for")
  ++ [CheckFiles.ERunCommand ("ls " +:+ CheckFiles.remote_path spec)].

(** The events of moving one file aside. *)
Definition move_events (remote : string → CheckFiles.host_output)
    (spec : CheckFiles.FileSpec) : list CheckFiles.event :=
  let command_line := CheckFiles.mv_command spec in
  [CheckFiles.EPrint ("running " +:+ CheckFiles.DQUOTE +:+ command_line
                      +:+ CheckFiles.DQUOTE);
   CheckFiles.ERunCommand command_line]
  ++ (if CheckFiles.exit_code (remote command_line) =? 0 then []
      else [CheckFiles.ELogWarning
              ("received code of " +:+ Py.str (CheckFiles.exit_code (remote command_line))
               +:+ " on " +:+ command_line)]).

(** The events of issuing one move-aside command: the line printed, the
    command itself, and a warning when it exits with another code than 0. *)
Definition command_events (remote : string → CheckFiles.host_output)
    (command_line : string) : list CheckFiles.event :=
  [CheckFiles.EPrint ("running " +:+ CheckFiles.DQUOTE +:+ command_line
                      +:+ CheckFiles.DQUOTE);
   CheckFiles.ERunCommand command_line]
  ++ (if CheckFiles.exit_code (remote command_line) =? 0 then []
      else [CheckFiles.ELogWarning
              ("received code of " +:+ Py.str (CheckFiles.exit_code (remote command_line))
               +:+ " on " +:+ command_line)]).

(** The paths of one company's file. *)
Definition file_spec_of (today remote_directory temp_directory share_directory
    done_directory : string) (company : CheckFiles.Company) : CheckFiles.FileSpec :=
  {| CheckFiles.remote_path :=
       Py.path_join remote_directory ("cr-" +:+ CheckFiles.abbreviation company +:+ ".csv");
     CheckFiles.remote_path_old :=
       Py.path_join done_directory ("cr-" +:+ CheckFiles.abbreviation company +:+ ".csv");
     CheckFiles.local_path :=
       Py.path_join (Py.path_join temp_directory (CheckFiles.directory_name company))
                    (today +:+ ".txt");
     CheckFiles.share_path :=
       Py.path_join (Py.path_join share_directory (CheckFiles.directory_name company))
                    (today +:+ ".txt") |}.

End Spec.

(** * Sample collaborators *)

(** A remote host, a configuration file and a csv tokenizer on which the
    run can be followed step by step. *)
Module Sample.

Import CheckFiles.

Definition printed (lines : list string) : host_output :=
  {| stdout := lines; exit_code := 0 |}.

(** A command the host knows nothing about prints nothing and fails. *)
Definition failed : host_output := {| stdout := []; exit_code := 1 |}.

Fixpoint answer (table : list (string * host_output)) (command_line : string)
    : host_output :=
  match table with
  | [] => failed
  | (c, out) :: table' =>
      if String.eqb c command_line then out else answer table' command_line
  end.

(** The file of [afl] holds a header only, the file of [cope] a header and
    two records, and there is no file of [wpr]. *)
Definition host_table : list (string * host_output) :=
  [ ("ls /in/cr-afl.csv", printed ["/in/cr-afl.csv"]);
    ("wc -l /in/cr-afl.csv", printed ["1 /in/cr-afl.csv"]);
    ("ls /in/cr-cope.csv", printed ["/in/cr-cope.csv"]);
    ("wc -l /in/cr-cope.csv", printed ["3 /in/cr-cope.csv"]);
    ("cat /in/cr-cope.csv", printed ["FCC,Amount"; "A1,25.00"; "B2,7.50"]);
    ("mv /in/cr-afl.csv /in/old/cr-afl.csv", printed []);
    ("mv /in/cr-cope.csv /in/old/cr-cope.csv", printed []) ].

Definition remote : string → host_output := answer host_table.

(** The same host once a file of [wpr] has arrived that holds a header
    with no end of line: [wc -l] counts no line in it. *)
Definition remote_unterminated : string → host_output :=
  answer ([ ("ls /in/cr-wpr.csv", printed ["/in/cr-wpr.csv"]);
            ("wc -l /in/cr-wpr.csv", printed ["0 /in/cr-wpr.csv"]);
            ("cat /in/cr-wpr.csv", printed ["FCC,Amount"]) ] ++ host_table).

(** A tokenizer for lines without quotes: fields are separated by commas,
    and an empty line is a blank record. *)
Fixpoint fields_go (s : string) (cur : string) : list string :=
  match s with
  | EmptyString => [cur]
  | String c s' =>
      if Ascii.eqb c "," then cur :: fields_go s' EmptyString
      else fields_go s' (cur +:+ String c EmptyString)
  end.

Definition csv_reader (lines : list string) : list (list string) :=
  map (λ line, match line with
               | EmptyString => []
               | _ => fields_go line EmptyString
               end) lines.

Definition ini : list (string * string * string) :=
  [ ("remote", "host", "trfr.example.org");
    ("remote", "user", "poliops");
    ("remote", "keyname", "/home/runner/.ssh/id_transfer");
    ("remote", "directory", "/in");
    ("remote", "done_directory", "/in/old");
    ("local", "temp_directory", "/var/tmp/cr");
    ("local", "destination_directory", "/mnt/accounting/cr");
    ("local", "directory", "/home/runner/poliops2") ].

Fixpoint ini_get (entries : list (string * string * string)) (group name : string)
    : option string :=
  match entries with
  | [] => None
  | (g, n, v) :: entries' =>
      if (String.eqb g group && String.eqb n name)%bool then Some v
      else ini_get entries' group name
  end.

Definition config_get (path group name : string) : option string :=
  if String.eqb path "transfer.ini" then ini_get ini group name else None.

Definition file_of (abbr dir : string) : FileSpec :=
  {| remote_path := "/in/cr-" +:+ abbr +:+ ".csv";
     remote_path_old := "/in/old/cr-" +:+ abbr +:+ ".csv";
     local_path := "/var/tmp/cr/" +:+ dir +:+ "/20250602-1415.txt";
     share_path := "/mnt/accounting/cr/" +:+ dir +:+ "/20250602-1415.txt" |}.

Definition afl : FileSpec := file_of "afl" "AFLCIO".
Definition cope : FileSpec := file_of "cope" "COPE".
Definition wpr : FileSpec := file_of "wpr" "WPR".

Definition prospective : list FileSpec := [afl; cope; wpr].

Definition start : world := {| trace := []; files := ∅ |}.

(** A database in which every query returns two rows. *)
Definition execute_two (query_text : string) (params : list string)
    : list string * list FiscalYear.row :=
  (["Date"; "Amount"], [["2017-01-01"; "1.00"]; ["2017-01-02"; "2.00"]]).

(** A host on which no file is waiting and every command fails. *)
Definition remote_empty : string → host_output := answer [].

(** A query that returns no row, for the fiscal-year export. *)
Definition execute (query_text : string) (params : list string)
    : list string * list FiscalYear.row :=
  (["Date"; "Amount"], []).

End Sample.

(** * Facts about the built-ins *)

Section PyFacts.

Lemma append_cons (a : ascii) (s t : string) : String a s +:+ t = String a (s +:+ t).
Proof. reflexivity. Qed.

Lemma append_nil_l (t : string) : "" +:+ t = t.
Proof. reflexivity. Qed.

Lemma append_length (s t : string) :
  String.length (s +:+ t) = (String.length s + String.length t)%nat.
Proof.
  induction s as [|a s IH]; [reflexivity|].
  rewrite append_cons. cbn [String.length]. now rewrite IH.
Qed.

Lemma append_inj_r (s s' t : string) : s +:+ t = s' +:+ t → s = s'.
Proof.
  intros H.
  assert (Hlen : String.length s = String.length s').
  { apply (f_equal String.length) in H. rewrite !append_length in H. lia. }
  revert s' H Hlen.
  induction s as [|a s IH]; intros [|a' s'] H Hlen; cbn in Hlen; try discriminate.
  - reflexivity.
  - rewrite !append_cons in H. injection H as -> H.
    f_equal. apply IH; [exact H | lia].
Qed.

Lemma to_int_proper (z : Z) :
  Z.to_int z ≠ Decimal.Pos Decimal.Nil ∧ Z.to_int z ≠ Decimal.Neg Decimal.Nil.
Proof.
  destruct z as [|p|p]; cbn; split; try discriminate;
    intros [= H]; exact (DecimalPos.Unsigned.to_uint_nonnil p H).
Qed.

(** [int(str(z)) == z]. *)
Lemma int_str (z : Z) : Py.int (Py.str z) = Ok z.
Proof.
  unfold Py.int, Py.str.
  destruct (to_int_proper z) as [Hp Hn].
  rewrite (NilZero.isi _ Hp Hn). now rewrite DecimalZ.of_to.
Qed.

Lemma str_inj (a b : Z) : Py.str a = Py.str b → a = b.
Proof.
  intros H. pose proof (int_str a) as Ha. rewrite H, int_str in Ha. congruence.
Qed.

Lemma str_nonempty (z : Z) : Py.str z ≠ "".
Proof.
  intros H. pose proof (int_str z) as Hz. rewrite H in Hz. discriminate.
Qed.

End PyFacts.

(** * The paginated report writer *)

Section Pagination.

Import FiscalYear Spec.

Lemma ROWS_PER_FILE_pos : (0 < ROWS_PER_FILE)%nat.
Proof. apply Nat.ltb_lt. vm_compute. reflexivity. Qed.

Local Opaque ROWS_PER_FILE.

Lemma write_pages_unfold fuel company write_rows rows sequence_suffix st :
  write_pages (S fuel) company write_rows rows sequence_suffix st =
  if (0 <? length rows)%nat then
    let '(pathname_out, fs1) := write_rows rows sequence_suffix (pg_files st) in
    let retval1 := pg_retval st ++ [pathname_out] in
    let '(rows1, cur1) := fetchmany ROWS_PER_FILE (pg_cursor st) in
    let st1 := {| pg_cursor := cur1; pg_files := fs1; pg_retval := retval1;
                  pg_debug := pg_debug st |} in
    if (length rows1 =? 0)%nat then
      Some (Ok (), {| pg_cursor := cur1; pg_files := fs1; pg_retval := retval1;
                      pg_debug := pg_debug st ++ [exhausted_text company sequence_suffix] |})
    else
      match next_sequence_suffix sequence_suffix with
      | Ok sequence_suffix1 => write_pages fuel company write_rows rows1 sequence_suffix1 st1
      | Raise e => Some (Raise e, st1)
      end
  else Some (Ok (), st).
Proof. reflexivity. Qed.

(** The suffix the loop computes for the next page is the next one of the
    sequence. *)
Lemma next_sequence_suffix_of (i : nat) :
  next_sequence_suffix (sequence_suffix_of i) = Ok (sequence_suffix_of (S i)).
Proof.
  unfold next_sequence_suffix. destruct i as [|j].
  - reflexivity.
  - cbn [sequence_suffix_of].
    destruct (String.eqb_spec (Py.str (Z.of_nat j + 2)) "") as [E|_].
    + now apply str_nonempty in E.
    + rewrite int_str. cbn. do 2 f_equal. lia.
Qed.

Lemma sequence_suffix_of_inj (i j : nat) :
  sequence_suffix_of i = sequence_suffix_of j → i = j.
Proof.
  destruct i as [|i], j as [|j]; cbn; intros H.
  - reflexivity.
  - symmetry in H. now apply str_nonempty in H.
  - now apply str_nonempty in H.
  - apply str_inj in H. lia.
Qed.

Lemma report_file_inj d c t (i j : nat) :
  report_file d c t i = report_file d c t j → i = j.
Proof.
  unfold report_file. intros H.
  apply String.app_inj, String.app_inj, append_inj_r in H.
  now apply sequence_suffix_of_inj.
Qed.

Section OneReport.

Variables (header : row) (local_directory company_name type_suffix : string).

Local Abbreviation name := (report_file local_directory company_name type_suffix).
Local Abbreviation write_rows :=
  (make_writer header local_directory company_name type_suffix).

Lemma page_succ all j : page all (S j) = page (drop ROWS_PER_FILE all) j.
Proof.
  unfold page. rewrite drop_drop. reflexivity.
Qed.

Lemma page_zero all : page all 0 = take ROWS_PER_FILE all.
Proof. reflexivity. Qed.

Lemma exhausted_records_shift (i n : nat) :
  (0 < n)%nat →
  exhausted_records company_name (S i) n = exhausted_records company_name i (S n).
Proof.
  intros Hn. destruct n as [|m]; [lia|]. cbn [exhausted_records].
  now replace (i + S m)%nat with (S i + m)%nat by lia.
Qed.

(** The loop, started on the first page of [all] with the [i]-th suffix. *)
Lemma write_pages_spec (r : nat) (Hr : (r < ROWS_PER_FILE)%nat) :
  ∀ (k : nat) (all : list row) (i fuel : nat) (fs : filesystem) (retval : list string)
    (debug : list string),
    length all = (k * ROWS_PER_FILE + r)%nat →
    (file_count k r ≤ fuel)%nat → (0 < fuel)%nat →
    ∃ fs',
      write_pages fuel company_name write_rows (take ROWS_PER_FILE all)
        (sequence_suffix_of i)
        {| pg_cursor := {| pending := drop ROWS_PER_FILE all |};
           pg_files := fs; pg_retval := retval; pg_debug := debug |}
      = Some (Ok (), {| pg_cursor := {| pending := [] |}; pg_files := fs';
                       pg_retval := retval ++ map name (seq i (file_count k r));
                       pg_debug := debug
                                   ++ exhausted_records company_name i (file_count k r) |})
      ∧ (∀ j, (j < file_count k r)%nat →
              fs' !! name (i + j)%nat = Some (header :: page all j))
      ∧ (∀ p, (∀ j, (j < file_count k r)%nat → p ≠ name (i + j)%nat) →
              fs' !! p = fs !! p).
Proof.
  pose proof ROWS_PER_FILE_pos as HN.
  induction k as [|k IH]; intros all i fuel fs retval debug Hlen Hfuel Hpos.
  - (* fewer rows than a page holds *)
    destruct fuel as [|fuel]; [lia|]. rewrite write_pages_unfold.
    cbn in Hlen. unfold file_count. cbn [Nat.add].
    assert (Htake : take ROWS_PER_FILE all = all) by (apply take_ge; lia).
    assert (Hdrop : drop ROWS_PER_FILE all = []) by (apply drop_ge; lia).
    rewrite Htake, Hdrop, Hlen.
    destruct (0 <? r)%nat eqn:E.
    + exists (<[name i := header :: all]> fs). split; [|split].
      * cbn. rewrite take_nil, drop_nil. cbn. now rewrite Nat.add_0_r.
      * intros j Hj. assert (j = 0)%nat as -> by lia.
        rewrite Nat.add_0_r, lookup_insert_eq.
        now rewrite page_zero, Htake.
      * intros p Hp. apply lookup_insert_ne. intros <-.
        apply (Hp 0%nat); [lia | now rewrite Nat.add_0_r].
    + exists fs. split; [|split].
      * cbn. now rewrite !app_nil_r.
      * intros j Hj. lia.
      * reflexivity.
  - (* at least one full page *)
    destruct fuel as [|fuel]; [lia|]. rewrite write_pages_unfold.
    assert (Hfirst : length (take ROWS_PER_FILE all) = ROWS_PER_FILE)
      by (rewrite length_take; lia).
    assert (Hrest : length (drop ROWS_PER_FILE all) = (k * ROWS_PER_FILE + r)%nat)
      by (rewrite length_drop; lia).
    rewrite Hfirst.
    destruct (0 <? ROWS_PER_FILE)%nat eqn:E; [|apply Nat.ltb_ge in E; lia].
    unfold make_writer at 1. cbn [pg_files pg_retval pg_cursor pg_debug fetchmany pending].
    fold (report_file local_directory company_name type_suffix i). fold name.
    set (all' := drop ROWS_PER_FILE all) in *.
    set (fs1 := <[name i := header :: take ROWS_PER_FILE all]> fs).
    assert (Hcount : file_count (S k) r = S (file_count k r)) by reflexivity.
    destruct (length (take ROWS_PER_FILE all') =? 0)%nat eqn:E1.
    + (* the next fetch is empty: the result set ended on a page boundary *)
      apply Nat.eqb_eq in E1. rewrite length_take in E1.
      assert (k = 0 ∧ r = 0)%nat as [-> ->] by nia.
      assert (Hnil : all' = []) by (apply length_zero_iff_nil; lia).
      exists fs1. rewrite Hnil, drop_nil. split; [|split].
      * unfold file_count. cbn. now rewrite Nat.add_0_r.
      * intros j Hj. unfold file_count in Hj. cbn in Hj.
        assert (j = 0)%nat as -> by lia.
        rewrite Nat.add_0_r. unfold fs1. now rewrite lookup_insert_eq.
      * intros p Hp. apply lookup_insert_ne. intros <-.
        apply (Hp 0%nat); [unfold file_count; cbn; lia | now rewrite Nat.add_0_r].
    + (* more rows follow *)
      apply Nat.eqb_neq in E1. rewrite length_take in E1.
      rewrite next_sequence_suffix_of.
      assert (Hn : (0 < file_count k r)%nat).
      { unfold file_count. destruct (0 <? r)%nat eqn:Er; [lia|].
        apply Nat.ltb_ge in Er. destruct k; [|lia]. cbn in Hrest. lia. }
      destruct (IH all' (S i) fuel fs1 (retval ++ [name i]) debug Hrest)
        as (fs' & Hrun & Hfiles & Hother); [lia | lia |].
      exists fs'. split; [|split].
      * rewrite Hrun, Hcount. cbn [seq map].
        rewrite (exhausted_records_shift i _ Hn). now rewrite <- app_assoc.
      * intros j Hj. destruct j as [|j].
        -- rewrite Nat.add_0_r, Hother.
           ++ unfold fs1. now rewrite lookup_insert_eq.
           ++ intros j _ Heq. apply report_file_inj in Heq. lia.
        -- rewrite page_succ. replace (i + S j)%nat with (S i + j)%nat by lia.
           apply Hfiles. lia.
      * intros p Hp. rewrite Hother.
        -- apply lookup_insert_ne. intros <-.
           apply (Hp 0%nat); [lia | now rewrite Nat.add_0_r].
        -- intros j Hj Heq. apply (Hp (S j)); [lia|].
           now replace (i + S j)%nat with (S i + j)%nat by lia.
Qed.

(** The pages, in order, make up the row sequence. *)
Lemma concat_pages (r : nat) (Hr : (r < ROWS_PER_FILE)%nat) :
  ∀ (k : nat) (all : list row),
    length all = (k * ROWS_PER_FILE + r)%nat →
    concat (map (page all) (seq 0 (file_count k r))) = all.
Proof.
  induction k as [|k IH]; intros all Hlen.
  - unfold file_count. cbn in Hlen. cbn [Nat.add].
    destruct (0 <? r)%nat eqn:E.
    + cbn. rewrite app_nil_r. apply take_ge. lia.
    + apply Nat.ltb_ge in E. cbn. symmetry. apply length_zero_iff_nil. lia.
  - change (file_count (S k) r) with (S (file_count k r)).
    cbn [seq map concat]. rewrite <- seq_shift, map_map.
    rewrite (map_ext _ (page (drop ROWS_PER_FILE all))) by (intros; apply page_succ).
    rewrite IH by (rewrite length_drop; lia).
    apply take_drop.
Qed.

End OneReport.

Transparent ROWS_PER_FILE.

(** C1.  For a result set of [k * ROWS_PER_FILE + r] rows with
    [r < ROWS_PER_FILE], the writer returns normally, having added to the
    list of path names exactly [k + (1 if r > 0 else 0)] names, pairwise
    different, whose sequence suffixes are none, then 2, 3, 4, ...; each
    names a file that starts with the header, and the data rows of these
    files, put together in that order, are the rows of the cursor in
    order. *)
Theorem paginated_writer_files (header : row)
    (local_directory company_name type_suffix : string)
    (rows : list row) (k r : nat) (fs : filesystem) (retval debug : list string) :
  length rows = (k * ROWS_PER_FILE + r)%nat → (r < ROWS_PER_FILE)%nat →
  ∃ st',
    write_report header local_directory company_name type_suffix
      {| pg_cursor := {| pending := rows |}; pg_files := fs; pg_retval := retval;
         pg_debug := debug |}
    = Some (Ok (), st')
    ∧ let produced :=
        map (report_file local_directory company_name type_suffix)
            (seq 0 (file_count k r)) in
      pg_retval st' = retval ++ produced
      ∧ length produced = file_count k r
      ∧ NoDup produced
      ∧ Forall (λ path, file_header (pg_files st') path = Some header) produced
      ∧ concat (map (file_body (pg_files st')) produced) = rows
      ∧ pending (pg_cursor st') = [].
Proof.
  intros Hlen Hr. unfold write_report, fetchmany.
  cbn [pg_cursor pending pg_files pg_retval pg_debug].
  destruct (write_pages_spec header local_directory company_name type_suffix r Hr
              k rows 0%nat (S (length rows)) fs retval debug Hlen)
    as (fs' & Hrun & Hfiles & _).
  { unfold file_count. pose proof ROWS_PER_FILE_pos. destruct (0 <? r)%nat; nia. }
  { lia. }
  eexists. split; [exact Hrun|]. cbn [pg_retval pg_files pg_cursor pending].
  assert (Hlook : ∀ j, (j < file_count k r)%nat →
            fs' !! report_file local_directory company_name type_suffix j
            = Some (header :: take ROWS_PER_FILE (drop (j * ROWS_PER_FILE) rows))).
  { intros j Hj. exact (Hfiles j Hj). }
  split; [reflexivity|]. split; [now rewrite length_map, length_seq|].
  split; [|split; [|split; [|reflexivity]]].
  - apply NoDup_fmap_2; [|apply NoDup_seq].
    intros i j. apply report_file_inj.
  - apply Forall_forall. intros path Hin.
    apply list_elem_of_In, in_map_iff in Hin as (j & <- & Hj).
    apply in_seq in Hj. unfold file_header. rewrite Hlook by lia. reflexivity.
  - rewrite map_map.
    etransitivity; [|exact (concat_pages r Hr k rows Hlen)].
    f_equal. apply map_ext_in. intros j Hj. apply in_seq in Hj.
    unfold file_body. rewrite Hlook by lia. reflexivity.
Qed.

End Pagination.

(** * The output converter for timestamps *)

Section Timestamp.

Import FiscalYear Spec.

(** A property checked on every number of a range by running it. *)
Lemma range_check (P : Z → bool) (lo hi : Z) :
  forallb (λ i, P (lo + Z.of_nat i)) (seq 0 (Z.to_nat (hi - lo))) = true →
  ∀ n, lo ≤ n < hi → P n = true.
Proof.
  intros H n Hn. rewrite forallb_forall in H.
  specialize (H (Z.to_nat (n - lo))).
  replace (lo + Z.of_nat (Z.to_nat (n - lo))) with n in H by lia.
  apply H, in_seq. lia.
Qed.

Lemma zero_padded2_digits (n : Z) : 0 ≤ n < 100 → zero_padded2 n = two_digits n.
Proof.
  intros Hn. apply String.eqb_eq.
  apply (range_check (λ n, String.eqb (zero_padded2 n) (two_digits n)) 0 100);
    [vm_compute; reflexivity | exact Hn].
Qed.

Lemma str_four_digits (y : Z) : 1000 ≤ y < 10000 → Py.str y = four_digits y.
Proof.
  intros Hy. apply String.eqb_eq.
  apply (range_check (λ y, String.eqb (Py.str y) (four_digits y)) 1000 10000);
    [vm_compute; reflexivity | exact Hy].
Qed.

Lemma month_abbr_name (m : Z) :
  1 ≤ m ≤ 12 → default "" (MONTH_ABBR !! Z.to_nat (m - 1)) = month_name m.
Proof.
  intros Hm. apply String.eqb_eq.
  apply (range_check
           (λ m, String.eqb (default "" (MONTH_ABBR !! Z.to_nat (m - 1))) (month_name m))
           1 13); [vm_compute; reflexivity | lia].
Qed.

Lemma month_and_day_bounds (n : Z) (leapyear : bool) :
  0 ≤ n < 365 →
  1 ≤ fst (month_and_day n leapyear) ≤ 12 ∧ 1 ≤ snd (month_and_day n leapyear) ≤ 31.
Proof.
  intros Hn.
  assert (H : month_and_day_ok n = true)
    by (apply (range_check month_and_day_ok 0 365); [vm_compute; reflexivity | exact Hn]).
  unfold month_and_day_ok in H. cbn [forallb] in H.
  destruct leapyear, (month_and_day n true) as [m1 d1], (month_and_day n false) as [m2 d2];
    cbn [fst snd]; lia.
Qed.

(** Year, month and day of the ordinals of the SQL range. *)
Lemma ord2ymd_bounds (ordinal : Z) :
  639906 ≤ ordinal ≤ 3652059 →
  let '(y, m, d) := ord2ymd ordinal in
  1753 ≤ y ≤ 9999 ∧ 1 ≤ m ≤ 12 ∧ 1 ≤ d ≤ 31.
Proof.
  intros Ho. unfold ord2ymd, DI400Y, DI100Y, DI4Y.
  set (n0 := ordinal - 1).
  pose proof (Z.div_mod n0 146097 ltac:(lia)) as E400.
  pose proof (Z.mod_pos_bound n0 146097 ltac:(lia)) as B400.
  set (n400 := n0 / 146097) in *. set (r400 := n0 mod 146097) in *.
  pose proof (Z.div_mod r400 36524 ltac:(lia)) as E100.
  pose proof (Z.mod_pos_bound r400 36524 ltac:(lia)) as B100.
  set (n100 := r400 / 36524) in *. set (r100 := r400 mod 36524) in *.
  pose proof (Z.div_mod r100 1461 ltac:(lia)) as E4.
  pose proof (Z.mod_pos_bound r100 1461 ltac:(lia)) as B4.
  set (n4 := r100 / 1461) in *. set (r4 := r100 mod 1461) in *.
  pose proof (Z.div_mod r4 365 ltac:(lia)) as E1.
  pose proof (Z.mod_pos_bound r4 365 ltac:(lia)) as B1.
  set (n1 := r4 / 365) in *. set (r1 := r4 mod 365) in *.
  assert (0 ≤ n100 ≤ 4 ∧ 0 ≤ n4 ≤ 24 ∧ 0 ≤ n1 ≤ 4 ∧ 4 ≤ n400 ≤ 24) as (H100 & H4 & H1 & H400)
    by (unfold n0 in *; lia).
  destruct ((n1 =? 4) || (n100 =? 4)) eqn:Elast.
  - unfold n0 in *. lia.
  - apply orb_false_iff in Elast as [En1 En100].
    pose proof (month_and_day_bounds r1
                  ((n1 =? 3) && (negb (n4 =? 24) || (n100 =? 3))) B1) as Hmd.
    destruct (month_and_day r1 _) as [m d]. cbn [fst snd] in Hmd.
    unfold n0 in *. lia.
Qed.

Lemma substring_full (s : string) : String.substring 0 (String.length s) s = s.
Proof. induction s as [|c s IH]; [reflexivity|]. cbn. now rewrite IH. Qed.

Lemma month_name_shape (m : Z) :
  1 ≤ m ≤ 12 → ∃ a b c, month_name m = String a (String b (String c EmptyString)).
Proof.
  intros Hm.
  assert (m = 1 ∨ m = 2 ∨ m = 3 ∨ m = 4 ∨ m = 5 ∨ m = 6 ∨ m = 7 ∨ m = 8 ∨ m = 9
          ∨ m = 10 ∨ m = 11 ∨ m = 12) as H by lia.
  repeat destruct H as [->|H]; try subst m; cbn; eauto.
Qed.

(** Lines 127-128 on a string that starts with a month name, a space and
    a day in two digits: the tens digit of a day below 10 becomes a space. *)
Lemma patch_day (a b c : ascii) (d : Z) (rest : string) :
  1 ≤ d ≤ 31 →
  let retval := String a (String b (String c EmptyString)) +:+ " " +:+ two_digits d +:+ rest in
  match String.get 4 retval with
  | None => Raise IndexError
  | Some c0 =>
      if Ascii.eqb c0 "0" then Ok (slice_to 4 retval +:+ " " +:+ slice_from 5 retval)
      else Ok retval
  end
  = Ok (String a (String b (String c EmptyString)) +:+ " " +:+ day_field d +:+ rest).
Proof.
  intros Hd. cbv zeta. unfold day_field, two_digits.
  rewrite !append_cons, !append_nil_l.
  cbn [String.get slice_to slice_from String.length String.substring Nat.sub].
  rewrite substring_full.
  destruct (Z.ltb_spec d 10) as [Hlt|Hge].
  - rewrite (Z.div_small d 10), (Z.mod_small d 10) by lia.
    change (Ascii.eqb (digit 0) "0") with true. cbv iota.
    rewrite !append_cons, !append_nil_l. reflexivity.
  - assert (d / 10 = 1 ∨ d / 10 = 2 ∨ d / 10 = 3) as [E|[E|E]]
      by (pose proof (Z.div_mod d 10 ltac:(lia));
          pose proof (Z.mod_pos_bound d 10 ltac:(lia)); lia);
      rewrite E; [change (Ascii.eqb (digit 1) "0") with false
                 | change (Ascii.eqb (digit 2) "0") with false
                 | change (Ascii.eqb (digit 3) "0") with false];
      cbv iota; rewrite !append_cons, !append_nil_l; reflexivity.
Qed.

Lemma round_ticks_ms_bounds (partial_day : Z) :
  0 ≤ partial_day < 25920000 → 0 ≤ round_ticks_ms partial_day < MS_PER_DAY.
Proof.
  intros H. unfold round_ticks_ms, MS_PER_DAY.
  pose proof (Z.div_mod (20 * partial_day + 3) 6 ltac:(lia)).
  pose proof (Z.mod_pos_bound (20 * partial_day + 3) 6 ltac:(lia)). lia.
Qed.

(** *** The raw value *)

Lemma lor_shiftl_add (x y k : Z) :
  0 ≤ k → 0 ≤ x < 2 ^ k → Z.lor x (Z.shiftl y k) = x + y * 2 ^ k.
Proof.
  intros Hk Hx. rewrite <- (Z.shiftl_mul_pow2 y k Hk).
  rewrite <- (Z.add_lor_land x (Z.shiftl y k)).
  assert (H : Z.land x (Z.shiftl y k) = 0).
  { apply Z.bits_inj'. intros n Hn. rewrite Z.land_spec, Z.bits_0.
    destruct (Z.lt_ge_cases n k) as [Hlt|Hge].
    - rewrite (Z.shiftl_spec_low _ _ _ Hlt). apply andb_false_r.
    - rewrite <- (Z.mod_small x (2 ^ k)) by lia.
      rewrite Z.mod_pow2_bits_high by lia. reflexivity. }
  rewrite H. lia.
Qed.

Lemma byte_value_bounds (b : byte) : 0 ≤ byte_value b < 256.
Proof. unfold byte_value. pose proof (Byte.to_N_bounded b). lia. Qed.

Lemma byte_value_of (n : Z) : 0 ≤ n < 256 → byte_value (byte_of n) = n.
Proof.
  intros Hn. unfold byte_value, byte_of.
  destruct (Byte.of_N (Z.to_N n)) as [b|] eqn:E; cbn [default from_option id].
  - apply Byte.to_of_N in E. lia.
  - apply Byte.of_N_None_iff in E. lia.
Qed.

Lemma byte_of_value (b : byte) : byte_of (byte_value b) = b.
Proof. unfold byte_of, byte_value. now rewrite N2Z.id, Byte.of_to_N. Qed.

(** The bit operations of [le_int32] add up the four bytes by weight. *)
Lemma le_int32_sum (b0 b1 b2 b3 : byte) :
  le_int32 b0 b1 b2 b3
  = let u := byte_value b0 + 256 * byte_value b1 + 65536 * byte_value b2
             + 16777216 * byte_value b3 in
    if u <? 2147483648 then u else u - 4294967296.
Proof.
  unfold le_int32.
  pose proof (byte_value_bounds b0). pose proof (byte_value_bounds b1).
  pose proof (byte_value_bounds b2). pose proof (byte_value_bounds b3).
  assert (Hhigh : Z.lor (Z.shiftl (byte_value b2) 16) (Z.shiftl (byte_value b3) 24)
                  = Z.shiftl (byte_value b2 + byte_value b3 * 2 ^ 8) 16).
  { rewrite <- (lor_shiftl_add (byte_value b2) (byte_value b3) 8) by lia.
    rewrite Z.shiftl_lor, Z.shiftl_shiftl by lia. reflexivity. }
  rewrite Hhigh, (lor_shiftl_add (byte_value b0) (byte_value b1) 8) by lia.
  rewrite (lor_shiftl_add _ _ 16) by lia.
  change (2 ^ 8) with 256. change (2 ^ 16) with 65536.
  change (2 ^ 31) with 2147483648. change (2 ^ 32) with 4294967296.
  cbv zeta.
  replace (byte_value b0 + byte_value b1 * 256 + (byte_value b2 + byte_value b3 * 256) * 65536)
    with (byte_value b0 + 256 * byte_value b1 + 65536 * byte_value b2
          + 16777216 * byte_value b3) by lia.
  reflexivity.
Qed.

Lemma le_int32_bytes (n : Z) :
  - 2147483648 ≤ n < 2147483648 →
  le_int32 (byte_of (n mod 256)) (byte_of (n / 256 mod 256))
           (byte_of (n / 65536 mod 256)) (byte_of (n / 16777216 mod 256)) = n.
Proof.
  intros Hn. rewrite le_int32_sum.
  rewrite !byte_value_of by (apply Z.mod_pos_bound; lia).
  cbv zeta.
  destruct (Z.ltb_spec (n mod 256 + 256 * (n / 256 mod 256) + 65536 * (n / 65536 mod 256)
                        + 16777216 * (n / 16777216 mod 256)) 2147483648);
    Z.div_mod_to_equations; lia.
Qed.

Lemma int32_bytes_le (b0 b1 b2 b3 : byte) :
  int32_bytes (le_int32 b0 b1 b2 b3) = [b0; b1; b2; b3].
Proof.
  rewrite le_int32_sum. cbv zeta.
  pose proof (byte_value_bounds b0). pose proof (byte_value_bounds b1).
  pose proof (byte_value_bounds b2). pose proof (byte_value_bounds b3).
  set (u := byte_value b0 + 256 * byte_value b1 + 65536 * byte_value b2
            + 16777216 * byte_value b3).
  set (n := if u <? 2147483648 then u else u - 4294967296).
  assert (n mod 256 = byte_value b0 ∧ n / 256 mod 256 = byte_value b1
          ∧ n / 65536 mod 256 = byte_value b2 ∧ n / 16777216 mod 256 = byte_value b3)
    as (E0 & E1 & E2 & E3).
  { unfold n. destruct (Z.ltb_spec u 2147483648); unfold u in *;
      Z.div_mod_to_equations; lia. }
  unfold int32_bytes. rewrite E0, E1, E2, E3, !byte_of_value. reflexivity.
Qed.

(** [struct.unpack('<2l', ...)] reads back the two integers of a raw
    value. *)
Lemma unpack_2l_raw_datetime (days_since_1900 partial_day : Z) :
  - 2147483648 ≤ days_since_1900 < 2147483648 →
  - 2147483648 ≤ partial_day < 2147483648 →
  unpack_2l (raw_datetime days_since_1900 partial_day) = Ok (days_since_1900, partial_day).
Proof.
  intros Hd Ht. unfold raw_datetime, int32_bytes. cbn [app unpack_2l].
  now rewrite (le_int32_bytes _ Hd), (le_int32_bytes _ Ht).
Qed.

(** And the eight bytes it accepts are the raw value of the two integers
    it reads. *)
Lemma raw_datetime_unpack_2l (raw_value : list byte) (days_since_1900 partial_day : Z) :
  unpack_2l raw_value = Ok (days_since_1900, partial_day) →
  raw_value = raw_datetime days_since_1900 partial_day.
Proof.
  intros H.
  do 8 (destruct raw_value as [|? raw_value]; [discriminate H|]).
  destruct raw_value; [|discriminate H].
  cbn [unpack_2l] in H. injection H as <- <-.
  unfold raw_datetime. now rewrite !int32_bytes_le.
Qed.

(** *** The date and the time of day *)

(** Rounding the ticks to milliseconds never reaches the next minute. *)
Lemma round_ticks_minute (partial_day : Z) :
  round_ticks_ms partial_day / 60000 = partial_day / 18000.
Proof.
  unfold round_ticks_ms.
  pose proof (Z.div_mod partial_day 18000 ltac:(lia)) as Et.
  pose proof (Z.mod_pos_bound partial_day 18000 ltac:(lia)) as Bt.
  set (q := partial_day / 18000) in *. set (r := partial_day mod 18000) in *.
  pose proof (Z.div_mod (20 * partial_day + 3) 6 ltac:(lia)) as Em.
  pose proof (Z.mod_pos_bound (20 * partial_day + 3) 6 ltac:(lia)) as Bm.
  set (ms := (20 * partial_day + 3) / 6) in *.
  symmetry. apply (Z.div_unique ms 60000 q (ms - 60000 * q)); lia.
Qed.

(** The calendar of [Spec] counts a year as 365 or 366 days. *)
Lemma days_before_year_succ (y : Z) :
  days_before_year (y + 1) = days_before_year y + (if is_leap y then 366 else 365).
Proof.
  unfold days_before_year, is_leap.
  destruct (Z.eqb_spec (y mod 4) 0), (Z.eqb_spec (y mod 100) 0), (Z.eqb_spec (y mod 400) 0);
    cbn [negb orb andb]; Z.div_mod_to_equations; lia.
Qed.

(** The days before the year that four counts of the 400-, 100-, 4- and
    1-year cycles lead to. *)
Lemma days_before_year_cycles (n400 n100 n4 n1 : Z) :
  0 ≤ n100 ≤ 3 → 0 ≤ n4 ≤ 24 → 0 ≤ n1 ≤ 3 →
  days_before_year (400 * n400 + 100 * n100 + 4 * n4 + n1 + 1)
  = 146097 * n400 + 36524 * n100 + 1461 * n4 + 365 * n1.
Proof.
  intros H100 H4 H1. unfold days_before_year. Z.div_mod_to_equations. lia.
Qed.

(** The leap-year test of [ord2ymd], on the counts, is that of the
    calendar, on the year. *)
Lemma is_leap_cycles (n400 n100 n4 n1 : Z) :
  0 ≤ n100 ≤ 3 → 0 ≤ n4 ≤ 24 → 0 ≤ n1 ≤ 3 →
  is_leap (400 * n400 + 100 * n100 + 4 * n4 + n1 + 1)
  = (n1 =? 3) && (negb (n4 =? 24) || (n100 =? 3)).
Proof.
  intros H100 H4 H1. unfold is_leap.
  set (y := 400 * n400 + 100 * n100 + 4 * n4 + n1 + 1).
  destruct (Z.eqb_spec (y mod 4) 0), (Z.eqb_spec (y mod 100) 0), (Z.eqb_spec (y mod 400) 0),
           (Z.eqb_spec n1 3), (Z.eqb_spec n4 24), (Z.eqb_spec n100 3);
    cbn [negb orb andb]; try reflexivity; exfalso; unfold y in *;
    Z.div_mod_to_equations; lia.
Qed.

(** Within a year, [month_and_day] finds the month and the day of the
    calendar. *)
Lemma month_and_day_calendar (n : Z) (leapyear : bool) :
  0 ≤ n < 365 →
  let '(m, d) := month_and_day n leapyear in
  1 ≤ m ≤ 12 ∧ 1 ≤ d ≤ month_length leapyear m
  ∧ days_before_month leapyear m + d = n + 1.
Proof.
  intros Hn.
  assert (H : month_and_day_exact n = true)
    by (apply (range_check month_and_day_exact 0 365); [vm_compute; reflexivity | exact Hn]).
  unfold month_and_day_exact in H. cbn [forallb] in H.
  destruct leapyear, (month_and_day n true) as [m1 d1], (month_and_day n false) as [m2 d2];
    lia.
Qed.

(** [ord2ymd] is the calendar: the date it gives to an ordinal is a date of
    the calendar, and the ordinal is the number of that date. *)
Lemma ord2ymd_calendar (ordinal : Z) :
  1 ≤ ordinal →
  let '(y, m, d) := ord2ymd ordinal in
  1 ≤ m ≤ 12 ∧ 1 ≤ d ≤ days_in_month y m
  ∧ days_before_year y + days_before_month (is_leap y) m + d = ordinal.
Proof.
  intros Ho. unfold ord2ymd, DI400Y, DI100Y, DI4Y, days_in_month.
  set (n0 := ordinal - 1).
  pose proof (Z.div_mod n0 146097 ltac:(lia)) as E400.
  pose proof (Z.mod_pos_bound n0 146097 ltac:(lia)) as B400.
  set (n400 := n0 / 146097) in *. set (r400 := n0 mod 146097) in *.
  pose proof (Z.div_mod r400 36524 ltac:(lia)) as E100.
  pose proof (Z.mod_pos_bound r400 36524 ltac:(lia)) as B100.
  set (n100 := r400 / 36524) in *. set (r100 := r400 mod 36524) in *.
  pose proof (Z.div_mod r100 1461 ltac:(lia)) as E4.
  pose proof (Z.mod_pos_bound r100 1461 ltac:(lia)) as B4.
  set (n4 := r100 / 1461) in *. set (r4 := r100 mod 1461) in *.
  pose proof (Z.div_mod r4 365 ltac:(lia)) as E1.
  pose proof (Z.mod_pos_bound r4 365 ltac:(lia)) as B1.
  set (n1 := r4 / 365) in *. set (r1 := r4 mod 365) in *.
  assert (0 ≤ n100 ≤ 4 ∧ 0 ≤ n4 ≤ 24 ∧ 0 ≤ n1 ≤ 4) as (H100 & H4 & H1) by lia.
  destruct ((n1 =? 4) || (n100 =? 4)) eqn:Elast.
  - (* the last day of a leap year *)
    assert (∃ b c, 0 ≤ b ≤ 3 ∧ 0 ≤ c ≤ 24 ∧ (c = 24 → b = 3)
                   ∧ n400 * 400 + 1 + n100 * 100 + n4 * 4 + n1 - 1
                     = 400 * n400 + 100 * b + 4 * c + 3 + 1
                   ∧ ordinal = 146097 * n400 + 36524 * b + 1461 * c + 365 * 3 + 366)
      as (b & c & Hb & Hc & Hcb & Hyear & Hord).
    { destruct (Z.eqb_spec n100 4) as [E|E].
      - exists 3, 24. unfold n0 in *. lia.
      - destruct (Z.eqb_spec n1 4) as [E'|E']; [|discriminate Elast].
        exists n100, n4. unfold n0 in *. lia. }
    rewrite Hyear.
    rewrite (is_leap_cycles n400 b c 3), (days_before_year_cycles n400 b c 3) by lia.
    assert (Hleap : (3 =? 3) && (negb (c =? 24) || (b =? 3)) = true).
    { destruct (Z.eqb_spec c 24) as [E|E]; [|reflexivity].
      rewrite (Hcb E). reflexivity. }
    rewrite Hleap. change (month_length true 12) with 31.
    change (days_before_month true 12) with 335. lia.
  - apply orb_false_iff in Elast as [En1 En100].
    apply Z.eqb_neq in En1, En100.
    pose proof (month_and_day_calendar r1
                  ((n1 =? 3) && (negb (n4 =? 24) || (n100 =? 3))) B1) as Hmd.
    destruct (month_and_day r1 _) as [m d].
    replace (n400 * 400 + 1 + n100 * 100 + n4 * 4 + n1)
      with (400 * n400 + 100 * n100 + 4 * n4 + n1 + 1) by lia.
    rewrite (is_leap_cycles n400 n100 n4 n1), (days_before_year_cycles n400 n100 n4 n1)
      by lia.
    unfold n0 in *. lia.
Qed.

(** C6.  For every value of the SQL [datetime] type, given as the eight
    bytes of its day count and its ticks, the converter returns the date and
    time the value stands for: the date of the calendar, from 1753 to 9999,
    that lies as many days after 1900-01-01 as the day count says, and the
    hour and minute that the ticks (1080000 to the hour, 18000 to the
    minute) fall in; it writes them in the format "Mon DD YYYY HH:MMAM/PM"
    with a space for the tens digit of a day below 10: nineteen characters
    in all. *)
Theorem datetime_to_string_format (days_since_1900 partial_day : Z) :
  sql_datetime days_since_1900 partial_day →
  ∃ dt,
    epoch_plus days_since_1900 (round_ticks_ms partial_day) = Ok dt
    ∧ 1753 ≤ year dt ≤ 9999 ∧ 1 ≤ month dt ≤ 12 ∧ 1 ≤ day dt ≤ 31
    ∧ 0 ≤ hour dt < 24 ∧ 0 ≤ minute dt < 60
    ∧ day dt ≤ days_in_month (year dt) (month dt)
    ∧ day_number (year dt) (month dt) (day dt) = days_since_1900
    ∧ hour dt = partial_day / 1080000
    ∧ minute dt = (partial_day / 18000) mod 60
    ∧ datetime_to_string (raw_datetime days_since_1900 partial_day)
      = Ok (legacy_timestamp dt)
    ∧ String.length (legacy_timestamp dt) = 19%nat.
Proof.
  intros [Hdays Hticks].
  pose proof (unpack_2l_raw_datetime days_since_1900 partial_day ltac:(lia) ltac:(lia))
    as Hraw.
  pose proof (round_ticks_ms_bounds partial_day Hticks) as Hms.
  pose proof (round_ticks_minute partial_day) as Hminute.
  set (ms := round_ticks_ms partial_day) in *.
  unfold datetime_to_string. rewrite Hraw. cbn [mbind result_bind]. fold ms.
  unfold epoch_plus, EPOCH_ORDINAL, MAXORDINAL.
  rewrite (Z.div_small ms MS_PER_DAY), (Z.mod_small ms MS_PER_DAY) by exact Hms.
  pose proof (ord2ymd_bounds (693596 + days_since_1900 + 0) ltac:(lia)) as Hymd.
  pose proof (ord2ymd_calendar (693596 + days_since_1900 + 0) ltac:(lia)) as Hcal.
  destruct ((0 <? 693596 + days_since_1900 + 0)
            && (693596 + days_since_1900 + 0 <=? 3652059)) eqn:Erange; [|lia].
  destruct (ord2ymd (693596 + days_since_1900 + 0)) as [[y m] d].
  destruct Hymd as (Hy & Hm & Hd). destruct Hcal as (_ & Hdim & Hnumber).
  unfold MS_PER_DAY in Hms.
  assert (Hh : 0 ≤ ms / 3600000 < 24).
  { pose proof (Z.div_mod ms 3600000 ltac:(lia)).
    pose proof (Z.mod_pos_bound ms 3600000 ltac:(lia)). lia. }
  assert (Hmin : 0 ≤ (ms / 60000) mod 60 < 60) by (apply Z.mod_pos_bound; lia).
  assert (Hhour : ms / 3600000 = partial_day / 1080000).
  { change 3600000 with (60000 * 60). change 1080000 with (18000 * 60).
    rewrite <- !Z.div_div by lia. now rewrite Hminute. }
  eexists. split; [reflexivity|]. cbn [year month day hour minute].
  do 5 (split; [assumption|]).
  split; [lia|]. split.
  { unfold day_number. change (days_before_year 1900) with 693595. lia. }
  split; [exact Hhour|]. split; [now rewrite Hminute|].
  set (h12 := if ms / 3600000 mod 12 =? 0 then 12 else ms / 3600000 mod 12).
  assert (Hh12 : 0 ≤ h12 < 100).
  { unfold h12. pose proof (Z.mod_pos_bound (ms / 3600000) 12 ltac:(lia)).
    destruct (_ =? 0); lia. }
  destruct (month_name_shape m Hm) as (a & b & c & Hname).
  cbn [mbind result_bind].
  unfold strftime_b_d_Y_I_M_p, legacy_timestamp. cbn [year month day hour minute].
  fold h12.
  rewrite (month_abbr_name m Hm), (zero_padded2_digits d), (str_four_digits y),
    (zero_padded2_digits h12), (zero_padded2_digits ((ms / 60000) mod 60))
    by lia.
  rewrite Hname. split.
  - apply (patch_day a b c d _ Hd).
  - unfold day_field, two_digits, four_digits.
    rewrite !append_cons, !append_nil_l.
    destruct (d <? 10), (ms / 3600000 <? 12); reflexivity.
Qed.

End Timestamp.

(** * The run of Pipeline A *)

Section FiscalYearRun.

Import FiscalYear.

Variable config_get : string → string → string → option string.
Variable execute : string → list string → list string * list row.

(** C9.  With a configuration file that holds the local directory and the
    three remote keys, the run raises [TypeError] at the second debug line:
    nothing has happened but the first debug record (when debugging); no
    database connection, query, file or remote copy. *)
Theorem copy_fiscal_year_data_raises_type_error (config_path : string) (debugging : bool)
    (w : world) (local_directory host user keyname : string) :
  config_get config_path LOCAL DIRECTORY = Some local_directory →
  config_get config_path REMOTE HOST = Some host →
  config_get config_path REMOTE USER = Some user →
  config_get config_path REMOTE KEYNAME = Some keyname →
  ∃ w',
    copy_fiscal_year_data config_get execute config_path debugging w
    = Some (Raise TypeError, w')
    ∧ files w' = files w
    ∧ trace w' = trace w ++ (if debugging
                             then [ELogDebug ("local directory is " +:+ local_directory)]
                             else []).
Proof.
  intros Hdir Hhost Huser Hkey.
  unfold copy_fiscal_year_data, get_configuration.
  rewrite Hdir. unfold REMOTE_KEYS. cbn [read_remote_specs].
  rewrite Hhost, Huser, Hkey.
  destruct debugging.
  - eexists. split; [reflexivity|]. split; reflexivity.
  - exists w. split; [reflexivity|]. split; [reflexivity|]. now rewrite app_nil_r.
Qed.

End FiscalYearRun.

(** * The field-remapping rewriter *)

Section Rewriter.

Import CheckFiles Spec.

Lemma key_eqb_spec (a b : option string) : Bool.reflect (a = b) (key_eqb a b).
Proof.
  destruct a as [x|], b as [y|]; cbn; try (constructor; congruence).
  destruct (String.eqb_spec x y); constructor; congruence.
Qed.

Lemma dict_keys_set (d : dict) (k : option string) (v : cell) (k' : option string) :
  k' ∈ dict_keys (dict_set d k v) ↔ k' = k ∨ k' ∈ dict_keys d.
Proof.
  unfold dict_keys. induction d as [|[k0 v0] d IH]; cbn.
  - rewrite list_elem_of_singleton. set_solver.
  - destruct (key_eqb_spec k0 k) as [->|Hne]; cbn.
    + set_solver.
    + rewrite !elem_of_cons, IH. tauto.
Qed.

Lemma dict_set_fresh (d : dict) (k : option string) (v : cell) :
  k ∉ dict_keys d → dict_set d k v = d ++ [(k, v)].
Proof.
  unfold dict_keys. induction d as [|[k0 v0] d IH]; cbn; intros Hk.
  - reflexivity.
  - apply not_elem_of_cons in Hk as [Hne Hk].
    destruct (key_eqb_spec k0 k) as [->|_]; [done|].
    now rewrite IH.
Qed.

Lemma dict_get_app_fresh (pre suf : dict) (k : option string) (v : cell) :
  k ∉ dict_keys pre → dict_get (pre ++ (k, v) :: suf) k = Some v.
Proof.
  unfold dict_keys. induction pre as [|[k0 v0] pre IH]; cbn; intros Hk.
  - now destruct (key_eqb_spec k k).
  - apply not_elem_of_cons in Hk as [Hne Hk].
    destruct (key_eqb_spec k0 k) as [->|_]; [done|]. now apply IH.
Qed.

(** No target of the rename table is itself a source. *)
Lemma mapping_get_target (name mapped : string) :
  mapping_get FIELD_MAPPINGS name = Some mapped →
  mapping_get FIELD_MAPPINGS mapped = None.
Proof.
  unfold FIELD_MAPPINGS. cbn [mapping_get].
  repeat (destruct (String.eqb _ name); [intros [= <-]; reflexivity|]).
  discriminate.
Qed.

Lemma rename_unmapped (name : string) :
  mapping_get FIELD_MAPPINGS (rename name) = None.
Proof.
  unfold rename. destruct (mapping_get FIELD_MAPPINGS name) as [mapped|] eqn:E.
  - exact (mapping_get_target _ _ E).
  - exact E.
Qed.

(** The keys of [row_out] are the renamed keys visited, added to those it
    had. *)
Lemma build_row_out_keys (row : dict) :
  ∀ (names : list (option string)) (acc row_out : dict),
    build_row_out row names acc = Ok row_out →
    ∀ k, k ∈ dict_keys row_out ↔
         k ∈ dict_keys acc ∨ ∃ name, name ∈ names ∧ k = rename <$> name.
Proof.
  induction names as [|name names IH]; intros acc row_out H k.
  - injection H as <-. set_solver.
  - cbn [build_row_out] in H.
    destruct (dict_get row name) as [v|]; [|discriminate].
    assert (Hstep : ∀ key v', build_row_out row names (dict_set acc key v') = Ok row_out →
                              key = rename <$> name →
              (k ∈ dict_keys row_out ↔
               k ∈ dict_keys acc ∨ ∃ name', name' ∈ name :: names ∧ k = rename <$> name')).
    { intros key v' Hrun ->. rewrite (IH _ _ Hrun k), dict_keys_set.
      split.
      - intros [[->|Hacc]|(n & Hn & ->)]; [right; exists name|left|right; exists n];
          set_solver.
      - intros [Hacc|(n & Hn & ->)]; [tauto|].
        apply elem_of_cons in Hn as [->|Hn]; [tauto|]. right. now exists n. }
    destruct name as [n|]; cbn [mbind option_bind] in H.
    + destruct (mapping_get FIELD_MAPPINGS n) as [mapped|] eqn:E.
      * apply (Hstep _ _ H). cbn. unfold rename. now rewrite E.
      * destruct (cell_replace_tab v) as [v'|e]; [|discriminate].
        apply (Hstep _ _ H). cbn. unfold rename. now rewrite E.
    + destruct (cell_replace_tab v) as [v'|e]; [|discriminate].
      now apply (Hstep _ _ H).
Qed.

(** The row loop only appends to the output, one record per row it gets
    through, and leaves in [i] the index of the last row. *)
Lemma rewrite_rows_spec (fieldnames_out : list string) :
  ∀ (rows : list dict) (count : Z) (i : option Z) (ofh : ostream),
    ∃ written,
      snd (rewrite_rows fieldnames_out rows count i ofh) = ofh ++ written
      ∧ match fst (rewrite_rows fieldnames_out rows count i ofh) with
        | Ok i' =>
            length written = length rows
            ∧ i' = match rows with
                   | [] => i
                   | _ => Some (count + Z.of_nat (length rows) - 1)
                   end
        | Raise _ => (length written < length rows)%nat
        end.
Proof.
  induction rows as [|row rows IH]; intros count i ofh.
  - exists []. cbn. now rewrite app_nil_r.
  - cbn [rewrite_rows].
    destruct (build_row_out row (dict_keys row) []) as [row_out|e];
      [|exists []; cbn; rewrite app_nil_r; split; [done|lia]].
    destruct (dict_to_list fieldnames_out row_out) as [record|e];
      [|exists []; cbn; rewrite app_nil_r; split; [done|lia]].
    destruct (IH (count + 1) (Some count) (ofh ++ [record])) as (written & Hout & Hres).
    exists (record :: written). split.
    + rewrite Hout, <- app_assoc. reflexivity.
    + destruct (fst (rewrite_rows fieldnames_out rows (count + 1) (Some count)
                       (ofh ++ [record]))) as [i'|e].
      * destruct Hres as [Hlen ->]. split; [cbn; lia|].
        destruct rows; [f_equal; cbn; lia | f_equal; cbn [length]; lia].
      * cbn [length]. lia.
Qed.

(** What [rewrite_csv] leaves in the output when it is given a header. *)
Lemma rewrite_csv_output (header : list string) (records : list (list string))
    (ofh : ostream) :
  ∃ written,
    snd (rewrite_csv (header :: records) ofh)
    = ofh ++ (CStr <$> (rename <$> header)) :: written
    ∧ match fst (rewrite_csv (header :: records) ofh) with
      | Ok n => n = Z.of_nat (length written) ∧ (0 < n)
      | Raise _ => True
      end.
Proof.
  cbn [rewrite_csv].
  destruct (rewrite_rows_spec (map rename header) (reader_rows header records) 0 None
              (ofh ++ [map CStr (map rename header)])) as (written & Hout & Hres).
  destruct (rewrite_rows _ _ _ _ _) as [[[i|]|e] ofh2]; cbn [fst snd] in *;
    exists written; (split; [rewrite Hout, <- app_assoc; reflexivity|]); try exact I.
  destruct Hres as [Hlen Hi].
  destruct (reader_rows header records) as [|row rows]; [discriminate|].
  injection Hi as ->. rewrite Hlen. cbn [length]. lia.
Qed.

(** C2 (the code at the failing input).  A stream that holds a header and
    no data row makes [rewrite_csv] raise [UnboundLocalError] after it has
    written the header: the loop variable [i] of line 231 is never bound,
    and line 240 reads it. *)
Theorem rewrite_csv_header_only_raises (header : list string) (ofh : ostream) :
  rewrite_csv [header] ofh
  = (Raise UnboundLocalError, ofh ++ [CStr <$> (rename <$> header)]).
Proof. reflexivity. Qed.

(** When [rewrite_csv] does return, it returns the number of data records
    it wrote after the header, and that number is positive. *)
Lemma rewrite_csv_count (ifh : list (list string)) (ofh ofh' : ostream) (n : Z) :
  rewrite_csv ifh ofh = (Ok n, ofh') →
  ∃ header written,
    ofh' = ofh ++ header :: written ∧ n = Z.of_nat (length written) ∧ 0 < n.
Proof.
  destruct ifh as [|header records]; [discriminate|]. intros H.
  destruct (rewrite_csv_output header records ofh) as (written & Hout & Hres).
  rewrite H in Hout, Hres. cbn in Hout, Hres.
  exists (CStr <$> (rename <$> header)), written. tauto.
Qed.

(** C3 (the code at the failing input).  A tab in a field of a renamed
    column reaches the output as it is: line 235 copies the value, only
    line 237 replaces tabs. *)
Theorem rewrite_csv_keeps_tab_in_renamed_column :
  rewrite_csv [["FCC"; "Notes"]; ["a" +:+ String TAB "b"; "c" +:+ String TAB "d"]] []
  = (Ok 1, [[CStr "LM2"; CStr "Notes"];
            [CStr ("a" +:+ String TAB "b"); CStr "c d"]]).
Proof. reflexivity. Qed.


(** *** Round trip *)

Lemma replace_char_no_tab (s : string) :
  Spec.has_tab s = false → Py.replace_char TAB " " s = s.
Proof.
  unfold Spec.has_tab. induction s as [|c s IH]; cbn; [reflexivity|].
  rewrite (Ascii.eqb_sym TAB c).
  destruct (Ascii.eqb c TAB); cbn; [discriminate|].
  intros H. now rewrite IH.
Qed.

Lemma paired_cons (n : string) (names : list string) (f : string) (fields : list string) :
  paired (n :: names) (f :: fields) = (Some n, CStr f) :: paired names fields.
Proof. reflexivity. Qed.

Lemma dict_keys_paired (names fields : list string) :
  length names = length fields → dict_keys (paired names fields) = Some <$> names.
Proof.
  intros H. unfold dict_keys, paired. apply fst_zip. rewrite !length_fmap. lia.
Qed.

Lemma dict_zip_fresh :
  ∀ (names fields : list string) (d : dict),
    length names = length fields → NoDup names →
    (∀ n, n ∈ names → Some n ∉ dict_keys d) →
    dict_zip names fields d = d ++ paired names fields.
Proof.
  induction names as [|n names IH]; intros [|f fields] d Hlen Hnd Hfresh;
    try discriminate.
  - cbn. now rewrite app_nil_r.
  - cbn [dict_zip]. apply NoDup_cons in Hnd as [Hn Hnd].
    rewrite dict_set_fresh by (apply Hfresh; set_solver).
    rewrite IH.
    + rewrite <- app_assoc. reflexivity.
    + cbn in Hlen. lia.
    + exact Hnd.
    + intros m Hm. unfold dict_keys. rewrite fmap_app. cbn.
      intros Hin. apply elem_of_app in Hin as [Hin|Hin].
      * apply (Hfresh m); [set_solver | exact Hin].
      * apply list_elem_of_singleton in Hin. injection Hin as ->. contradiction.
Qed.

Lemma reader_row_paired (names fields : list string) :
  length fields = length names → NoDup names →
  reader_row names fields = paired names fields.
Proof.
  intros Hlen Hnd. unfold reader_row. rewrite Hlen, Nat.ltb_irrefl.
  rewrite dict_zip_fresh; [reflexivity | lia | exact Hnd |].
  intros n _ Hin. cbn in Hin. now apply elem_of_nil in Hin.
Qed.

Lemma build_row_out_clean :
  ∀ (suf pre : dict),
    NoDup (dict_keys (pre ++ suf)) → Forall clean suf →
    build_row_out (pre ++ suf) (dict_keys suf) pre = Ok (pre ++ suf).
Proof.
  induction suf as [|[k v] suf IH]; intros pre Hnd Hclean.
  - cbn. now rewrite app_nil_r.
  - apply Forall_cons in Hclean as [(n & s & [= -> ->] & Hn & Hs) Hclean].
    assert (Hk : Some n ∉ dict_keys pre).
    { unfold dict_keys in *. rewrite fmap_app in Hnd.
      apply NoDup_app in Hnd as (_ & Hdisj & _). intros Hin.
      apply (Hdisj _ Hin). set_solver. }
    cbn [dict_keys fmap list_fmap map fst build_row_out].
    rewrite dict_get_app_fresh by exact Hk.
    cbn [mbind option_bind]. unfold Spec.unmapped in Hn. rewrite Hn.
    cbn [cell_replace_tab mbind result_bind]. rewrite replace_char_no_tab by exact Hs.
    rewrite dict_set_fresh by exact Hk.
    change (map fst suf) with (dict_keys suf).
    replace (pre ++ (Some n, CStr s) :: suf) with ((pre ++ [(Some n, CStr s)]) ++ suf)
      by (now rewrite <- app_assoc).
    apply IH; [now rewrite <- app_assoc | exact Hclean].
Qed.

Lemma paired_clean (names fields : list string) :
  Forall Spec.unmapped names → Forall (λ v, Spec.has_tab v = false) fields →
  Forall clean (paired names fields).
Proof.
  intros Hn. revert fields. induction Hn as [|n names Hn _ IH]; intros fields Hf.
  - constructor.
  - destruct Hf as [|f fields Hf Hfs]; [constructor|].
    unfold paired. cbn. constructor; [now exists n, f | now apply IH].
Qed.

Lemma dict_to_list_paired_values :
  ∀ (names fields : list string) (pre : dict),
    length names = length fields → NoDup names →
    (∀ n, n ∈ names → Some n ∉ dict_keys pre) →
    map (λ key, default (CStr "") (dict_get (pre ++ paired names fields) (Some key))) names
    = CStr <$> fields.
Proof.
  induction names as [|n names IH]; intros [|f fields] pre Hlen Hnd Hfresh;
    try discriminate; [reflexivity|].
  apply NoDup_cons in Hnd as [Hn Hnd].
  rewrite paired_cons. cbn [map].
  rewrite dict_get_app_fresh by (apply Hfresh; set_solver). cbn [default from_option id].
  cbn [fmap list_fmap]. f_equal.
  rewrite cons_middle, app_assoc.
  apply IH; [cbn in Hlen; lia | exact Hnd |].
  intros m Hm. unfold dict_keys. rewrite fmap_app. cbn.
  intros Hin. apply elem_of_app in Hin as [Hin|Hin].
  - apply (Hfresh m); [set_solver | exact Hin].
  - apply list_elem_of_singleton in Hin. injection Hin as ->. contradiction.
Qed.

Lemma dict_to_list_paired (names fields : list string) :
  length names = length fields → NoDup names →
  dict_to_list names (paired names fields) = Ok (CStr <$> fields).
Proof.
  intros Hlen Hnd. unfold dict_to_list.
  rewrite dict_keys_paired by exact Hlen.
  assert (Hwrong : ∀ l : list string, Forall (λ n, n ∈ names) l →
            List.filter (λ k : option string,
                           match k with
                           | Some name => negb (bool_decide (name ∈ names))
                           | None => true
                           end) (Some <$> l) = []).
  { induction 1 as [|n l Hn _ IH]; [reflexivity|].
    cbn. rewrite bool_decide_eq_true_2 by exact Hn. exact IH. }
  rewrite Hwrong by (apply Forall_forall; auto).
  f_equal. apply (dict_to_list_paired_values names fields []); [exact Hlen | exact Hnd |].
  intros n _ Hin. cbn in Hin. now apply elem_of_nil in Hin.
Qed.

(** A record as wide as a header without repeated or renamed names, with
    no tab in it, is written as it is. *)
Lemma rewrite_row_clean (header fields : list string) :
  NoDup header → Forall Spec.unmapped header →
  length fields = length header → Forall (λ v, Spec.has_tab v = false) fields →
  let row := reader_row header fields in
  build_row_out row (dict_keys row) [] ≫= dict_to_list header = Ok (CStr <$> fields).
Proof.
  intros Hnd Hun Hlen Htab. cbn zeta.
  rewrite reader_row_paired by assumption.
  pose proof (build_row_out_clean (paired header fields) []) as H.
  rewrite app_nil_l in H. rewrite H.
  - cbn [mbind result_bind]. apply dict_to_list_paired; [lia | exact Hnd].
  - rewrite dict_keys_paired by lia. apply NoDup_fmap; [|exact Hnd].
    intros ?? [= ->]. reflexivity.
  - now apply paired_clean.
Qed.

Lemma rewrite_rows_clean (header : list string) :
  NoDup header → Forall Spec.unmapped header →
  ∀ (records : list (list string)) (count : Z) (i : option Z) (ofh : ostream),
    Forall (λ fields, length fields = length header
                      ∧ Forall (λ v, Spec.has_tab v = false) fields) records →
    rewrite_rows header (map (reader_row header) records) count i ofh
    = (Ok (match records with
           | [] => i
           | _ => Some (count + Z.of_nat (length records) - 1)
           end),
       ofh ++ map (map CStr) records).
Proof.
  intros Hnd Hun. induction records as [|fields records IH]; intros count i ofh Hrec.
  - cbn. now rewrite app_nil_r.
  - apply Forall_cons in Hrec as [[Hlen Htab] Hrec].
    cbn [map rewrite_rows].
    pose proof (rewrite_row_clean header fields Hnd Hun Hlen Htab) as Hrow.
    cbn zeta in Hrow.
    destruct (build_row_out _ _ _) as [row_out|e]; [|discriminate].
    cbn [mbind result_bind] in Hrow. rewrite Hrow.
    rewrite IH by exact Hrec. f_equal.
    + f_equal. destruct records; f_equal; cbn [length]; lia.
    + now rewrite <- app_assoc.
Qed.

Lemma rename_unmapped_id (header : list string) :
  Forall Spec.unmapped header → rename <$> header = header.
Proof.
  induction 1 as [|n header Hn _ IH]; [reflexivity|].
  cbn [fmap list_fmap]. unfold rename at 1. unfold Spec.unmapped in Hn. rewrite Hn.
  f_equal. exact IH.
Qed.

Lemma filter_non_blank (width : nat) (records : list (list string)) :
  (0 < width)%nat → Forall (λ fields, length fields = width) records →
  List.filter (λ fields : list string, negb (bool_decide (fields = []))) records = records.
Proof.
  intros Hw. induction 1 as [|fields records Hlen _ IH]; [reflexivity|].
  cbn [List.filter]. rewrite bool_decide_eq_false_2.
  - cbn. now rewrite IH.
  - intros ->. cbn in Hlen. lia.
Qed.

(** C7, as amended.  For every input whose header is not empty and holds
    pairwise distinct column names, none of them in the rename table, and
    whose data records are each as wide as the header and hold no tab: the
    output is the input header followed by the input records, value for
    value and in order; and when there is at least one data record the
    function returns their number. *)
Theorem rewrite_csv_round_trip (header : list string) (records : list (list string))
    (ofh : ostream) :
  header ≠ [] → NoDup header → Forall Spec.unmapped header →
  Forall (λ fields, length fields = length header
                    ∧ Forall (λ v, Spec.has_tab v = false) fields) records →
  snd (rewrite_csv (header :: records) ofh) = ofh ++ map (map CStr) (header :: records)
  ∧ (records ≠ [] →
     fst (rewrite_csv (header :: records) ofh) = Ok (Z.of_nat (length records))).
Proof.
  intros Hne Hnd Hun Hrec. cbn [rewrite_csv].
  rewrite rename_unmapped_id by exact Hun.
  unfold reader_rows.
  rewrite (filter_non_blank (length header)).
  - rewrite rewrite_rows_clean by assumption.
    destruct records as [|fields records]; cbn [fst snd].
    + split; [now rewrite app_nil_r | done].
    + split; [now rewrite <- app_assoc|]. intros _. f_equal. lia.
  - destruct header; [done | cbn; lia].
  - eapply Forall_impl; [exact Hrec|]. now intros fields [? _].
Qed.

(** The round trip at an export of two accounts and three columns. *)
Lemma rewrite_csv_round_trip_witness :
  snd (rewrite_csv [["Account"; "Amount"; "Notes"];
                    ["1001"; "25.00"; "dues"]; ["1002"; "7.50"; "refund"]] [])
  = [[CStr "Account"; CStr "Amount"; CStr "Notes"];
     [CStr "1001"; CStr "25.00"; CStr "dues"];
     [CStr "1002"; CStr "7.50"; CStr "refund"]].
Proof.
  refine (proj1 (rewrite_csv_round_trip ["Account"; "Amount"; "Notes"]
                   [["1001"; "25.00"; "dues"]; ["1002"; "7.50"; "refund"]] [] _ _ _ _)).
  - discriminate.
  - apply (bool_decide_unpack _). vm_compute. exact I.
  - repeat constructor.
  - repeat constructor.
Defined.

(** C7, as stated, fails: two columns of the same name, none in the rename
    table, and no tab anywhere; the second value is written under both. *)
Lemma rewrite_csv_round_trip_fails_on_repeated_name :
  Forall Spec.unmapped ["Amount"; "Amount"]
  ∧ Forall (Forall (λ v, Spec.has_tab v = false)) [["1"; "2"]]
  ∧ snd (rewrite_csv [["Amount"; "Amount"]; ["1"; "2"]] [])
    = [[CStr "Amount"; CStr "Amount"]; [CStr "2"; CStr "2"]]
  ∧ snd (rewrite_csv [["Amount"; "Amount"]; ["1"; "2"]] [])
    ≠ map (map CStr) [["Amount"; "Amount"]; ["1"; "2"]].
Proof.
  split; [repeat constructor|]. split; [repeat constructor|].
  split; [reflexivity|]. vm_compute. discriminate.
Qed.

End Rewriter.

(** * The run of Pipeline B *)

Section CheckFilesRun.

Import CheckFiles.

Variable remote : string → host_output.
Variable debugging : bool.

Lemma bind_ok {A B} (m : prog A) (f : A → prog B) (w w' : world) (b : B) :
  (m ≫= f) w = (Ok b, w') → ∃ a w1, m w = (Ok a, w1) ∧ f a w1 = (Ok b, w').
Proof.
  unfold mbind, prog_bind. destruct (m w) as [[a|e] w1]; [|discriminate].
  intros H. now exists a, w1.
Qed.

Local Abbreviation quiet := Spec.quiet.

Lemma quiet_ret {A} (a : A) : quiet (mret a : prog A).
Proof. intros w. exists []. cbn. now rewrite app_nil_r. Qed.

Lemma quiet_raise {A} (e : exn) : quiet (raise e : prog A).
Proof. intros w. exists []. cbn. now rewrite app_nil_r. Qed.

Lemma quiet_event (e : event) : Spec.is_mv_event e = false → quiet (do_event e).
Proof. intros He w. exists [e]. cbn. split; [reflexivity | now constructor]. Qed.

Lemma quiet_bind {A B} (m : prog A) (f : A → prog B) :
  quiet m → (∀ a, quiet (f a)) → quiet (m ≫= f).
Proof.
  intros Hm Hf w. destruct (Hm w) as (evs & Ht & Hq).
  unfold mbind, prog_bind. destruct (m w) as [[a|e] w1]; cbn [snd] in *.
  - destruct (Hf a w1) as (evs' & Ht' & Hq'). exists (evs ++ evs'). split.
    + now rewrite Ht', Ht, app_assoc.
    + now apply Forall_app.
  - now exists evs.
Qed.

Lemma quiet_for_each {A} (xs : list A) (body : A → prog unit) :
  (∀ x, quiet (body x)) → quiet (for_each xs body).
Proof.
  intros Hb. induction xs as [|x xs IH]; cbn [for_each].
  - apply quiet_ret.
  - apply quiet_bind; [apply Hb | intros _; exact IH].
Qed.

Lemma quiet_run_command (command_line : string) :
  String.prefix "mv " command_line = false → quiet (run_command remote command_line).
Proof.
  intros H. unfold run_command. apply quiet_bind.
  - now apply quiet_event.
  - intros _. apply quiet_ret.
Qed.

Lemma quiet_logger_debug (text : string) : quiet (logger_debug debugging text).
Proof. unfold logger_debug. destruct debugging; [now apply quiet_event | apply quiet_ret]. Qed.

Lemma quiet_logger_debug_unformattable (text : string) :
  quiet (logger_debug_unformattable debugging text).
Proof.
  unfold logger_debug_unformattable.
  destruct debugging; [now apply quiet_event | apply quiet_ret].
Qed.

Create HintDb quiet.

#[local] Hint Resolve quiet_ret quiet_raise quiet_logger_debug
  quiet_logger_debug_unformattable : quiet.

(** *** The non-empty-file filter *)

Local Abbreviation present := (Spec.present remote).
Local Abbreviation debug_events := (Spec.debug_events debugging).

Lemma bind_eq {A B} (m : prog A) (f : A → prog B) (w : world) :
  (m ≫= f) w = match m w with
               | (Ok a, w1) => f a w1
               | (Raise e, w1) => (Raise e, w1)
               end.
Proof. unfold mbind, prog_bind. now destruct (m w) as [[a|e] w1]. Qed.

Lemma run_command_eq (command_line : string) (w : world) :
  run_command remote command_line w
  = (Ok (remote command_line), emit (ERunCommand command_line) w).
Proof. reflexivity. Qed.

Lemma do_event_eq (e : event) (w : world) : do_event e w = (Ok (), emit e w).
Proof. reflexivity. Qed.

Lemma logger_debug_eq (text : string) (w : world) :
  ∃ w1, logger_debug debugging text w = (Ok (), w1)
        ∧ trace w1 = trace w ++ debug_events (ELogDebug text)
        ∧ files w1 = files w.
Proof.
  unfold logger_debug, debug_events. destruct debugging.
  - now eexists.
  - exists w. cbn. now rewrite app_nil_r.
Qed.

Lemma logger_debug_unformattable_eq (text : string) (w : world) :
  ∃ w1, logger_debug_unformattable debugging text w = (Ok (), w1)
        ∧ trace w1 = trace w ++ debug_events (ELogFormatFailure text)
        ∧ files w1 = files w.
Proof.
  unfold logger_debug_unformattable, debug_events. destruct debugging.
  - now eexists.
  - exists w. cbn. now rewrite app_nil_r.
Qed.

Lemma debug_events_not_recorded (e : event) (p : string) :
  (∀ q, e ≠ ERecordFoundNotCopied q) → ERecordFoundNotCopied p ∉ debug_events e.
Proof.
  intros He. unfold debug_events. destruct debugging.
  - intros H. apply list_elem_of_singleton in H. now apply (He p).
  - apply not_elem_of_nil.
Qed.

Lemma list_present_spec :
  ∀ (prospective_files temp : list FileSpec) (w : world),
    ∃ w' evs,
      list_present remote debugging prospective_files temp w
      = (Ok (temp ++ present prospective_files), w')
      ∧ trace w' = trace w ++ evs
      ∧ ∀ p, ERecordFoundNotCopied p ∉ evs.
Proof.
  induction prospective_files as [|spec rest IH]; intros temp w.
  - exists w, []. cbn. rewrite !app_nil_r. split; [done|]. split; [done|].
    intros p. apply not_elem_of_nil.
  - cbn [list_present]. rewrite bind_eq.
    destruct (logger_debug_unformattable_eq "checking for" w) as (w1 & -> & Ht1 & _).
    rewrite bind_eq, run_command_eq.
    destruct (IH (temp ++ map (λ _, spec) (stdout (remote ("ls " +:+ remote_path spec))))
                 (emit (ERunCommand ("ls " +:+ remote_path spec)) w1))
      as (w' & evs & Hw' & Ht & Hrec).
    exists w', (debug_events (ELogFormatFailure "checking for")
                  ++ [ERunCommand ("ls " +:+ remote_path spec)] ++ evs).
    split; [|split].
    + rewrite Hw'. unfold present. cbn [flat_map]. now rewrite <- app_assoc.
    + rewrite Ht. cbn [emit trace]. rewrite Ht1, <- !app_assoc. reflexivity.
    + intros p. rewrite !elem_of_app, list_elem_of_singleton.
      intros [H|[H|H]].
      * now apply debug_events_not_recorded in H.
      * discriminate.
      * now apply Hrec in H.
Qed.

Lemma elem_of_present (prospective_files : list FileSpec) (spec : FileSpec) :
  spec ∈ present prospective_files ↔ spec ∈ prospective_files ∧ Spec.listed remote spec.
Proof.
  unfold present, Spec.listed. rewrite list_elem_of_In, in_flat_map. split.
  - intros (s & Hs & Hin). apply in_map_iff in Hin as (line & <- & Hline).
    split; [now apply list_elem_of_In|]. intros E. rewrite E in Hline. contradiction.
  - intros [Hs Hl]. exists spec. split; [now apply list_elem_of_In|].
    destruct (stdout _) as [|line more]; [done|]. now left.
Qed.

Lemma quiet_list_present :
  ∀ (prospective_files temp : list FileSpec),
    quiet (list_present remote debugging prospective_files temp).
Proof.
  induction prospective_files as [|spec rest IH]; intros temp; cbn [list_present].
  - apply quiet_ret.
  - apply quiet_bind; [auto with quiet|]. intros _.
    apply quiet_bind; [now apply quiet_run_command|]. intros host_out. apply IH.
Qed.

Lemma quiet_keep_non_empty :
  ∀ (temp retval : list FileSpec), quiet (keep_non_empty remote debugging temp retval).
Proof.
  induction temp as [|spec rest IH]; intros retval; cbn [keep_non_empty].
  - apply quiet_ret.
  - apply quiet_bind; [auto with quiet|]. intros _.
    apply quiet_bind; [now apply quiet_run_command|]. intros host_out.
    destruct (stdout host_out) as [|line ?]; [auto with quiet|].
    destruct (has_records line).
    + apply quiet_bind; [auto with quiet|]. intros _. apply IH.
    + apply quiet_bind; [now apply quiet_event|]. intros _.
      apply quiet_bind; [auto with quiet|]. intros _. apply IH.
Qed.

(** The second loop, when [wc -l] prints a line for every file it is asked
    about: the files kept, and the files recorded as found but not
    copied. *)
Lemma keep_non_empty_spec :
  ∀ (temp retval : list FileSpec) (w : world),
    (∀ spec, spec ∈ temp → is_Some (Spec.wc_line remote spec)) →
    ∃ w' evs,
      keep_non_empty remote debugging temp retval w
      = (Ok (retval ++ List.filter (Spec.kept remote) temp), w')
      ∧ trace w' = trace w ++ evs
      ∧ (∀ p, ERecordFoundNotCopied p ∈ evs ↔
              ∃ spec, spec ∈ temp ∧ Spec.kept remote spec = false ∧ p = remote_path spec).
Proof.
  induction temp as [|spec rest IH]; intros retval w Hwc.
  - exists w, []. cbn. rewrite !app_nil_r. split; [done|]. split; [done|].
    intros p. split; [intros H; now apply elem_of_nil in H|].
    intros (spec & H & _). now apply elem_of_nil in H.
  - destruct (Hwc spec) as [line Hline]; [set_solver|].
    assert (Hrest : ∀ s, s ∈ rest → is_Some (Spec.wc_line remote s)) by set_solver.
    assert (Hkept : Spec.kept remote spec = has_records line)
      by (unfold Spec.kept; now rewrite Hline).
    cbn [keep_non_empty List.filter]. rewrite Hkept.
    unfold Spec.wc_line in Hline.
    rewrite bind_eq.
    destruct (logger_debug_eq ("checking for " +:+ remote_path spec) w)
      as (w1 & -> & Ht1 & _).
    rewrite bind_eq, run_command_eq.
    destruct (stdout (remote ("wc -l " +:+ remote_path spec))) as [|line' more] eqn:Eout;
      [discriminate|].
    injection Hline as ->.
    set (w2 := emit (ERunCommand ("wc -l " +:+ remote_path spec)) w1).
    destruct (has_records line) eqn:Ekeep.
    + rewrite bind_eq.
      destruct (logger_debug_eq
                  ("found " +:+ remote_path spec +:+ " with at least one record") w2)
        as (w3 & -> & Ht3 & _).
      destruct (IH (retval ++ [spec]) w3 Hrest) as (w' & evs & Hrun & Ht & Hrec).
      exists w', (debug_events (ELogDebug ("checking for " +:+ remote_path spec))
                    ++ [ERunCommand ("wc -l " +:+ remote_path spec)]
                    ++ debug_events (ELogDebug ("found " +:+ remote_path spec
                                                +:+ " with at least one record"))
                    ++ evs).
      split; [rewrite Hrun; now rewrite <- app_assoc|]. split.
      * rewrite Ht, Ht3. unfold w2. cbn [emit trace]. rewrite Ht1.
        rewrite <- !app_assoc. reflexivity.
      * intros p. rewrite !elem_of_app, Hrec, list_elem_of_singleton. split.
        -- intros [H|[H|[H|(s & Hs & Hk & ->)]]].
           ++ now apply debug_events_not_recorded in H.
           ++ discriminate.
           ++ now apply debug_events_not_recorded in H.
           ++ exists s. set_solver.
        -- intros (s & Hs & Hk & ->). apply elem_of_cons in Hs as [->|Hs].
           ++ congruence.
           ++ do 3 right. now exists s.
    + rewrite bind_eq, do_event_eq.
      set (w3 := emit (ERecordFoundNotCopied (remote_path spec)) w2).
      rewrite bind_eq.
      destruct (logger_debug_eq (remote_path spec +:+ " found but empty") w3)
        as (w4 & -> & Ht4 & _).
      destruct (IH retval w4 Hrest) as (w' & evs & Hrun & Ht & Hrec).
      exists w', (debug_events (ELogDebug ("checking for " +:+ remote_path spec))
                    ++ [ERunCommand ("wc -l " +:+ remote_path spec)]
                    ++ [ERecordFoundNotCopied (remote_path spec)]
                    ++ debug_events (ELogDebug (remote_path spec +:+ " found but empty"))
                    ++ evs).
      split; [exact Hrun|]. split.
      * rewrite Ht, Ht4. unfold w3, w2. cbn [emit trace]. rewrite Ht1.
        rewrite <- !app_assoc. reflexivity.
      * intros p. rewrite !elem_of_app, Hrec, !list_elem_of_singleton. split.
        -- intros [H|[H|[H|[H|(s & Hs & Hk & ->)]]]].
           ++ now apply debug_events_not_recorded in H.
           ++ discriminate.
           ++ injection H as ->. exists spec. set_solver.
           ++ now apply debug_events_not_recorded in H.
           ++ exists s. set_solver.
        -- intros (s & Hs & Hk & ->). apply elem_of_cons in Hs as [->|Hs].
           ++ tauto.
           ++ do 4 right. now exists s.
Qed.

(** [available_non_empty_files], when [wc -l] prints a line for every
    file [ls] found: the files it returns and those it records. *)
Lemma available_non_empty_files_spec (prospective_files : list FileSpec) (w : world) :
  (∀ s, s ∈ prospective_files → Spec.listed remote s → is_Some (Spec.wc_line remote s)) →
  ∃ w' evs,
    available_non_empty_files remote debugging prospective_files w
    = (Ok (List.filter (Spec.kept remote) (present prospective_files)), w')
    ∧ trace w' = trace w ++ evs
    ∧ (∀ p, ERecordFoundNotCopied p ∈ evs ↔
            ∃ s, s ∈ prospective_files ∧ Spec.listed remote s
                 ∧ Spec.kept remote s = false ∧ p = remote_path s).
Proof.
  intros Hwc. unfold available_non_empty_files. rewrite bind_eq.
  destruct (list_present_spec prospective_files [] w) as (w1 & ev1 & -> & Ht1 & Hn1).
  rewrite app_nil_l.
  destruct (keep_non_empty_spec (present prospective_files) [] w1)
    as (w' & ev2 & -> & Ht2 & Hrec).
  { intros s Hs. apply elem_of_present in Hs as [Hs Hl]. now apply Hwc. }
  exists w', (ev1 ++ ev2). split; [done|]. split.
  - now rewrite Ht2, Ht1, app_assoc.
  - intros p. rewrite elem_of_app, Hrec. split.
    + intros [H|(s & Hs & Hk & ->)]; [now apply Hn1 in H|].
      apply elem_of_present in Hs as [Hs Hl]. now exists s.
    + intros (s & Hs & Hl & Hk & ->). right. exists s.
      split; [now apply elem_of_present | done].
Qed.

Lemma kept_same_path (s s' : FileSpec) :
  remote_path s = remote_path s' → Spec.kept remote s = Spec.kept remote s'.
Proof. unfold Spec.kept, Spec.wc_line. now intros ->. Qed.

(** What the filter does with one file [ls] found. *)
Lemma filter_verdict (prospective_files : list FileSpec) (w : world) (spec : FileSpec) :
  spec ∈ prospective_files → Spec.listed remote spec →
  (∀ s, s ∈ prospective_files → Spec.listed remote s → is_Some (Spec.wc_line remote s)) →
  ∃ retval w' evs,
    available_non_empty_files remote debugging prospective_files w = (Ok retval, w')
    ∧ trace w' = trace w ++ evs
    ∧ (Spec.kept remote spec = true →
       spec ∈ retval ∧ (ERecordFoundNotCopied (remote_path spec) ∉ evs))
    ∧ (Spec.kept remote spec = false →
       (spec ∉ retval) ∧ ERecordFoundNotCopied (remote_path spec) ∈ evs).
Proof.
  intros Hin Hl Hwc.
  destruct (available_non_empty_files_spec prospective_files w Hwc)
    as (w' & evs & Hrun & Ht & Hrec).
  eexists _, w', evs. split; [exact Hrun|]. split; [exact Ht|]. split.
  - intros Hk. split.
    + apply list_elem_of_In, filter_In. split; [|exact Hk].
      apply list_elem_of_In, elem_of_present. now split.
    + intros H. apply Hrec in H as (s & _ & _ & Hks & Hp).
      rewrite (kept_same_path spec s Hp) in Hk. congruence.
  - intros Hk. split.
    + intros H. apply list_elem_of_In, filter_In in H as [_ H]. congruence.
    + apply Hrec. now exists spec.
Qed.

Lemma has_records_two_tokens (line count_token path_token : string) :
  Py.split line = [count_token; path_token] →
  has_records line = negb (String.eqb count_token "1").
Proof. unfold has_records. now intros ->. Qed.

Lemma has_records_other_shape (line : string) :
  length (Py.split line) ≠ 2%nat → has_records line = false.
Proof.
  unfold has_records. intros H.
  destruct (Nat.eqb_spec (length (Py.split line)) 2); [contradiction | reflexivity].
Qed.

Lemma str_is_one (n : Z) : String.eqb (Py.str n) "1" = bool_decide (n = 1).
Proof.
  destruct (String.eqb_spec (Py.str n) "1") as [E|E].
  - change "1" with (Py.str 1) in E. apply str_inj in E.
    now rewrite bool_decide_eq_true_2.
  - rewrite bool_decide_eq_false_2; [reflexivity|]. intros ->. now apply E.
Qed.

(** C5.  A file that [ls] found and for which [wc -l] prints the count [n]
    and the path: with [n = 1] it is left out of the files to copy and
    recorded as found but not copied; with [n] 2 or more it is among the
    files to copy and not recorded so. *)
Theorem filter_by_line_count (prospective_files : list FileSpec) (w : world)
    (spec : FileSpec) (line : string) (n : Z) (path_token : string) :
  spec ∈ prospective_files → Spec.listed remote spec →
  (∀ s, s ∈ prospective_files → Spec.listed remote s → is_Some (Spec.wc_line remote s)) →
  Spec.wc_line remote spec = Some line →
  Py.split line = [Py.str n; path_token] →
  ∃ retval w' evs,
    available_non_empty_files remote debugging prospective_files w = (Ok retval, w')
    ∧ trace w' = trace w ++ evs
    ∧ (n = 1 → (spec ∉ retval) ∧ ERecordFoundNotCopied (remote_path spec) ∈ evs)
    ∧ (2 ≤ n → spec ∈ retval ∧ (ERecordFoundNotCopied (remote_path spec) ∉ evs)).
Proof.
  intros Hin Hl Hwc Hline Hsplit.
  destruct (filter_verdict prospective_files w spec Hin Hl Hwc)
    as (retval & w' & evs & Hrun & Ht & Hyes & Hno).
  assert (Hk : Spec.kept remote spec = negb (bool_decide (n = 1))).
  { unfold Spec.kept. rewrite Hline, (has_records_two_tokens _ _ _ Hsplit).
    now rewrite str_is_one. }
  exists retval, w', evs. split; [exact Hrun|]. split; [exact Ht|]. split.
  - intros ->. apply Hno. rewrite Hk. reflexivity.
  - intros Hn. apply Hyes. rewrite Hk, bool_decide_eq_false_2; [reflexivity | lia].
Qed.

(** C10.  A file that [ls] found: when [wc -l] prints the count token "0"
    and a path, it is among the files to copy; when the line [wc -l] prints
    is not made of exactly two tokens, it is left out and recorded as found
    but not copied, whatever it holds. *)
Theorem filter_zero_count_and_odd_lines (prospective_files : list FileSpec) (w : world)
    (spec : FileSpec) (line : string) :
  spec ∈ prospective_files → Spec.listed remote spec →
  (∀ s, s ∈ prospective_files → Spec.listed remote s → is_Some (Spec.wc_line remote s)) →
  Spec.wc_line remote spec = Some line →
  ∃ retval w' evs,
    available_non_empty_files remote debugging prospective_files w = (Ok retval, w')
    ∧ trace w' = trace w ++ evs
    ∧ ((∃ path_token, Py.split line = ["0"; path_token]) →
       spec ∈ retval ∧ (ERecordFoundNotCopied (remote_path spec) ∉ evs))
    ∧ (length (Py.split line) ≠ 2%nat →
       (spec ∉ retval) ∧ ERecordFoundNotCopied (remote_path spec) ∈ evs).
Proof.
  intros Hin Hl Hwc Hline.
  destruct (filter_verdict prospective_files w spec Hin Hl Hwc)
    as (retval & w' & evs & Hrun & Ht & Hyes & Hno).
  exists retval, w', evs. split; [exact Hrun|]. split; [exact Ht|]. split.
  - intros (path_token & Hsplit). apply Hyes.
    unfold Spec.kept. rewrite Hline. now rewrite (has_records_two_tokens _ _ _ Hsplit).
  - intros Hshape. apply Hno.
    unfold Spec.kept. rewrite Hline. now apply has_records_other_shape.
Qed.

(** *** Moving the remote files aside *)

Variable config_get : string → string → string → option string.
Variable csv_reader : list string → list (list string).
Variable today : string.

Lemma quiet_ok {A} (m : prog A) (w w1 : world) (r : result A) :
  quiet m → m w = (r, w1) →
  ∃ evs, trace w1 = trace w ++ evs ∧ Forall (λ e, Spec.is_mv_event e = false) evs.
Proof. intros Hq Hm. destruct (Hq w) as (evs & Ht & Hf). rewrite Hm in Ht. now exists evs. Qed.

Lemma quiet_get_configuration (pathname_in : string) :
  quiet (get_configuration config_get pathname_in).
Proof.
  unfold get_configuration. destruct (read_groups _ _ _ _); [apply quiet_ret|].
  apply quiet_bind; [now apply quiet_event | intros _; apply quiet_raise].
Qed.

Lemma quiet_config_item (specs : gmap string (gmap string string)) (group name : string) :
  quiet (config_item specs group name).
Proof. unfold config_item. destruct (_ ≫= _); auto with quiet. Qed.

Lemma quiet_make_ssh_client (specs : gmap string (gmap string string)) :
  quiet (make_ssh_client specs).
Proof.
  unfold make_ssh_client.
  repeat (apply quiet_bind; [apply quiet_config_item | intros ?]).
  now apply quiet_event.
Qed.

Lemma quiet_name_prospective_files (specs : gmap string (gmap string string))
    (companies : list Company) :
  quiet (name_prospective_files today specs companies).
Proof.
  unfold name_prospective_files.
  repeat (apply quiet_bind; [apply quiet_config_item | intros ?]).
  apply quiet_ret.
Qed.

Lemma quiet_available_non_empty_files (prospective_files : list FileSpec) :
  quiet (available_non_empty_files remote debugging prospective_files).
Proof.
  unfold available_non_empty_files.
  apply quiet_bind; [apply quiet_list_present | intros temp; apply quiet_keep_non_empty].
Qed.

Lemma quiet_copy_file_to_host (spec : FileSpec) :
  quiet (copy_file_to_host remote csv_reader spec).
Proof.
  intros w. unfold copy_file_to_host. rewrite run_command_eq.
  destruct (rewrite_csv _ _) as [[records|e] ofh]; cbn.
  - exists [ERunCommand ("cat " +:+ remote_path spec);
            ERecordCopy (remote_path spec) records].
    split; [now rewrite <- app_assoc | now repeat constructor].
  - exists [ERunCommand ("cat " +:+ remote_path spec)].
    split; [reflexivity | now repeat constructor].
Qed.

Lemma quiet_copyfile (spec : FileSpec) : quiet (copyfile spec).
Proof. intros w. exists []. cbn. now rewrite app_nil_r. Qed.

Lemma quiet_copy_phase (files_wanted : list FileSpec) :
  quiet (if (0 <? length files_wanted)%nat
         then copied_files ← copy_files_to_host remote csv_reader files_wanted;
              copy_files_to_share copied_files
         else mret ()).
Proof.
  destruct (0 <? length files_wanted)%nat; [|apply quiet_ret].
  apply quiet_bind.
  - unfold copy_files_to_host. apply quiet_bind; [|intros _; apply quiet_ret].
    apply quiet_for_each, quiet_copy_file_to_host.
  - intros copied. apply quiet_for_each, quiet_copyfile.
Qed.

Lemma mv_command_is_mv (spec : FileSpec) :
  Spec.is_mv_event (ERunCommand (mv_command spec)) = true.
Proof.
  unfold Spec.is_mv_event, mv_command.
  change ("mv " +:+ remote_path spec +:+ " " +:+ remote_path_old spec)
    with (String "m" (String "v" (String " "
            (remote_path spec +:+ " " +:+ remote_path_old spec)))).
  cbn. now destruct (remote_path spec +:+ " " +:+ remote_path_old spec).
Qed.

(** What [get_configuration] hands over is what the file holds. *)
Lemma read_group_lookup (pathname_in group : string) :
  ∀ (names : list string) (values res : gmap string string),
    read_group config_get pathname_in group names values = Some res →
    ∀ name, res !! name = if decide (name ∈ names)
                          then config_get pathname_in group name
                          else values !! name.
Proof.
  induction names as [|a names IH]; intros values res H name.
  - injection H as <-. rewrite decide_False; [reflexivity | apply not_elem_of_nil].
  - cbn [read_group] in H.
    destruct (config_get pathname_in group a) as [v|] eqn:Ea; [|discriminate].
    rewrite (IH _ _ H name).
    destruct (decide (name ∈ names)) as [Hin|Hout].
    + rewrite decide_True; [reflexivity | set_solver].
    + destruct (decide (name = a)) as [->|Hne].
      * rewrite lookup_insert_eq, decide_True; [now rewrite Ea | set_solver].
      * rewrite lookup_insert_ne by congruence.
        rewrite decide_False; [reflexivity | set_solver].
Qed.

Lemma get_configuration_lookup (pathname_in : string) (w w1 : world)
    (config : gmap string (gmap string string)) :
  get_configuration config_get pathname_in w = (Ok config, w1) →
  ∀ group names name,
    (group, names) ∈ KEYS_WANTED → name ∈ names →
    config !! group ≫= (.!! name) = config_get pathname_in group name.
Proof.
  unfold get_configuration.
  destruct (read_groups config_get pathname_in KEYS_WANTED ∅) as [res|] eqn:E;
    [|discriminate].
  intros [= <- _]. unfold KEYS_WANTED in *. cbn [read_groups] in E.
  destruct (read_group config_get pathname_in REMOTE _ ∅) as [r|] eqn:Er; [|discriminate].
  destruct (read_group config_get pathname_in LOCAL _ ∅) as [l|] eqn:El; [|discriminate].
  injection E as <-.
  intros group names name Hg Hn.
  apply elem_of_cons in Hg as [[= -> ->]|Hg].
  - rewrite lookup_insert_ne by discriminate. rewrite lookup_insert_eq. cbn.
    rewrite (read_group_lookup _ _ _ _ _ Er name). now rewrite decide_True.
  - apply list_elem_of_singleton in Hg as [= -> ->].
    rewrite lookup_insert_eq. cbn.
    rewrite (read_group_lookup _ _ _ _ _ El name). now rewrite decide_True.
Qed.

Lemma config_item_ok (specs : gmap string (gmap string string)) (group name v : string)
    (w w1 : world) :
  config_item specs group name w = (Ok v, w1) →
  w1 = w ∧ specs !! group ≫= (.!! name) = Some v.
Proof.
  unfold config_item. destruct (specs !! group ≫= _) as [v'|]; [|discriminate].
  now intros [= -> ->].
Qed.

Lemma name_prospective_files_ok (specs : gmap string (gmap string string))
    (companies : list Company) (w w1 : world) (prospective : list FileSpec) :
  name_prospective_files today specs companies w = (Ok prospective, w1) →
  ∃ remote_directory done_directory,
    specs !! REMOTE ≫= (.!! DIRECTORY) = Some remote_directory
    ∧ specs !! REMOTE ≫= (.!! DONE_DIRECTORY) = Some done_directory
    ∧ map mv_command prospective
      = map (Spec.move_aside_command remote_directory done_directory) companies.
Proof.
  unfold name_prospective_files. intros H.
  apply bind_ok in H as (rd & w2 & H1 & H). apply config_item_ok in H1 as [-> Hrd].
  apply bind_ok in H as (td & w3 & H2 & H). apply config_item_ok in H2 as [-> Htd].
  apply bind_ok in H as (sd & w4 & H3 & H). apply config_item_ok in H3 as [-> Hsd].
  apply bind_ok in H as (dd & w5 & H4 & H). apply config_item_ok in H4 as [-> Hdd].
  injection H as <- _.
  exists rd, dd. split; [exact Hrd|]. split; [exact Hdd|].
  rewrite map_map. reflexivity.
Qed.

Lemma append_assoc (a b c : string) : (a +:+ b) +:+ c = a +:+ (b +:+ c).
Proof.
  induction a as [|x a IH]; [reflexivity|].
  rewrite !append_cons. now rewrite IH.
Qed.

(** Joining a directory with a relative name puts the name after a stem
    that depends on the directory only. *)
Lemma path_join_relative (a b : string) :
  Py.starts_with_slash b = false →
  Py.path_join a b
  = (a +:+ (if (String.eqb a "" || Py.ends_with_slash a)%bool then "" else "/")) +:+ b.
Proof.
  intros Hb. unfold Py.path_join. rewrite Hb.
  destruct (String.eqb a "" || Py.ends_with_slash a)%bool.
  - rewrite append_assoc. reflexivity.
  - rewrite append_assoc. reflexivity.
Qed.

(** The commands for the three companies differ from each other. *)
Lemma move_aside_commands_distinct (remote_directory done_directory : string) :
  NoDup (map (Spec.move_aside_command remote_directory done_directory) COMPANIES).
Proof.
  set (stem := "mv " +:+ remote_directory
               +:+ (if (String.eqb remote_directory ""
                        || Py.ends_with_slash remote_directory)%bool then "" else "/")).
  assert (Hshape : ∀ company,
            Spec.move_aside_command remote_directory done_directory company
            = stem +:+ (("cr-" +:+ abbreviation company +:+ ".csv") +:+ " "
                        +:+ Py.path_join done_directory
                              ("cr-" +:+ abbreviation company +:+ ".csv"))).
  { intros company. unfold Spec.move_aside_command, stem. cbv zeta.
    rewrite (path_join_relative remote_directory) by reflexivity.
    rewrite !append_assoc. reflexivity. }
  unfold COMPANIES. cbn [map]. rewrite !Hshape. cbn [abbreviation].
  repeat constructor; rewrite ?elem_of_cons, ?elem_of_nil;
    intros H; repeat destruct H as [H|H]; try contradiction;
    apply String.app_inj in H;
    apply (f_equal (String.get 3)) in H; discriminate H.
Qed.

Lemma world_eta (w : world) : {| trace := trace w; files := files w |} = w.
Proof. now destruct w. Qed.

(** The last phase, in full: it prints and runs one command per file, warns
    about each that fails, and touches no local file. *)
Lemma move_remote_files_aside_trace :
  ∀ (specs : list FileSpec) (w : world),
    move_remote_files_aside remote specs w
    = (Ok (), {| trace := trace w ++ flat_map (Spec.move_events remote) specs;
                 files := files w |}).
Proof.
  unfold move_remote_files_aside.
  induction specs as [|spec specs IH]; intros w.
  - cbn. now rewrite app_nil_r, world_eta.
  - cbn [for_each]. rewrite bind_eq. unfold move_aside at 1.
    rewrite bind_eq, do_event_eq, bind_eq, run_command_eq.
    cbn [flat_map]. unfold Spec.move_events at 1. cbv zeta.
    destruct (exit_code (remote (mv_command spec)) =? 0).
    + cbn [mret prog_ret]. rewrite IH. cbn [emit trace files].
      rewrite <- !app_assoc. reflexivity.
    + rewrite do_event_eq, IH. cbn [emit trace files].
      rewrite <- !app_assoc. reflexivity.
Qed.

Lemma flat_map_map {A B C} (f : A → B) (g : B → list C) (l : list A) :
  flat_map g (map f l) = flat_map (λ x, g (f x)) l.
Proof. induction l as [|x l IH]; [reflexivity|]. cbn. now rewrite IH. Qed.

(** Among the events of the last phase, the commands are the move-aside
    commands, one per file. *)
Lemma filter_move_events (specs : list FileSpec) :
  List.filter Spec.is_mv_event (flat_map (Spec.move_events remote) specs)
  = map (λ spec, ERunCommand (mv_command spec)) specs.
Proof.
  induction specs as [|spec specs IH]; [reflexivity|].
  cbn [flat_map map]. rewrite List.filter_app, IH. unfold Spec.move_events.
  cbv zeta. rewrite List.filter_app. cbn [List.filter].
  rewrite mv_command_is_mv. cbn [Spec.is_mv_event].
  destruct (exit_code (remote (mv_command spec)) =? 0); reflexivity.
Qed.

(** A world reached from [w] without a move-aside command. *)
Local Abbreviation before w w1 :=
  (∃ pre, trace w1 = trace w ++ pre ∧ Forall (λ e, Spec.is_mv_event e = false) pre).

Lemma before_start (w : world) : before w w.
Proof. exists []. split; [now rewrite app_nil_r | constructor]. Qed.

Lemma before_step {A} (m : prog A) (w w1 w2 : world) (r : result A) :
  before w w1 → quiet m → m w1 = (r, w2) → before w w2.
Proof.
  intros (pre & Ht & Hf) Hq Hm.
  destruct (quiet_ok m w1 w2 r Hq Hm) as (evs & Ht' & Hf').
  exists (pre ++ evs). split.
  - now rewrite Ht', Ht, app_assoc.
  - now apply Forall_app.
Qed.

Lemma bind_cases {A B} (m : prog A) (f : A → prog B) (w w' : world) (r : result B) :
  (m ≫= f) w = (r, w') →
  (∃ e, m w = (Raise e, w') ∧ r = Raise e)
  ∨ (∃ a w1, m w = (Ok a, w1) ∧ f a w1 = (r, w')).
Proof.
  unfold mbind, prog_bind. destruct (m w) as [[a|e] w1]; intros H.
  - right. now exists a, w1.
  - left. injection H as <- <-. now exists e.
Qed.


End CheckFilesRun.

(** * The two pipelines on the sample collaborators *)

Section OnSample.

Import CheckFiles.

Lemma sample_wc_lines (s : FileSpec) :
  s ∈ Sample.prospective → Spec.listed Sample.remote s →
  is_Some (Spec.wc_line Sample.remote s).
Proof.
  unfold Sample.prospective. rewrite !elem_of_cons, elem_of_nil.
  intros [->|[->|[->|[]]]] Hl; [now eexists | now eexists |].
  exfalso. now apply Hl.
Qed.

Lemma sample_unterminated_wc_lines (s : FileSpec) :
  s ∈ Sample.prospective → Spec.listed Sample.remote_unterminated s →
  is_Some (Spec.wc_line Sample.remote_unterminated s).
Proof.
  unfold Sample.prospective. rewrite !elem_of_cons, elem_of_nil.
  intros [->|[->|[->|[]]]] _; now eexists.
Qed.

(** C5 on the sample host: the file of [afl], one line long, is left out
    and recorded. *)
Lemma filter_by_line_count_witness :
  ∃ retval w' evs,
    available_non_empty_files Sample.remote false Sample.prospective Sample.start
    = (Ok retval, w')
    ∧ trace w' = trace Sample.start ++ evs
    ∧ (1 = 1 → (Sample.afl ∉ retval)
               ∧ ERecordFoundNotCopied (remote_path Sample.afl) ∈ evs)
    ∧ (2 ≤ 1 → Sample.afl ∈ retval
               ∧ (ERecordFoundNotCopied (remote_path Sample.afl) ∉ evs)).
Proof.
  apply (filter_by_line_count Sample.remote false Sample.prospective Sample.start
           Sample.afl "1 /in/cr-afl.csv" 1 "/in/cr-afl.csv").
  - unfold Sample.prospective. apply elem_of_cons. now left.
  - discriminate.
  - exact sample_wc_lines.
  - reflexivity.
  - reflexivity.
Defined.

(** C10 on the sample host with the unterminated file of [wpr]: counted as
    0 lines, it is among the files to copy. *)
Lemma filter_zero_count_and_odd_lines_witness :
  ∃ retval w' evs,
    available_non_empty_files Sample.remote_unterminated false Sample.prospective
      Sample.start = (Ok retval, w')
    ∧ trace w' = trace Sample.start ++ evs
    ∧ ((∃ path_token, Py.split "0 /in/cr-wpr.csv" = ["0"; path_token]) →
       Sample.wpr ∈ retval ∧ (ERecordFoundNotCopied (remote_path Sample.wpr) ∉ evs))
    ∧ (length (Py.split "0 /in/cr-wpr.csv") ≠ 2%nat →
       (Sample.wpr ∉ retval) ∧ ERecordFoundNotCopied (remote_path Sample.wpr) ∈ evs).
Proof.
  apply (filter_zero_count_and_odd_lines Sample.remote_unterminated false
           Sample.prospective Sample.start Sample.wpr "0 /in/cr-wpr.csv").
  - unfold Sample.prospective. rewrite !elem_of_cons. tauto.
  - discriminate.
  - exact sample_unterminated_wc_lines.
  - reflexivity.
Defined.



(** C1 on a result set of two full pages and three rows more. *)
Lemma paginated_writer_files_witness :
  ∃ st',
    FiscalYear.write_report ["Date"; "Amount"] "/home/runner/poliops2" "aflcio" "_narrow"
      {| FiscalYear.pg_cursor :=
           {| FiscalYear.pending :=
                repeat ["2017-01-01"; "1.00"] (2 * FiscalYear.ROWS_PER_FILE + 3) |};
         FiscalYear.pg_files := ∅; FiscalYear.pg_retval := [];
         FiscalYear.pg_debug := [] |}
    = Some (Ok (), st')
    ∧ FiscalYear.pg_retval st'
      = ["/home/runner/poliops2/aflcio_narrow.tsv";
         "/home/runner/poliops2/aflcio_narrow2.tsv";
         "/home/runner/poliops2/aflcio_narrow3.tsv"].
Proof.
  destruct (paginated_writer_files ["Date"; "Amount"] "/home/runner/poliops2" "aflcio"
              "_narrow"
              (repeat ["2017-01-01"; "1.00"] (2 * FiscalYear.ROWS_PER_FILE + 3))
              2 3 ∅ [] [])
    as (st' & Hrun & Hret & _).
  - apply repeat_length.
  - apply Nat.ltb_lt. vm_compute. reflexivity.
  - exists st'. split; [exact Hrun|]. rewrite Hret. vm_compute. reflexivity.
Defined.

(** C9 on the sample configuration file. *)
Lemma copy_fiscal_year_data_raises_type_error_witness :
  ∃ w',
    FiscalYear.copy_fiscal_year_data Sample.config_get Sample.execute "transfer.ini" true
      {| FiscalYear.trace := []; FiscalYear.files := ∅ |}
    = Some (Raise TypeError, w')
    ∧ FiscalYear.files w' = ∅
    ∧ FiscalYear.trace w'
      = [] ++ [FiscalYear.ELogDebug ("local directory is " +:+ "/home/runner/poliops2")].
Proof.
  apply (copy_fiscal_year_data_raises_type_error Sample.config_get Sample.execute
           "transfer.ini" true {| FiscalYear.trace := []; FiscalYear.files := ∅ |}
           "/home/runner/poliops2" "trfr.example.org" "poliops"
           "/home/runner/.ssh/id_transfer"); reflexivity.
Defined.

(** C6 at nine in the morning of the fourth of July 1776, which lies
    45105 days before 1900-01-01. *)
Lemma datetime_to_string_format_witness :
  Spec.raw_datetime (-45105) 9720000 = [xcf; x4f; xff; xff; xc0; x50; x94; x00]%byte
  ∧ Spec.day_number 1776 7 4 = -45105
  ∧ FiscalYear.datetime_to_string [xcf; x4f; xff; xff; xc0; x50; x94; x00]%byte
    = Ok "Jul  4 1776 09:00AM".
Proof.
  destruct (datetime_to_string_format (-45105) 9720000)
    as (dt & Hdt & _ & _ & _ & _ & _ & _ & _ & _ & _ & Hout & _).
  - unfold Spec.sql_datetime. lia.
  - split; [vm_compute; reflexivity|]. split; [vm_compute; reflexivity|].
    change [xcf; x4f; xff; xff; xc0; x50; x94; x00]%byte
      with (Spec.raw_datetime (-45105) 9720000).
    rewrite Hout. vm_compute in Hdt. injection Hdt as <-. reflexivity.
Defined.

End OnSample.

(** * Loading the configuration *)

Section ConfigurationA.

Import FiscalYear.

Variable config_get : string → string → string → option string.
Variable execute : string → list string → list string * list row.

Lemma read_remote_specs_missing (config_path : string) :
  ∀ (keys : list string) (remote_specs : gmap string string) (key : string),
    key ∈ keys → config_get config_path REMOTE key = None →
    read_remote_specs config_get config_path keys remote_specs = None.
Proof.
  induction keys as [|k keys IH]; intros remote_specs key Hin Hnone.
  - now apply elem_of_nil in Hin.
  - cbn [read_remote_specs]. apply elem_of_cons in Hin as [<-|Hin].
    + now rewrite Hnone.
    + destruct (config_get config_path REMOTE k); [|reflexivity]. now apply (IH _ key).
Qed.

(** X1.  When the configuration file lacks the local directory or one of
    the remote keys [host], [user], [keyname], the export prints the
    explanation and exits: nothing else happens. *)
Theorem copy_fiscal_year_data_exits_on_missing_key (config_path : string)
    (debugging : bool) (w : world) :
  config_get config_path LOCAL DIRECTORY = None
  ∨ (∃ key, key ∈ REMOTE_KEYS ∧ config_get config_path REMOTE key = None) →
  copy_fiscal_year_data config_get execute config_path debugging w
  = Some (Raise SystemExit, emit (EPrint CONFIG_HELP) w).
Proof.
  intros H. unfold copy_fiscal_year_data, get_configuration.
  destruct (config_get config_path LOCAL DIRECTORY) as [local_directory|] eqn:Edir.
  - destruct H as [H|(key & Hin & Hnone)]; [discriminate|].
    now rewrite (read_remote_specs_missing config_path REMOTE_KEYS ∅ key Hin Hnone).
  - reflexivity.
Qed.

End ConfigurationA.

(** X1 on a file that does not exist: every lookup fails. *)
Lemma copy_fiscal_year_data_exits_on_missing_key_witness :
  FiscalYear.copy_fiscal_year_data Sample.config_get Sample.execute "absent.ini" false
    {| FiscalYear.trace := []; FiscalYear.files := ∅ |}
  = Some (Raise SystemExit,
          {| FiscalYear.trace := [FiscalYear.EPrint FiscalYear.CONFIG_HELP];
             FiscalYear.files := ∅ |}).
Proof.
  apply (copy_fiscal_year_data_exits_on_missing_key Sample.config_get Sample.execute
           "absent.ini" false {| FiscalYear.trace := []; FiscalYear.files := ∅ |}).
  left. reflexivity.
Defined.

Section ConfigurationB.

Import CheckFiles.

Variable config_get : string → string → string → option string.

Lemma read_group_missing (pathname_in group : string) :
  ∀ (names : list string) (values : gmap string string) (name : string),
    name ∈ names → config_get pathname_in group name = None →
    read_group config_get pathname_in group names values = None.
Proof.
  induction names as [|k names IH]; intros values name Hin Hnone.
  - now apply elem_of_nil in Hin.
  - cbn [read_group]. apply elem_of_cons in Hin as [<-|Hin].
    + now rewrite Hnone.
    + destruct (config_get pathname_in group k); [|reflexivity]. now apply (IH _ name).
Qed.

Lemma read_group_present (pathname_in group : string) :
  ∀ (names : list string) (values : gmap string string),
    (∀ name, name ∈ names → is_Some (config_get pathname_in group name)) →
    is_Some (read_group config_get pathname_in group names values).
Proof.
  induction names as [|k names IH]; intros values Hall.
  - now eexists.
  - cbn [read_group]. destruct (Hall k) as [v ->]; [set_solver|].
    apply IH. intros name Hin. apply Hall. set_solver.
Qed.

Lemma read_group_values (pathname_in group : string) :
  ∀ (names : list string) (values res : gmap string string),
    read_group config_get pathname_in group names values = Some res →
    ∀ name, name ∈ names → res !! name = config_get pathname_in group name.
Proof.
  induction names as [|k names IH]; intros values res H name Hin.
  - now apply elem_of_nil in Hin.
  - cbn [read_group] in H.
    destruct (config_get pathname_in group k) as [v|] eqn:Ek; [|discriminate].
    destruct (decide (name ∈ names)) as [Hn|Hn]; [exact (IH _ _ H name Hn)|].
    apply elem_of_cons in Hin as [->|Hin]; [|contradiction].
    clear IH. revert values H. induction names as [|k' names IH']; intros values H.
    + injection H as <-. now rewrite lookup_insert_eq, Ek.
    + cbn [read_group] in H.
      destruct (config_get pathname_in group k') as [v'|]; [|discriminate].
      apply not_elem_of_cons in Hn as [Hne Hn].
      rewrite insert_insert_ne in H by congruence. exact (IH' Hn _ H).
Qed.

Lemma read_groups_missing (pathname_in : string) (group : string) (names : list string)
    (name : string) :
  (group, names) ∈ KEYS_WANTED → name ∈ names →
  config_get pathname_in group name = None →
  read_groups config_get pathname_in KEYS_WANTED ∅ = None.
Proof.
  intros Hg Hn Hnone. unfold KEYS_WANTED in *. cbn [read_groups].
  apply elem_of_cons in Hg as [[= -> ->]|Hg].
  - now rewrite (read_group_missing pathname_in REMOTE _ ∅ name Hn Hnone).
  - apply list_elem_of_singleton in Hg as [= -> ->].
    destruct (read_group config_get pathname_in REMOTE _ ∅); [|reflexivity].
    now rewrite (read_group_missing pathname_in LOCAL _ ∅ name Hn Hnone).
Qed.

Section Run.

Variable remote : string → host_output.
Variable csv_reader : list string → list (list string).
Variable today : string.
Variable debugging : bool.

(** X2.  When the configuration file lacks one of the wanted keys, the
    transfer has connected to the audit database, logs the error and exits:
    no command is sent to the remote host and no file is written. *)
Theorem copy_check_files_exits_on_missing_key (config_path : string) (w : world)
    (group : string) (names : list string) (name : string) :
  (group, names) ∈ KEYS_WANTED → name ∈ names →
  config_get config_path group name = None →
  copy_check_files config_get remote csv_reader today debugging config_path w
  = (Raise SystemExit,
     {| trace := trace w ++ [EDbConnect "ga_helper";
                             ELogError "malformed .ini file provided, quitting."];
        files := files w |}).
Proof.
  intros Hg Hn Hnone. unfold copy_check_files.
  rewrite bind_eq, do_event_eq, bind_eq. unfold get_configuration.
  rewrite (read_groups_missing config_path group names name Hg Hn Hnone).
  rewrite bind_eq, do_event_eq. unfold raise, emit. cbn [trace files].
  now rewrite <- app_assoc.
Qed.

End Run.

Lemma get_configuration_present (pathname_in : string) (w : world) :
  (∀ group names name, (group, names) ∈ KEYS_WANTED → name ∈ names →
                       is_Some (config_get pathname_in group name)) →
  ∃ config,
    get_configuration config_get pathname_in w = (Ok config, w)
    ∧ ∀ group names name, (group, names) ∈ KEYS_WANTED → name ∈ names →
        config !! group ≫= (.!! name) = config_get pathname_in group name.
Proof.
  intros Hall.
  assert (Hrun : ∃ config, get_configuration config_get pathname_in w = (Ok config, w)).
  { unfold get_configuration, KEYS_WANTED in *. cbn [read_groups].
    destruct (read_group_present pathname_in REMOTE
                [HOST; USER; KEYNAME; DIRECTORY; DONE_DIRECTORY] ∅) as [r ->].
    { intros name Hn. eapply Hall; [|exact Hn]. set_solver. }
    destruct (read_group_present pathname_in LOCAL
                [TEMP_DIRECTORY; DESTINATION_DIRECTORY] ∅) as [l ->].
    { intros name Hn. eapply Hall; [|exact Hn]. set_solver. }
    now eexists. }
  destruct Hrun as (config & Hrun). exists config. split; [exact Hrun|].
  intros group names name Hg Hn.
  unfold get_configuration, KEYS_WANTED in *. cbn [read_groups] in Hrun.
  destruct (read_group config_get pathname_in REMOTE _ ∅) as [r|] eqn:Er; [|discriminate].
  destruct (read_group config_get pathname_in LOCAL _ ∅) as [l|] eqn:El; [|discriminate].
  injection Hrun as <-.
  apply elem_of_cons in Hg as [[= -> ->]|Hg].
  - rewrite lookup_insert_ne by discriminate. rewrite lookup_insert_eq.
    cbn [mbind option_bind].
    exact (read_group_values _ _ _ _ _ Er name Hn).
  - apply list_elem_of_singleton in Hg as [= -> ->].
    rewrite lookup_insert_eq. cbn [mbind option_bind].
    exact (read_group_values _ _ _ _ _ El name Hn).
Qed.

(** X3.  When the file holds every wanted key, [get_configuration] returns
    without a trace, and what it returns holds, under each wanted group and
    key, the value the file gives. *)
Theorem get_configuration_returns_file_values (pathname_in : string) (w : world) :
  (∀ group names name, (group, names) ∈ KEYS_WANTED → name ∈ names →
                       is_Some (config_get pathname_in group name)) →
  ∃ config,
    get_configuration config_get pathname_in w = (Ok config, w)
    ∧ ∀ group names name, (group, names) ∈ KEYS_WANTED → name ∈ names →
        config !! group ≫= (.!! name) = config_get pathname_in group name.
Proof. exact (get_configuration_present pathname_in w). Qed.

End ConfigurationB.

(** X2 on a file that does not exist. *)
Lemma copy_check_files_exits_on_missing_key_witness :
  CheckFiles.copy_check_files Sample.config_get Sample.remote Sample.csv_reader
    "20250602-1415" false "absent.ini" Sample.start
  = (Raise SystemExit,
     {| CheckFiles.trace :=
          [] ++ [CheckFiles.EDbConnect "ga_helper";
                 CheckFiles.ELogError "malformed .ini file provided, quitting."];
        CheckFiles.files := ∅ |}).
Proof.
  apply (copy_check_files_exits_on_missing_key Sample.config_get Sample.remote
           Sample.csv_reader "20250602-1415" false "absent.ini" Sample.start
           CheckFiles.REMOTE
           [CheckFiles.HOST; CheckFiles.USER; CheckFiles.KEYNAME; CheckFiles.DIRECTORY;
            CheckFiles.DONE_DIRECTORY] CheckFiles.HOST).
  - unfold CheckFiles.KEYS_WANTED. apply elem_of_cons. now left.
  - apply elem_of_cons. now left.
  - reflexivity.
Defined.

(** X3 on the sample file. *)
Lemma get_configuration_returns_file_values_witness :
  ∃ config,
    CheckFiles.get_configuration Sample.config_get "transfer.ini" Sample.start
    = (Ok config, Sample.start)
    ∧ config !! CheckFiles.REMOTE ≫= (.!! CheckFiles.DONE_DIRECTORY) = Some "/in/old".
Proof.
  destruct (get_configuration_returns_file_values Sample.config_get "transfer.ini"
              Sample.start) as (config & Hrun & Hget).
  - intros group names name Hg Hn. unfold CheckFiles.KEYS_WANTED in Hg.
    repeat (apply elem_of_cons in Hg as [[= -> ->]|Hg];
            [repeat (apply elem_of_cons in Hn as [->|Hn]; [now eexists|]);
             now apply elem_of_nil in Hn|]).
    now apply elem_of_nil in Hg.
  - exists config. split; [exact Hrun|].
    rewrite (Hget CheckFiles.REMOTE
               [CheckFiles.HOST; CheckFiles.USER; CheckFiles.KEYNAME; CheckFiles.DIRECTORY;
                CheckFiles.DONE_DIRECTORY] CheckFiles.DONE_DIRECTORY).
    + reflexivity.
    + unfold CheckFiles.KEYS_WANTED. apply elem_of_cons. now left.
    + rewrite !elem_of_cons. tauto.
Defined.

(** * More on the rewriter: ragged records and what can go wrong *)

Section RaggedRecords.

Import CheckFiles.

Lemma dict_get_set_eq (d : dict) (k : option string) (v : cell) :
  dict_get (dict_set d k v) k = Some v.
Proof.
  induction d as [|[k0 v0] d IH]; cbn.
  - now destruct (key_eqb_spec k k).
  - destruct (key_eqb_spec k0 k) as [->|Hne]; cbn.
    + now destruct (key_eqb_spec k k).
    + now destruct (key_eqb_spec k0 k).
Qed.

Lemma dict_get_set_ne (d : dict) (k k' : option string) (v : cell) :
  k ≠ k' → dict_get (dict_set d k v) k' = dict_get d k'.
Proof.
  intros Hne. induction d as [|[k0 v0] d IH]; cbn.
  - now destruct (key_eqb_spec k k').
  - destruct (key_eqb_spec k0 k) as [->|Hne0]; cbn.
    + destruct (key_eqb_spec k k'); [contradiction | reflexivity].
    + destruct (key_eqb_spec k0 k'); [reflexivity | exact IH].
Qed.

Lemma dict_get_is_some (d : dict) (k : option string) :
  k ∈ dict_keys d → is_Some (dict_get d k).
Proof.
  unfold dict_keys. induction d as [|[k0 v0] d IH]; cbn; intros Hin.
  - now apply elem_of_nil in Hin.
  - destruct (key_eqb_spec k0 k) as [->|Hne]; [now eexists|].
    apply elem_of_cons in Hin as [->|Hin]; [contradiction | now apply IH].
Qed.

Lemma dict_zip_keys :
  ∀ (names fields : list string) (d : dict) (k : option string),
    k ∈ dict_keys (dict_zip names fields d) →
    k ∈ dict_keys d ∨ ∃ n, n ∈ names ∧ k = Some n.
Proof.
  induction names as [|n names IH]; intros fields d k Hin; [now left|].
  destruct fields as [|f fields]; [now left|].
  cbn [dict_zip] in Hin. apply IH in Hin as [Hin|(m & Hm & ->)].
  - apply dict_keys_set in Hin as [->|Hin]; [right; exists n; set_solver | now left].
  - right. exists m. set_solver.
Qed.

Lemma dict_zip_get_none :
  ∀ (names fields : list string) (d : dict),
    dict_get (dict_zip names fields d) None = dict_get d None.
Proof.
  induction names as [|n names IH]; intros fields d; [reflexivity|].
  destruct fields as [|f fields]; [reflexivity|].
  cbn [dict_zip]. rewrite IH. now apply dict_get_set_ne.
Qed.

Lemma fill_restval_keys :
  ∀ (names : list string) (d : dict) (k : option string),
    k ∈ dict_keys (fill_restval names d) →
    k ∈ dict_keys d ∨ ∃ n, n ∈ names ∧ k = Some n.
Proof.
  induction names as [|n names IH]; intros d k Hin; [now left|].
  cbn [fill_restval] in Hin. apply IH in Hin as [Hin|(m & Hm & ->)].
  - apply dict_keys_set in Hin as [->|Hin]; [right; exists n; set_solver | now left].
  - right. exists m. set_solver.
Qed.

Lemma fill_restval_get_any :
  ∀ (names : list string) (d : dict) (n : string),
    dict_get (fill_restval names d) (Some n)
    = if decide (n ∈ names) then Some CNone else dict_get d (Some n).
Proof.
  induction names as [|m names IH]; intros d n.
  - rewrite decide_False; [reflexivity | apply not_elem_of_nil].
  - cbn [fill_restval]. rewrite IH.
    destruct (decide (n ∈ names)) as [Hn|Hn].
    + rewrite decide_True; [reflexivity | set_solver].
    + destruct (decide (n = m)) as [->|Hne].
      * rewrite dict_get_set_eq, decide_True; [reflexivity | set_solver].
      * rewrite dict_get_set_ne by congruence.
        rewrite decide_False; [reflexivity | set_solver].
Qed.

Lemma fill_restval_get (names : list string) (d : dict) (n : string) :
  n ∈ names → dict_get (fill_restval names d) (Some n) = Some CNone.
Proof. intros Hn. rewrite fill_restval_get_any. now rewrite decide_True. Qed.

(** The keys of a row the reader yields: column names, and the rest key
    when the record is longer than the header. *)
Lemma reader_row_keys (fieldnames fields : list string) (k : option string) :
  k ∈ dict_keys (reader_row fieldnames fields) →
  (k = None ∧ (length fieldnames < length fields)%nat)
  ∨ ∃ n, n ∈ fieldnames ∧ k = Some n.
Proof.
  unfold reader_row. intros Hin.
  destruct (Nat.ltb_spec (length fieldnames) (length fields)) as [Hlong|_].
  - apply dict_keys_set in Hin as [->|Hin]; [now left|].
    apply dict_zip_keys in Hin as [Hin|Hin]; [now apply elem_of_nil in Hin | now right].
  - destruct (length fields <? length fieldnames)%nat.
    + apply fill_restval_keys in Hin as [Hin|(n & Hn & ->)].
      * apply dict_zip_keys in Hin as [Hin|Hin];
          [now apply elem_of_nil in Hin | now right].
      * right. exists n. split; [|reflexivity].
        apply list_elem_of_In. apply list_elem_of_In in Hn.
        rewrite <- (take_drop (length fields) fieldnames). apply in_or_app. now right.
    + apply dict_zip_keys in Hin as [Hin|Hin];
        [now apply elem_of_nil in Hin | now right].
Qed.

Lemma reader_row_rest (fieldnames fields : list string) :
  (length fieldnames < length fields)%nat →
  None ∈ dict_keys (reader_row fieldnames fields)
  ∧ dict_get (reader_row fieldnames fields) None
    = Some (CList (drop (length fieldnames) fields)).
Proof.
  intros Hlong. unfold reader_row.
  destruct (Nat.ltb_spec (length fieldnames) (length fields)) as [_|]; [|lia].
  split; [apply dict_keys_set; now left | apply dict_get_set_eq].
Qed.

Lemma reader_row_lacking (fieldnames fields : list string) (n : string) :
  (length fields < length fieldnames)%nat → n ∈ drop (length fields) fieldnames →
  Some n ∈ dict_keys (reader_row fieldnames fields)
  ∧ dict_get (reader_row fieldnames fields) (Some n) = Some CNone.
Proof.
  intros Hshort Hn. unfold reader_row.
  destruct (Nat.ltb_spec (length fieldnames) (length fields)) as [|_]; [lia|].
  destruct (Nat.ltb_spec (length fields) (length fieldnames)) as [_|]; [|lia].
  assert (Hget := fill_restval_get (drop (length fields) fieldnames)
                    (dict_zip fieldnames fields []) n Hn).
  split; [|exact Hget].
  unfold dict_keys.
  remember (fill_restval _ _) as d eqn:Ed. clear Ed.
  induction d as [|[k0 v0] d IH]; cbn in *; [discriminate|].
  destruct (key_eqb_spec k0 (Some n)) as [->|Hne]; [set_solver|].
  apply elem_of_cons. right. now apply IH.
Qed.

(** The loop that builds [row_out] raises nothing but [AttributeError]. *)
Lemma build_row_out_raises (row : dict) :
  ∀ (names : list (option string)) (acc : dict) (e : exn),
    (∀ k, k ∈ names → is_Some (dict_get row k)) →
    build_row_out row names acc = Raise e → e = AttributeError.
Proof.
  induction names as [|name names IH]; intros acc e Hkeys H; [discriminate|].
  cbn [build_row_out] in H.
  destruct (Hkeys name) as [v Hv]; [set_solver|]. rewrite Hv in H.
  assert (Hrest : ∀ k, k ∈ names → is_Some (dict_get row k)) by set_solver.
  destruct (name ≫= mapping_get FIELD_MAPPINGS) as [mapped|].
  - exact (IH _ _ Hrest H).
  - destruct v as [s| |l]; cbn in H; try (now injection H as <-).
    exact (IH _ _ Hrest H).
Qed.

(** When it returns, every key it met that the rename table does not list
    held a string. *)
Lemma build_row_out_ok_values (row : dict) :
  ∀ (names : list (option string)) (acc out : dict),
    build_row_out row names acc = Ok out →
    ∀ k, k ∈ names → k ≫= mapping_get FIELD_MAPPINGS = None →
         ∃ s, dict_get row k = Some (CStr s).
Proof.
  induction names as [|name names IH]; intros acc out H k Hin Hk.
  - now apply elem_of_nil in Hin.
  - cbn [build_row_out] in H.
    destruct (dict_get row name) as [v|] eqn:Ev; [|discriminate].
    apply elem_of_cons in Hin as [->|Hin].
    + rewrite Hk in H. destruct v as [s| |l]; cbn in H; try discriminate.
      now exists s.
    + destruct (name ≫= mapping_get FIELD_MAPPINGS) as [mapped|].
      * exact (IH _ _ H k Hin Hk).
      * destruct (cell_replace_tab v) as [v'|e]; [|discriminate].
        cbn in H. exact (IH _ _ H k Hin Hk).
Qed.

(** [DictWriter] accepts a dictionary whose keys are all field names, and
    makes of it a record as wide as the field names. *)
Lemma dict_to_list_ok (fieldnames : list string) (rowdict : dict) :
  (∀ k, k ∈ dict_keys rowdict → ∃ n, k = Some n ∧ n ∈ fieldnames) →
  ∃ record, dict_to_list fieldnames rowdict = Ok record
            ∧ length record = length fieldnames.
Proof.
  intros Hkeys. unfold dict_to_list.
  assert (Hwrong : List.filter (λ k : option string,
                                  match k with
                                  | Some name => negb (bool_decide (name ∈ fieldnames))
                                  | None => true
                                  end) (dict_keys rowdict) = []).
  { induction (dict_keys rowdict) as [|k ks IH]; [reflexivity|].
    cbn [List.filter]. destruct (Hkeys k) as (n & -> & Hn); [set_solver|].
    rewrite bool_decide_eq_true_2 by exact Hn. cbn. apply IH.
    intros k Hk. apply Hkeys. set_solver. }
  rewrite Hwrong. eexists. split; [reflexivity|]. now rewrite length_map.
Qed.

(** One data record: it is written as a record of the header's width, or
    [AttributeError] is raised. *)
Lemma rewrite_row_outcome (header fields : list string) :
  match build_row_out (reader_row header fields)
          (dict_keys (reader_row header fields)) []
        ≫= dict_to_list (map rename header) with
  | Ok record => length record = length header
  | Raise e => e = AttributeError
  end.
Proof.
  destruct (build_row_out _ _ _) as [row_out|e] eqn:Ebuild; cbn [mbind result_bind].
  - destruct (dict_to_list_ok (map rename header) row_out) as (record & -> & Hlen).
    + intros k Hk. apply (build_row_out_keys _ _ _ _ Ebuild) in Hk as [Hk|(name & Hname & ->)].
      { now apply elem_of_nil in Hk. }
      destruct (reader_row_keys header fields name Hname) as [[-> Hlong]|(n & Hn & ->)].
      * destruct (build_row_out_ok_values _ _ _ _ Ebuild None Hname eq_refl) as (s0 & Hs).
        destruct (reader_row_rest header fields Hlong) as [_ Hrest]. congruence.
      * exists (rename n). split; [reflexivity|].
        apply list_elem_of_In, in_map, list_elem_of_In, Hn.
    + now rewrite Hlen, length_map.
  - apply (build_row_out_raises _ _ _ _ (λ k Hk, dict_get_is_some _ k Hk) Ebuild).
Qed.

(** The row loop on the rows of a reader: what it writes and how it ends. *)
Lemma rewrite_rows_outcome (header : list string) :
  ∀ (records : list (list string)) (count : Z) (i : option Z) (ofh : ostream),
    ∃ written,
      snd (rewrite_rows (map rename header) (map (reader_row header) records) count i ofh)
      = ofh ++ written
      ∧ Forall (λ record : list cell, length record = length header) written
      ∧ (length written ≤ length records)%nat
      ∧ match fst (rewrite_rows (map rename header) (map (reader_row header) records)
                     count i ofh) with
        | Ok _ =>
            Forall (λ fields,
                      is_ok (build_row_out (reader_row header fields)
                               (dict_keys (reader_row header fields)) []) = true) records
        | Raise e => e = AttributeError
        end.
Proof.
  induction records as [|fields records IH]; intros count i ofh.
  - exists []. cbn. rewrite app_nil_r. repeat split; constructor.
  - cbn [map rewrite_rows].
    pose proof (rewrite_row_outcome header fields) as Hrow.
    destruct (build_row_out _ _ _) as [row_out|e] eqn:Ebuild; cbn [mbind result_bind] in Hrow.
    + destruct (dict_to_list (map rename header) row_out) as [record|e].
      * destruct (IH (count + 1) (Some count) (ofh ++ [record]))
          as (written & Hout & Hwide & Hlen & Hend).
        exists (record :: written). split; [now rewrite Hout, <- app_assoc|].
        split; [now constructor|]. split; [cbn; lia|].
        destruct (fst _) as [i'|e]; [|exact Hend].
        constructor; [now rewrite Ebuild | exact Hend].
      * exists []. cbn. rewrite app_nil_r. repeat split; [constructor | lia | exact Hrow].
    + exists []. cbn. rewrite app_nil_r. repeat split; [constructor | lia | exact Hrow].
Qed.

(** X4.  Whatever the input, and whether it returns or raises,
    [rewrite_csv] only appends to the output: first the header, then at
    most one record for each data record, and every record it writes is
    exactly as wide as the header. *)
Theorem rewrite_csv_output_rectangular (header : list string)
    (records : list (list string)) (ofh : ostream) :
  ∃ written,
    snd (rewrite_csv (header :: records) ofh)
    = ofh ++ map CStr (map rename header) :: written
    ∧ Forall (λ record : list cell, length record = length header) written
    ∧ (length written ≤ length records)%nat.
Proof.
  cbn [rewrite_csv]. unfold reader_rows.
  destruct (rewrite_rows_outcome header
              (List.filter (λ fields : list string, negb (bool_decide (fields = []))) records)
              0 None (ofh ++ [map CStr (map rename header)]))
    as (written & Hout & Hwide & Hlen & _).
  exists written. split; [|split; [exact Hwide|]].
  - destruct (rewrite_rows _ _ _ _ _) as [[[n|]|e] ofh2]; cbn [snd] in *;
      now rewrite Hout, <- app_assoc.
  - etransitivity; [exact Hlen|]. apply List.filter_length_le.
Qed.

(** X5.  The ways [rewrite_csv] can end: it returns a positive count; or it
    raises [TypeError], only on a stream without a header; or
    [UnboundLocalError], only when every data record is blank (or there is
    none); or [AttributeError].  It raises nothing else: in particular the
    writer never rejects a row for a key outside its field names. *)
Theorem rewrite_csv_outcomes (ifh : list (list string)) (ofh : ostream) :
  match fst (rewrite_csv ifh ofh) with
  | Ok n => 0 < n
  | Raise e =>
      (e = TypeError ∧ ifh = [])
      ∨ (e = UnboundLocalError
         ∧ ∃ header records, ifh = header :: records ∧ Forall (λ fields, fields = []) records)
      ∨ e = AttributeError
  end.
Proof.
  destruct ifh as [|header records]; [left; now split|].
  cbn [rewrite_csv]. unfold reader_rows.
  set (rows := List.filter (λ fields : list string, negb (bool_decide (fields = []))) records).
  destruct (rewrite_rows_outcome header rows 0 None (ofh ++ [map CStr (map rename header)]))
    as (written & _ & _ & _ & Hend).
  destruct (rewrite_rows_spec (map rename header) (map (reader_row header) rows) 0 None
              (ofh ++ [map CStr (map rename header)])) as (written' & _ & Hres).
  destruct (rewrite_rows _ _ _ _ _) as [[[n|]|e] ofh2]; cbn [fst snd] in *.
  - destruct Hres as [_ Hi]. destruct (map (reader_row header) rows); [discriminate|].
    injection Hi as ->. cbn [length]. lia.
  - right. left. split; [reflexivity|]. exists header, records. split; [reflexivity|].
    destruct Hres as [_ Hi].
    assert (Hrows : rows = []) by (destruct rows; [reflexivity | discriminate]).
    apply Forall_forall. intros fields Hin.
    destruct (decide (fields = [])) as [E|E]; [exact E|]. exfalso.
    assert (Hf : In fields rows).
    { apply filter_In. split; [now apply list_elem_of_In|].
      now rewrite bool_decide_eq_false_2. }
    rewrite Hrows in Hf. contradiction.
  - right. right. exact Hend.
Qed.

(** X6.  A data record with more fields than the header, or a non-blank
    one with fewer fields that lacks a column the rename table does not
    list, makes [rewrite_csv] raise [AttributeError]. *)
Theorem rewrite_csv_ragged_record_raises (header : list string)
    (records : list (list string)) (ofh : ostream) (fields : list string) :
  fields ∈ records →
  (length header < length fields)%nat
  ∨ (fields ≠ [] ∧ (length fields < length header)%nat
     ∧ ∃ n, n ∈ drop (length fields) header ∧ Spec.unmapped n) →
  fst (rewrite_csv (header :: records) ofh) = Raise AttributeError.
Proof.
  intros Hin Hragged.
  assert (Hnonblank : fields ≠ []).
  { destruct Hragged as [Hlong|[H _]]; [|exact H]. intros ->. cbn in Hlong. lia. }
  cbn [rewrite_csv]. unfold reader_rows.
  set (rows := List.filter (λ fields : list string, negb (bool_decide (fields = []))) records).
  assert (Hrow : In fields rows).
  { apply filter_In. split; [now apply list_elem_of_In|].
    now rewrite bool_decide_eq_false_2. }
  destruct (rewrite_rows_outcome header rows 0 None (ofh ++ [map CStr (map rename header)]))
    as (written & _ & _ & _ & Hend).
  destruct (rewrite_rows_spec (map rename header) (map (reader_row header) rows) 0 None
              (ofh ++ [map CStr (map rename header)])) as (written' & _ & Hres).
  assert (Hbad : is_ok (build_row_out (reader_row header fields)
                          (dict_keys (reader_row header fields)) []) = false).
  { destruct (build_row_out _ _ _) as [out|e] eqn:Ebuild; [exfalso | reflexivity].
    destruct Hragged as [Hlong|(_ & Hshort & n & Hn & Hun)].
    - destruct (reader_row_rest header fields Hlong) as [Hkey Hget].
      destruct (build_row_out_ok_values _ _ _ _ Ebuild None Hkey eq_refl) as (s0 & Hs).
      congruence.
    - destruct (reader_row_lacking header fields n Hshort Hn) as [Hkey Hget].
      destruct (build_row_out_ok_values _ _ _ _ Ebuild (Some n) Hkey Hun) as (s0 & Hs).
      congruence. }
  destruct (rewrite_rows _ _ _ _ _) as [[[n|]|e] ofh2]; cbn [fst snd] in *.
  - rewrite Forall_forall in Hend. apply list_elem_of_In, Hend in Hrow. congruence.
  - rewrite Forall_forall in Hend. apply list_elem_of_In, Hend in Hrow. congruence.
  - now rewrite Hend.
Qed.

End RaggedRecords.

(** X6 on a record with one field too many. *)
Lemma rewrite_csv_ragged_record_raises_witness :
  fst (CheckFiles.rewrite_csv [["FCC"; "Notes"]; ["A1"; "first"]; ["B2"; "second"; "extra"]] [])
  = Raise AttributeError.
Proof.
  apply (rewrite_csv_ragged_record_raises ["FCC"; "Notes"]
           [["A1"; "first"]; ["B2"; "second"; "extra"]] [] ["B2"; "second"; "extra"]).
  - rewrite !elem_of_cons. tauto.
  - left. cbn. lia.
Defined.

(** * More on the non-empty-file filter *)

Section FilterMore.

Import CheckFiles.

Variable remote : string → host_output.
Variable debugging : bool.

(** The second loop stops at the first file about which [wc -l] prints
    nothing: [__next__] on the empty output raises [StopIteration]. *)
Lemma keep_non_empty_stops :
  ∀ (temp retval : list FileSpec) (w : world),
    (∃ spec, spec ∈ temp ∧ Spec.wc_line remote spec = None) →
    fst (keep_non_empty remote debugging temp retval w) = Raise StopIteration.
Proof.
  induction temp as [|spec rest IH]; intros retval w (bad & Hin & Hbad).
  - now apply elem_of_nil in Hin.
  - cbn [keep_non_empty]. rewrite bind_eq.
    destruct (logger_debug_eq debugging ("checking for " +:+ remote_path spec) w)
      as (w1 & -> & _ & _).
    rewrite bind_eq, run_command_eq.
    destruct (stdout (remote ("wc -l " +:+ remote_path spec))) as [|line more] eqn:Eout;
      [reflexivity|].
    assert (Hrest : ∃ s, s ∈ rest ∧ Spec.wc_line remote s = None).
    { exists bad. split; [|exact Hbad].
      apply elem_of_cons in Hin as [->|Hin]; [|exact Hin].
      unfold Spec.wc_line in Hbad. rewrite Eout in Hbad. discriminate. }
    destruct (has_records line).
    + rewrite bind_eq.
      destruct (logger_debug_eq debugging
                  ("found " +:+ remote_path spec +:+ " with at least one record")
                  (emit (ERunCommand ("wc -l " +:+ remote_path spec)) w1))
        as (w3 & -> & _ & _).
      now apply IH.
    + rewrite bind_eq, do_event_eq, bind_eq.
      destruct (logger_debug_eq debugging (remote_path spec +:+ " found but empty")
                  (emit (ERecordFoundNotCopied (remote_path spec))
                     (emit (ERunCommand ("wc -l " +:+ remote_path spec)) w1)))
        as (w4 & -> & _ & _).
      now apply IH.
Qed.

(** X7.  When [ls] lists a prospective file about which [wc -l] then
    prints nothing, the filter raises [StopIteration]. *)
Theorem filter_raises_when_wc_is_silent (prospective_files : list FileSpec) (w : world)
    (spec : FileSpec) :
  spec ∈ prospective_files → Spec.listed remote spec →
  Spec.wc_line remote spec = None →
  fst (available_non_empty_files remote debugging prospective_files w)
  = Raise StopIteration.
Proof.
  intros Hin Hl Hwc. unfold available_non_empty_files. rewrite bind_eq.
  destruct (list_present_spec remote debugging prospective_files [] w)
    as (w1 & ev1 & -> & _ & _).
  rewrite app_nil_l. apply keep_non_empty_stops.
  exists spec. split; [|exact Hwc]. apply elem_of_present. now split.
Qed.

(** X8.  When [wc -l] prints a line for every file [ls] lists, the filter
    returns, in the order of the prospective files, every listed file that
    passes the test on its [wc -l] line, once for each line [ls] printed
    about it; it records exactly the listed files that fail the test; and a
    file [ls] does not list is neither returned nor recorded. *)
Theorem filter_result (prospective_files : list FileSpec) (w : world) :
  (∀ s, s ∈ prospective_files → Spec.listed remote s → is_Some (Spec.wc_line remote s)) →
  ∃ w' evs,
    available_non_empty_files remote debugging prospective_files w
    = (Ok (List.filter (Spec.kept remote) (Spec.present remote prospective_files)), w')
    ∧ trace w' = trace w ++ evs
    ∧ (∀ p, ERecordFoundNotCopied p ∈ evs ↔
            ∃ s, s ∈ prospective_files ∧ Spec.listed remote s
                 ∧ Spec.kept remote s = false ∧ p = remote_path s)
    ∧ (∀ s, ¬ Spec.listed remote s →
            (s ∉ List.filter (Spec.kept remote) (Spec.present remote prospective_files))
            ∧ (ERecordFoundNotCopied (remote_path s) ∉ evs)).
Proof.
  intros Hwc.
  destruct (available_non_empty_files_spec remote debugging prospective_files w Hwc)
    as (w' & evs & Hrun & Ht & Hrec).
  exists w', evs. split; [exact Hrun|]. split; [exact Ht|]. split; [exact Hrec|].
  intros s Hs. split.
  - intros Hin. apply list_elem_of_In, filter_In in Hin as [Hin _].
    apply list_elem_of_In, elem_of_present in Hin as [_ Hl]. contradiction.
  - intros Hin. apply Hrec in Hin as (s' & _ & Hl & _ & Hp).
    unfold Spec.listed in *. rewrite Hp in Hs. contradiction.
Qed.

End FilterMore.

(** A host on which [ls] finds the file of [afl] and [wc -l] fails on it. *)
Lemma filter_raises_when_wc_is_silent_witness :
  fst (CheckFiles.available_non_empty_files
         (Sample.answer [("ls /in/cr-afl.csv", Sample.printed ["/in/cr-afl.csv"])])
         false Sample.prospective Sample.start)
  = Raise StopIteration.
Proof.
  apply (filter_raises_when_wc_is_silent
           (Sample.answer [("ls /in/cr-afl.csv", Sample.printed ["/in/cr-afl.csv"])])
           false Sample.prospective Sample.start Sample.afl).
  - unfold Sample.prospective. apply elem_of_cons. now left.
  - discriminate.
  - reflexivity.
Defined.

(** X8 on the sample host: the file of [cope] alone is returned. *)
Lemma filter_result_witness :
  ∃ w',
    CheckFiles.available_non_empty_files Sample.remote false Sample.prospective Sample.start
    = (Ok [Sample.cope], w').
Proof.
  destruct (filter_result Sample.remote false Sample.prospective Sample.start
              sample_wc_lines) as (w' & evs & Hrun & _).
  exists w'. exact Hrun.
Defined.

(** * More on the export: the files of a company and their remote names *)

Section ReportsMore.

Import FiscalYear Spec.

(** X9.  The writer touches no file but the ones it names: any other path
    holds after the report what it held before. *)
Theorem write_report_leaves_other_files (header : row)
    (local_directory company_name type_suffix : string)
    (rows : list row) (k r : nat) (fs : filesystem) (retval debug : list string)
    (path : string) :
  length rows = (k * ROWS_PER_FILE + r)%nat → (r < ROWS_PER_FILE)%nat →
  path ∉ map (report_file local_directory company_name type_suffix)
             (seq 0 (file_count k r)) →
  ∃ st',
    write_report header local_directory company_name type_suffix
      {| pg_cursor := {| pending := rows |}; pg_files := fs; pg_retval := retval;
         pg_debug := debug |}
    = Some (Ok (), st')
    ∧ pg_files st' !! path = fs !! path.
Proof.
  intros Hlen Hr Hpath. unfold write_report, fetchmany.
  cbn [pg_cursor pending pg_files pg_retval pg_debug].
  destruct (write_pages_spec header local_directory company_name type_suffix r Hr
              k rows 0%nat (S (length rows)) fs retval debug Hlen)
    as (fs' & Hrun & _ & Hother).
  { unfold file_count. pose proof ROWS_PER_FILE_pos. destruct (0 <? r)%nat; nia. }
  { lia. }
  eexists. split; [exact Hrun|]. cbn [pg_files]. apply Hother.
  intros j Hj Heq. apply Hpath. rewrite Heq.
  apply list_elem_of_In, in_map, in_seq. lia.
Qed.

(** Every character [str] prints is a digit or the minus sign. *)
Lemma string_of_uint_chars (P : ascii → bool) :
  P "0"%char = true → P "1"%char = true → P "2"%char = true → P "3"%char = true →
  P "4"%char = true → P "5"%char = true → P "6"%char = true → P "7"%char = true →
  P "8"%char = true → P "9"%char = true →
  ∀ d, forallb P (list_ascii_of_string (NilEmpty.string_of_uint d)) = true.
Proof.
  intros H0 H1 H2 H3 H4 H5 H6 H7 H8 H9.
  induction d as [|d IH|d IH|d IH|d IH|d IH|d IH|d IH|d IH|d IH|d IH]; cbn;
    rewrite ?H0, ?H1, ?H2, ?H3, ?H4, ?H5, ?H6, ?H7, ?H8, ?H9, ?IH; reflexivity.
Qed.

Lemma str_chars (P : ascii → bool) (z : Z) :
  P "0"%char = true → P "1"%char = true → P "2"%char = true → P "3"%char = true →
  P "4"%char = true → P "5"%char = true → P "6"%char = true → P "7"%char = true →
  P "8"%char = true → P "9"%char = true → P "-"%char = true →
  forallb P (list_ascii_of_string (Py.str z)) = true.
Proof.
  intros H0 H1 H2 H3 H4 H5 H6 H7 H8 H9 Hm.
  pose proof (string_of_uint_chars P H0 H1 H2 H3 H4 H5 H6 H7 H8 H9) as Hd.
  assert (Hu : ∀ d, forallb P (list_ascii_of_string (NilZero.string_of_uint d)) = true).
  { intros d. destruct d; try apply Hd. cbn. now rewrite H0. }
  unfold Py.str. destruct (Z.to_int z) as [d|d]; cbn [NilZero.string_of_int].
  - apply Hu.
  - cbn. now rewrite Hm, Hu.
Qed.

Lemma has_slash_cons (c : ascii) (s : string) :
  has_slash (String c s) = (Ascii.eqb "/" c || has_slash s)%bool.
Proof. reflexivity. Qed.

Lemma has_slash_append (a b : string) :
  has_slash (a +:+ b) = (has_slash a || has_slash b)%bool.
Proof.
  induction a as [|c a IH]; [reflexivity|].
  rewrite append_cons, !has_slash_cons, IH. now rewrite orb_assoc.
Qed.

Lemma forallb_not_slash (s : string) :
  forallb (λ c, negb (Ascii.eqb "/" c)) (list_ascii_of_string s) = true →
  has_slash s = false.
Proof.
  induction s as [|c s IH]; [reflexivity|].
  cbn [list_ascii_of_string forallb]. intros H. apply andb_prop in H as [Hc Hs].
  apply negb_true_iff in Hc. now rewrite has_slash_cons, Hc, IH.
Qed.

Lemma sequence_suffix_no_slash (i : nat) : has_slash (sequence_suffix_of i) = false.
Proof.
  destruct i as [|j]; [reflexivity|]. cbn [sequence_suffix_of].
  apply forallb_not_slash. now apply str_chars.
Qed.

(** What follows the last slash of a path. *)
Lemma append_nil_r (s : string) : s +:+ "" = s.
Proof. induction s as [|c s IH]; [reflexivity|]. rewrite append_cons. now f_equal. Qed.

Lemma basename_go_no_slash :
  ∀ (s cur : string), has_slash s = false → basename_go s cur = cur +:+ s.
Proof.
  induction s as [|c s IH]; intros cur H.
  - cbn [basename_go]. now rewrite append_nil_r.
  - rewrite has_slash_cons in H. apply orb_false_iff in H as [Hc Hs].
    cbn [basename_go]. rewrite Ascii.eqb_sym, Hc.
    rewrite IH by exact Hs. rewrite append_assoc. reflexivity.
Qed.

Lemma basename_go_after_slash :
  ∀ (a b cur : string), basename_go (a +:+ "/" +:+ b) cur = basename_go b "".
Proof.
  induction a as [|c a IH]; intros b cur.
  - reflexivity.
  - rewrite append_cons. cbn [basename_go]. destruct (Ascii.eqb c "/"); apply IH.
Qed.

Lemma ends_with_slash_split (a : string) :
  Py.ends_with_slash a = true → ∃ a', a = a' +:+ "/".
Proof.
  induction a as [|c a IH]; [discriminate|].
  cbn [Py.ends_with_slash]. destruct a as [|c' a].
  - intros H. apply Ascii.eqb_eq in H as ->. now exists "".
  - intros H. destruct (IH H) as (a' & Ha'). exists (String c a').
    rewrite append_cons. now rewrite <- Ha'.
Qed.

Lemma basename_report_file (local_directory company_name type_suffix : string) (i : nat) :
  has_slash company_name = false → has_slash type_suffix = false →
  basename (report_file local_directory company_name type_suffix i)
  = company_name +:+ type_suffix +:+ sequence_suffix_of i +:+ ".tsv".
Proof.
  intros Hc Ht. unfold basename, report_file.
  set (tail := type_suffix +:+ sequence_suffix_of i +:+ ".tsv").
  assert (Htail : has_slash (company_name +:+ tail) = false).
  { unfold tail. rewrite !has_slash_append, Hc, Ht, sequence_suffix_no_slash. reflexivity. }
  assert (Hstart : Py.starts_with_slash company_name = false).
  { destruct company_name as [|c s]; [reflexivity|]. cbn [Py.starts_with_slash].
    rewrite has_slash_cons in Hc. apply orb_false_iff in Hc as [Hc _].
    now rewrite Ascii.eqb_sym. }
  unfold Py.path_join. rewrite Hstart.
  destruct (String.eqb_spec local_directory "") as [->|Hne]; cbn [orb].
  - rewrite append_nil_l. now rewrite basename_go_no_slash.
  - destruct (Py.ends_with_slash local_directory) eqn:Eend.
    + destruct (ends_with_slash_split _ Eend) as (d & ->).
      rewrite !append_assoc. rewrite basename_go_after_slash.
      now rewrite basename_go_no_slash.
    + rewrite !append_assoc. rewrite basename_go_after_slash.
      now rewrite basename_go_no_slash.
Qed.

Lemma copy_each_events :
  ∀ (pathnames : list string) (w : world),
    copy_each pathnames w
    = Some (Ok (), {| trace := trace w ++ map (λ name, ECopyFile name (basename name)) pathnames;
                      files := files w |}).
Proof.
  induction pathnames as [|name pathnames IH]; intros w.
  - cbn. rewrite app_nil_r. now destruct w.
  - cbn [copy_each]. unfold mbind at 1, prog_bind at 1. unfold do_event at 1.
    rewrite IH. cbn [emit trace files map]. now rewrite <- app_assoc.
Qed.

(** X10.  [copy_files] opens one connection and then sends every file of a
    report under its bare name, [company + suffix + sequence + .tsv],
    whatever the local directory, when neither the company name nor the
    suffix holds a slash; it writes no local file. *)
Theorem copy_files_sends_bare_names (remote_specs : gmap string string)
    (host user keyname local_directory company_name type_suffix : string)
    (n : nat) (w : world) :
  remote_specs !! HOST = Some host → remote_specs !! USER = Some user →
  remote_specs !! KEYNAME = Some keyname →
  has_slash company_name = false → has_slash type_suffix = false →
  copy_files remote_specs
    (map (report_file local_directory company_name type_suffix) (seq 0 n)) w
  = Some (Ok (),
          {| trace := trace w ++ ESshClient host user keyname
                      :: map (λ i, ECopyFile
                                     (report_file local_directory company_name type_suffix i)
                                     (company_name +:+ type_suffix
                                        +:+ sequence_suffix_of i +:+ ".tsv"))
                             (seq 0 n);
             files := files w |}).
Proof.
  intros Hh Hu Hk Hc Ht. unfold copy_files, lookup_key. rewrite Hh, Hu, Hk.
  unfold mbind, prog_bind, lift, do_event. rewrite copy_each_events.
  cbn [emit trace files]. rewrite <- app_assoc. cbn [app].
  rewrite map_map. do 5 f_equal. apply map_ext. intros i.
  now rewrite basename_report_file.
Qed.

End ReportsMore.

(** X9 on a report of three rows: a file of another company stays. *)
Lemma write_report_leaves_other_files_witness :
  ∃ st',
    FiscalYear.write_report ["Date"; "Amount"] "/home/runner/poliops2" "cope" ""
      {| FiscalYear.pg_cursor :=
           {| FiscalYear.pending := repeat ["2014-01-01"; "1.00"] 3 |};
         FiscalYear.pg_files := {["/home/runner/poliops2/wpr.tsv" := [["Date"]]]};
         FiscalYear.pg_retval := []; FiscalYear.pg_debug := [] |}
    = Some (Ok (), st')
    ∧ FiscalYear.pg_files st' !! "/home/runner/poliops2/wpr.tsv" = Some [["Date"]].
Proof.
  destruct (write_report_leaves_other_files ["Date"; "Amount"] "/home/runner/poliops2"
              "cope" "" (repeat ["2014-01-01"; "1.00"] 3) 0 3
              {["/home/runner/poliops2/wpr.tsv" := [["Date"]]]} [] []
              "/home/runner/poliops2/wpr.tsv") as (st' & Hrun & Hfile).
  - reflexivity.
  - apply Nat.ltb_lt. vm_compute. reflexivity.
  - vm_compute. intros H. apply list_elem_of_In in H. cbn in H.
    destruct H as [H|[]]. discriminate H.
  - exists st'. split; [exact Hrun|].
    etransitivity; [exact Hfile | apply lookup_singleton_eq].
Defined.

(** X10 on the three files of the narrow report of [aflcio]. *)
Lemma copy_files_sends_bare_names_witness :
  FiscalYear.copy_files
    (<["keyname" := "id_transfer"]> (<["user" := "poliops"]> {["host" := "trfr.example.org"]}))
    (map (Spec.report_file "/home/runner/poliops2" "aflcio" "_narrow") (seq 0 3))
    {| FiscalYear.trace := []; FiscalYear.files := ∅ |}
  = Some (Ok (),
          {| FiscalYear.trace :=
               [] ++ FiscalYear.ESshClient "trfr.example.org" "poliops" "id_transfer"
               :: map (λ i, FiscalYear.ECopyFile
                              (Spec.report_file "/home/runner/poliops2" "aflcio" "_narrow" i)
                              ("aflcio" +:+ "_narrow" +:+ Spec.sequence_suffix_of i +:+ ".tsv"))
                      (seq 0 3);
             FiscalYear.files := ∅ |}).
Proof.
  apply (copy_files_sends_bare_names
           (<["keyname" := "id_transfer"]>
              (<["user" := "poliops"]> {["host" := "trfr.example.org"]}))
           "trfr.example.org" "poliops" "id_transfer"
           "/home/runner/poliops2" "aflcio" "_narrow" 3
           {| FiscalYear.trace := []; FiscalYear.files := ∅ |});
    vm_compute; reflexivity.
Defined.

(** * More on the timestamp converter: its errors and what it leaves out *)

Section TimestampMore.

Import FiscalYear Spec.

(** X11.  The converter raises [struct.error] exactly on the raw values
    that are not eight bytes long. *)
Theorem datetime_to_string_struct_error (raw_value : list byte) :
  datetime_to_string raw_value = Raise StructError ↔ length raw_value ≠ 8%nat.
Proof.
  split.
  - intros H Hlen.
    do 8 (destruct raw_value as [|? raw_value]; [discriminate Hlen|]).
    destruct raw_value; [|discriminate Hlen].
    unfold datetime_to_string in H. cbn [unpack_2l mbind result_bind] in H.
    destruct (epoch_plus _ _) as [dt|e] eqn:Edt.
    + cbn [mbind result_bind] in H.
      destruct (String.get 4 _) as [c|]; [destruct (Ascii.eqb c "0")|]; discriminate H.
    + cbn [mbind result_bind] in H. unfold epoch_plus in Edt.
      destruct (_ && _); [destruct (ord2ymd _) as [[? ?] ?]|]; congruence.
  - intros Hlen. unfold datetime_to_string.
    do 8 (destruct raw_value as [|? raw_value]; [reflexivity|]).
    destruct raw_value; [contradiction | reflexivity].
Qed.

(** X12.  A raw value whose ticks lie within a day and whose day count
    falls before year 1 or after year 9999 makes the converter raise
    [OverflowError]. *)
Theorem datetime_to_string_overflow (raw_value : list byte) (days_since_1900 partial_day : Z) :
  unpack_2l raw_value = Ok (days_since_1900, partial_day) →
  0 ≤ partial_day < 25920000 →
  days_since_1900 < -693595 ∨ 2958463 < days_since_1900 →
  datetime_to_string raw_value = Raise OverflowError.
Proof.
  intros Hraw Hticks Hdays.
  pose proof (round_ticks_ms_bounds partial_day Hticks) as Hms.
  unfold datetime_to_string. rewrite Hraw. cbn [mbind result_bind].
  unfold epoch_plus, EPOCH_ORDINAL, MAXORDINAL.
  rewrite (Z.div_small _ MS_PER_DAY) by exact Hms.
  destruct ((0 <? 693596 + days_since_1900 + 0)
            && (693596 + days_since_1900 + 0 <=? 3652059)) eqn:E; [lia | reflexivity].
Qed.

(** What the rendering reads of a date and time. *)
Lemma epoch_plus_minutes (days_since_1900 ms1 ms2 : Z) :
  ms1 / 60000 = ms2 / 60000 →
  (dt ← epoch_plus days_since_1900 ms1; Ok (strftime_b_d_Y_I_M_p dt))
  = (dt ← epoch_plus days_since_1900 ms2; Ok (strftime_b_d_Y_I_M_p dt)).
Proof.
  intros Hm. unfold epoch_plus, MS_PER_DAY.
  assert (Hday : ms1 / 86400000 = ms2 / 86400000).
  { change 86400000 with (60000 * 1440).
    rewrite <- !Z.div_div by lia. now rewrite Hm. }
  assert (Hrest : (ms1 mod 86400000) / 60000 = (ms2 mod 86400000) / 60000).
  { assert (Hone : ∀ ms, (ms mod 86400000) / 60000 = (ms / 60000) mod 1440).
    { intros ms. change 86400000 with (60000 * 1440).
      rewrite Z.rem_mul_r by lia.
      rewrite (Z.mul_comm 60000 ((ms / 60000) mod 1440)), Z.div_add by lia.
      rewrite (Z.div_small (ms mod 60000)) by (apply Z.mod_pos_bound; lia).
      reflexivity. }
    now rewrite !Hone, Hm. }
  assert (Hhour : (ms1 mod 86400000) / 3600000 = (ms2 mod 86400000) / 3600000).
  { change 3600000 with (60000 * 60).
    rewrite <- !Z.div_div by lia. now rewrite Hrest. }
  rewrite Hday. destruct (_ && _); [|reflexivity].
  destruct (ord2ymd _) as [[y m] d]. cbn [mbind result_bind].
  unfold strftime_b_d_Y_I_M_p. cbn [year month day hour minute].
  now rewrite Hhour, Hrest.
Qed.

(** X13.  The rendering drops the seconds: two raw values of the same day
    whose ticks fall in the same minute (18000 ticks) are rendered alike;
    the rounding of the ticks never carries into the next minute. *)
Theorem datetime_to_string_same_minute (raw1 raw2 : list byte)
    (days_since_1900 ticks1 ticks2 : Z) :
  unpack_2l raw1 = Ok (days_since_1900, ticks1) →
  unpack_2l raw2 = Ok (days_since_1900, ticks2) →
  ticks1 / 18000 = ticks2 / 18000 →
  datetime_to_string raw1 = datetime_to_string raw2.
Proof.
  intros H1 H2 Hsame. unfold datetime_to_string. rewrite H1, H2.
  cbn [mbind result_bind].
  pose proof (epoch_plus_minutes days_since_1900 (round_ticks_ms ticks1)
                (round_ticks_ms ticks2)) as Heq.
  rewrite !round_ticks_minute in Heq. specialize (Heq Hsame).
  destruct (epoch_plus days_since_1900 (round_ticks_ms ticks1)) as [dt1|e1],
           (epoch_plus days_since_1900 (round_ticks_ms ticks2)) as [dt2|e2];
    cbn [mbind result_bind] in *; try congruence.
  injection Heq as ->. reflexivity.
Qed.

End TimestampMore.

(** X11 on a value of seven bytes. *)
Lemma datetime_to_string_struct_error_witness :
  FiscalYear.datetime_to_string [x00; x00; x00; x00; x00; x00; x00]%byte
  = Raise StructError.
Proof.
  apply (proj2 (datetime_to_string_struct_error [x00; x00; x00; x00; x00; x00; x00]%byte)).
  cbn. lia.
Defined.

(** X12 on the day after 9999-12-31, at midnight. *)
Lemma datetime_to_string_overflow_witness :
  FiscalYear.datetime_to_string [x80; x24; x2d; x00; x00; x00; x00; x00]%byte
  = Raise OverflowError.
Proof.
  apply (datetime_to_string_overflow [x80; x24; x2d; x00; x00; x00; x00; x00]%byte
           2958464 0).
  - vm_compute. reflexivity.
  - lia.
  - lia.
Defined.

(** X13 at nine o'clock sharp and one tick before a minute past nine. *)
Lemma datetime_to_string_same_minute_witness :
  FiscalYear.datetime_to_string [xcf; x4f; xff; xff; xc0; x50; x94; x00]%byte
  = FiscalYear.datetime_to_string [xcf; x4f; xff; xff; x0f; x97; x94; x00]%byte.
Proof.
  apply (datetime_to_string_same_minute
           [xcf; x4f; xff; xff; xc0; x50; x94; x00]%byte
           [xcf; x4f; xff; xff; x0f; x97; x94; x00]%byte (-45105) 9720000 9737999);
    vm_compute; reflexivity.
Defined.

(** * The two reports of a company *)

Section CompanyReports.

Import FiscalYear Spec.

Variable execute : string → list string → list string * list row.

(** The files of the plain report and those of the narrow report never
    share a name. *)
Lemma report_file_plain_vs_narrow (local_directory company_name : string) (i j : nat) :
  report_file local_directory company_name "" i
  ≠ report_file local_directory company_name "_narrow" j.
Proof.
  unfold report_file. intros H. apply String.app_inj in H.
  rewrite append_nil_l in H. apply (f_equal (String.get 0)) in H.
  change (String.get 0 ("_narrow" +:+ sequence_suffix_of j +:+ ".tsv"))
    with (Some "_"%char) in H.
  destruct i as [|i]; [discriminate H|]. cbn [sequence_suffix_of] in H.
  pose proof (str_chars (λ c, negb (Ascii.eqb c "_")) (Z.of_nat i + 2)
                eq_refl eq_refl eq_refl eq_refl eq_refl eq_refl eq_refl eq_refl
                eq_refl eq_refl eq_refl) as Hchars.
  pose proof (str_nonempty (Z.of_nat i + 2)) as Hne.
  destruct (Py.str (Z.of_nat i + 2)) as [|c s]; [contradiction|].
  rewrite append_cons in H. cbn [String.get] in H. injection H as ->.
  cbn in Hchars. discriminate Hchars.
Qed.

(** One turn of the loop over [REPORTS]: the query, then the debug record
    of the exhausted cursor when the query returned any row. *)
Lemma create_report_spec (debugging : bool) (local_directory company_name : string)
    (company_spec : CompanySpec) (report_spec : ReportSpec) (retval : list string)
    (w : world) (header : row) (rows : list row) (k r : nat) :
  execute (make_query_text company_spec report_spec)
          [date_from company_spec +:+ " 00:00:00.000"] = (header, rows) →
  length rows = (k * ROWS_PER_FILE + r)%nat → (r < ROWS_PER_FILE)%nat →
  ∃ fs',
    create_report execute debugging local_directory company_name company_spec report_spec
      retval w
    = Some (Ok (retval ++ map (report_file local_directory company_name (suffix report_spec))
                              (seq 0 (file_count k r))),
            {| trace := trace w
                        ++ [EExecute (make_query_text company_spec report_spec)
                                     [date_from company_spec +:+ " 00:00:00.000"]]
                        ++ debug_records debugging
                             (exhausted_records company_name 0 (file_count k r));
               files := fs' |})
    ∧ (∀ j, (j < file_count k r)%nat →
            fs' !! report_file local_directory company_name (suffix report_spec) j
            = Some (header :: page rows j))
    ∧ (∀ p, (∀ j, (j < file_count k r)%nat →
                  p ≠ report_file local_directory company_name (suffix report_spec) j) →
            fs' !! p = files w !! p).
Proof.
  intros Hexec Hlen Hr. unfold create_report. rewrite Hexec.
  unfold write_report, fetchmany.
  cbn [pg_cursor pending pg_files pg_retval pg_debug emit files trace].
  destruct (write_pages_spec header local_directory company_name (suffix report_spec) r Hr
              k rows 0%nat (S (length rows)) (files w) retval [] Hlen)
    as (fs' & Hrun & Hfiles & Hother).
  { unfold file_count. pose proof ROWS_PER_FILE_pos. destruct (0 <? r)%nat; nia. }
  { lia. }
  change (sequence_suffix_of 0) with "" in Hrun.
  exists fs'. rewrite Hrun. cbn [pg_files pg_retval pg_debug].
  rewrite app_nil_l, <- app_assoc.
  split; [reflexivity|]. split; [exact Hfiles | exact Hother].
Qed.

(** X14.  [create_reports] for one company: it runs the two queries in the
    order of [REPORTS], each followed, on a debugging run, by the debug
    record of the exhausted cursor when the query returned any row, and it
    returns the names of the files of the plain report followed by those of
    the narrow report, all different; after both reports the files of each
    still start with that report's header and hold, page after page, the
    rows of its query: the second report overwrites no file of the first. *)
Theorem create_reports_files (debugging : bool) (local_directory company_name : string)
    (company_spec : CompanySpec) (w : world)
    (header1 header2 : row) (rows1 rows2 : list row) (k1 r1 k2 r2 : nat) :
  let params := [date_from company_spec +:+ " 00:00:00.000"] in
  let query1 := make_query_text company_spec
                  {| table_name := "Poliops_MDA_View"; suffix := "";
                     has_mda_columns := true |} in
  let query2 := make_query_text company_spec
                  {| table_name := "S2_GL20_Poliops_exp"; suffix := "_narrow";
                     has_mda_columns := false |} in
  let names1 := map (report_file local_directory company_name "")
                    (seq 0 (file_count k1 r1)) in
  let names2 := map (report_file local_directory company_name "_narrow")
                    (seq 0 (file_count k2 r2)) in
  execute query1 params = (header1, rows1) →
  execute query2 params = (header2, rows2) →
  length rows1 = (k1 * ROWS_PER_FILE + r1)%nat → (r1 < ROWS_PER_FILE)%nat →
  length rows2 = (k2 * ROWS_PER_FILE + r2)%nat → (r2 < ROWS_PER_FILE)%nat →
  ∃ w',
    create_reports execute debugging local_directory company_name company_spec w
    = Some (Ok (names1 ++ names2), w')
    ∧ trace w' = trace w
                 ++ [EExecute query1 params]
                 ++ debug_records debugging
                      (exhausted_records company_name 0 (file_count k1 r1))
                 ++ [EExecute query2 params]
                 ++ debug_records debugging
                      (exhausted_records company_name 0 (file_count k2 r2))
    ∧ NoDup (names1 ++ names2)
    ∧ Forall (λ path, file_header (files w') path = Some header1) names1
    ∧ concat (map (file_body (files w')) names1) = rows1
    ∧ Forall (λ path, file_header (files w') path = Some header2) names2
    ∧ concat (map (file_body (files w')) names2) = rows2.
Proof.
  intros params query1 query2 names1 names2 Hq1 Hq2 Hlen1 Hr1 Hlen2 Hr2.
  unfold create_reports, REPORTS. cbn [create_reports_from].
  unfold mbind at 1, prog_bind at 1.
  destruct (create_report_spec debugging local_directory company_name company_spec
              {| table_name := "Poliops_MDA_View"; suffix := ""; has_mda_columns := true |}
              [] w header1 rows1 k1 r1 Hq1 Hlen1 Hr1) as (fs1 & -> & Hfiles1 & _).
  rewrite app_nil_l. cbn [suffix] in *.
  unfold mbind at 1, prog_bind at 1.
  destruct (create_report_spec debugging local_directory company_name company_spec
              {| table_name := "S2_GL20_Poliops_exp"; suffix := "_narrow";
                 has_mda_columns := false |}
              names1
              {| trace := trace w ++ [EExecute query1 params]
                          ++ debug_records debugging
                               (exhausted_records company_name 0 (file_count k1 r1));
                 files := fs1 |}
              header2 rows2 k2 r2 Hq2 Hlen2 Hr2) as (fs2 & Hrun2 & Hfiles2 & Hother2).
  cbn [suffix trace files] in *. fold query1 query2 params names1 in Hrun2 |- *.
  rewrite Hrun2. eexists. split; [reflexivity|]. cbn [trace files].
  assert (Hkeep : ∀ j, (j < file_count k1 r1)%nat →
            fs2 !! report_file local_directory company_name "" j
            = Some (header1 :: page rows1 j)).
  { intros j Hj. rewrite Hother2; [now apply Hfiles1|].
    intros j' _ Heq. exact (report_file_plain_vs_narrow _ _ _ _ Heq). }
  split; [now rewrite <- !app_assoc|]. split; [|split; [|split; [|split]]].
  - apply NoDup_app. split; [|split].
    + apply NoDup_fmap_2; [|apply NoDup_seq]. intros i j. apply report_file_inj.
    + intros path H1 H2.
      apply list_elem_of_In, in_map_iff in H1 as (i & <- & _).
      apply list_elem_of_In, in_map_iff in H2 as (j & Heq & _).
      symmetry in Heq. exact (report_file_plain_vs_narrow _ _ _ _ Heq).
    + apply NoDup_fmap_2; [|apply NoDup_seq]. intros i j. apply report_file_inj.
  - apply Forall_forall. intros path Hin.
    apply list_elem_of_In, in_map_iff in Hin as (j & <- & Hj). apply in_seq in Hj.
    unfold file_header. rewrite Hkeep by lia. reflexivity.
  - unfold names1. rewrite map_map.
    etransitivity; [|exact (concat_pages r1 Hr1 k1 rows1 Hlen1)].
    f_equal. apply map_ext_in. intros j Hj. apply in_seq in Hj.
    unfold file_body. rewrite Hkeep by lia. reflexivity.
  - apply Forall_forall. intros path Hin.
    apply list_elem_of_In, in_map_iff in Hin as (j & <- & Hj). apply in_seq in Hj.
    unfold file_header. rewrite Hfiles2 by lia. reflexivity.
  - unfold names2. rewrite map_map.
    etransitivity; [|exact (concat_pages r2 Hr2 k2 rows2 Hlen2)].
    f_equal. apply map_ext_in. intros j Hj. apply in_seq in Hj.
    unfold file_body. rewrite Hfiles2 by lia. reflexivity.
Qed.

End CompanyReports.

(** X14 for [cope], debugging, on a database that returns two rows to each
    query: each query is followed by one debug record, which names the
    empty suffix of the only file. *)
Lemma create_reports_files_witness :
  ∃ w',
    FiscalYear.create_reports Sample.execute_two true "/home/runner/poliops2" "cope"
      {| FiscalYear.dbname := "PAC"; FiscalYear.date_from := "2014-01-01";
         FiscalYear.mda_columns := None |}
      {| FiscalYear.trace := []; FiscalYear.files := ∅ |}
    = Some (Ok ["/home/runner/poliops2/cope.tsv"; "/home/runner/poliops2/cope_narrow.tsv"],
            w')
    ∧ List.filter (λ e, match e with FiscalYear.ELogDebug _ => true | _ => false end)
        (FiscalYear.trace w')
      = [FiscalYear.ELogDebug (FiscalYear.exhausted_text "cope" EmptyString);
         FiscalYear.ELogDebug (FiscalYear.exhausted_text "cope" EmptyString)].
Proof.
  destruct (create_reports_files Sample.execute_two true "/home/runner/poliops2" "cope"
              {| FiscalYear.dbname := "PAC"; FiscalYear.date_from := "2014-01-01";
                 FiscalYear.mda_columns := None |}
              {| FiscalYear.trace := []; FiscalYear.files := ∅ |}
              ["Date"; "Amount"] ["Date"; "Amount"]
              [["2017-01-01"; "1.00"]; ["2017-01-02"; "2.00"]]
              [["2017-01-01"; "1.00"]; ["2017-01-02"; "2.00"]] 0 2 0 2)
    as (w' & Hrun & Htrace & _).
  - reflexivity.
  - reflexivity.
  - reflexivity.
  - apply Nat.ltb_lt. vm_compute. reflexivity.
  - reflexivity.
  - apply Nat.ltb_lt. vm_compute. reflexivity.
  - exists w'. split; [exact Hrun|]. rewrite Htrace. reflexivity.
Defined.

(** * The copy phase of the transfer *)

Section CopyPhase.

Import CheckFiles.

Variable remote : string → host_output.
Variable csv_reader : list string → list (list string).

Local Abbreviation rewritten := (Spec.rewritten remote csv_reader).
Local Abbreviation copy_events := (Spec.copy_events remote csv_reader).

(** One turn of the loop of [copy_files_to_host]: the local file holds what
    the rewrite wrote, whether it returned or raised. *)
Lemma copy_file_to_host_eq (spec : FileSpec) (w : world) :
  copy_file_to_host remote csv_reader spec w
  = (match fst (rewritten spec) with
     | Ok _ => Ok ()
     | Raise e => Raise e
     end,
     {| trace := trace w ++ copy_events spec;
        files := <[local_path spec := snd (rewritten spec)]> (files w) |}).
Proof.
  unfold copy_file_to_host, Spec.copy_events, Spec.rewritten.
  rewrite run_command_eq.
  destruct (rewrite_csv _ _) as [[records|e] ofh]; cbn [fst snd];
    unfold do_event, emit, set_file; cbn [trace files];
    rewrite insert_insert_eq, <- ?app_assoc; reflexivity.
Qed.

Lemma for_each_copy_ok :
  ∀ (specs : list FileSpec) (w : world),
    (∀ spec, spec ∈ specs → is_ok (fst (rewritten spec)) = true) →
    NoDup (map local_path specs) →
    ∃ w',
      for_each specs (copy_file_to_host remote csv_reader) w = (Ok (), w')
      ∧ trace w' = trace w ++ flat_map copy_events specs
      ∧ (∀ spec, spec ∈ specs → files w' !! local_path spec = Some (snd (rewritten spec)))
      ∧ (∀ p, p ∉ map local_path specs → files w' !! p = files w !! p).
Proof.
  induction specs as [|spec specs IH]; intros w Hok Hnd.
  - exists w. split; [reflexivity|]. split; [cbn; now rewrite app_nil_r|].
    split; [|reflexivity]. intros spec H. now apply elem_of_nil in H.
  - cbn [for_each]. rewrite bind_eq, copy_file_to_host_eq.
    pose proof (Hok spec ltac:(set_solver)) as Hspec.
    destruct (fst (rewritten spec)) as [n|e] eqn:Er; [|discriminate Hspec].
    cbn [map] in Hnd. apply NoDup_cons in Hnd as [Hfresh Hnd].
    destruct (IH {| trace := trace w ++ copy_events spec;
                    files := <[local_path spec := snd (rewritten spec)]> (files w) |})
      as (w' & Hrun & Ht & Hfiles & Hother); [set_solver | exact Hnd |].
    exists w'. split; [exact Hrun|]. cbn [trace files] in *. split; [|split].
    + rewrite Ht. cbn [flat_map]. now rewrite <- app_assoc.
    + intros s Hs. apply elem_of_cons in Hs as [->|Hs]; [|now apply Hfiles].
      rewrite Hother by exact Hfresh. apply lookup_insert_eq.
    + intros p Hp. cbn [map] in Hp. apply not_elem_of_cons in Hp as [Hne Hp].
      rewrite Hother by exact Hp. now apply lookup_insert_ne.
Qed.

(** X15.  When the rewrite of every wanted file returns and the local
    paths are pairwise different, [copy_files_to_host] returns the files it
    was given; for each, in order, it has run one [cat] and recorded one
    copy with the count the rewrite returned; each local file holds exactly
    what the rewrite wrote; and no other file has changed. *)
Theorem copy_files_to_host_completes (file_specs : list FileSpec) (w : world) :
  (∀ spec, spec ∈ file_specs → is_ok (fst (rewritten spec)) = true) →
  NoDup (map local_path file_specs) →
  ∃ w',
    copy_files_to_host remote csv_reader file_specs w = (Ok file_specs, w')
    ∧ trace w' = trace w ++ flat_map copy_events file_specs
    ∧ (∀ spec, spec ∈ file_specs →
               files w' !! local_path spec = Some (snd (rewritten spec)))
    ∧ (∀ p, p ∉ map local_path file_specs → files w' !! p = files w !! p).
Proof.
  intros Hok Hnd.
  destruct (for_each_copy_ok file_specs w Hok Hnd) as (w' & Hrun & Hrest).
  exists w'. split; [|exact Hrest].
  unfold copy_files_to_host. rewrite bind_eq, Hrun. reflexivity.
Qed.

Lemma for_each_copy_fails (rest : list FileSpec) (bad : FileSpec) (e : exn) :
  fst (rewritten bad) = Raise e →
  ∀ (good : list FileSpec) (w : world),
    (∀ spec, spec ∈ good → is_ok (fst (rewritten spec)) = true) →
    NoDup (map local_path (good ++ [bad])) →
    ∃ w',
      for_each (good ++ bad :: rest) (copy_file_to_host remote csv_reader) w = (Raise e, w')
      ∧ trace w' = trace w ++ flat_map copy_events good
                   ++ [ERunCommand ("cat " +:+ remote_path bad)]
      ∧ (∀ spec, spec ∈ good → files w' !! local_path spec = Some (snd (rewritten spec)))
      ∧ files w' !! local_path bad = Some (snd (rewritten bad))
      ∧ (∀ p, p ∉ map local_path (good ++ [bad]) → files w' !! p = files w !! p).
Proof.
  intros Hbad. induction good as [|spec good IH]; intros w Hok Hnd.
  - cbn [app for_each flat_map]. rewrite bind_eq, copy_file_to_host_eq, Hbad.
    eexists. split; [reflexivity|]. cbn [trace files]. split; [|split; [|split]].
    + unfold Spec.copy_events. now rewrite Hbad.
    + intros spec H. now apply elem_of_nil in H.
    + apply lookup_insert_eq.
    + intros p Hp. cbn in Hp. apply not_elem_of_cons in Hp as [Hne _].
      now apply lookup_insert_ne.
  - cbn [app for_each]. rewrite bind_eq, copy_file_to_host_eq.
    pose proof (Hok spec ltac:(set_solver)) as Hspec.
    destruct (fst (rewritten spec)) as [n|e'] eqn:Er; [|discriminate Hspec].
    cbn [app map] in Hnd. apply NoDup_cons in Hnd as [Hfresh Hnd].
    destruct (IH {| trace := trace w ++ copy_events spec;
                    files := <[local_path spec := snd (rewritten spec)]> (files w) |})
      as (w' & Hrun & Ht & Hfiles & Hbadfile & Hother); [set_solver | exact Hnd |].
    exists w'. split; [exact Hrun|]. cbn [trace files] in *. split; [|split; [|split]].
    + rewrite Ht. cbn [flat_map]. now rewrite <- !app_assoc.
    + intros s Hs. apply elem_of_cons in Hs as [->|Hs]; [|now apply Hfiles].
      rewrite Hother by exact Hfresh. apply lookup_insert_eq.
    + exact Hbadfile.
    + intros p Hp. cbn [app map] in Hp. apply not_elem_of_cons in Hp as [Hne Hp].
      rewrite Hother by exact Hp. now apply lookup_insert_ne.
Qed.

(** X16.  The copy is not undone when it fails: when the rewrite of a file
    raises after those of the files before it returned, [copy_files_to_host]
    raises the same exception; the files before it stay written and
    recorded, the failing file is left with what the rewrite had written,
    with no audit record, and the files after it are not even read. *)
Theorem copy_files_to_host_stops_at_failure (good rest : list FileSpec) (bad : FileSpec)
    (e : exn) (w : world) :
  (∀ spec, spec ∈ good → is_ok (fst (rewritten spec)) = true) →
  fst (rewritten bad) = Raise e →
  NoDup (map local_path (good ++ [bad])) →
  ∃ w',
    copy_files_to_host remote csv_reader (good ++ bad :: rest) w = (Raise e, w')
    ∧ trace w' = trace w ++ flat_map copy_events good
                 ++ [ERunCommand ("cat " +:+ remote_path bad)]
    ∧ (∀ spec, spec ∈ good → files w' !! local_path spec = Some (snd (rewritten spec)))
    ∧ files w' !! local_path bad = Some (snd (rewritten bad))
    ∧ (∀ p, p ∉ map local_path (good ++ [bad]) → files w' !! p = files w !! p).
Proof.
  intros Hok Hbad Hnd.
  destruct (for_each_copy_fails rest bad e Hbad good w Hok Hnd) as (w' & Hrun & Hrest).
  exists w'. split; [|exact Hrest].
  unfold copy_files_to_host. rewrite bind_eq, Hrun. reflexivity.
Qed.

(** X17.  [copy_files_to_share], when every local file exists, the share
    paths are pairwise different and none of them is a local path: it adds
    nothing to the trace, each share file holds what the local file holds,
    and no other file changes. *)
Theorem copy_files_to_share_copies (specs : list FileSpec) (w : world) :
  (∀ spec, spec ∈ specs → is_Some (files w !! local_path spec)) →
  NoDup (map share_path specs) →
  (∀ s s', s ∈ specs → s' ∈ specs → share_path s ≠ local_path s') →
  ∃ w',
    copy_files_to_share specs w = (Ok (), w')
    ∧ trace w' = trace w
    ∧ (∀ spec, spec ∈ specs → files w' !! share_path spec = files w !! local_path spec)
    ∧ (∀ p, p ∉ map share_path specs → files w' !! p = files w !! p).
Proof.
  unfold copy_files_to_share. revert w.
  induction specs as [|spec specs IH]; intros w Hex Hnd Hdisj.
  - exists w. split; [reflexivity|]. split; [reflexivity|].
    split; [|reflexivity]. intros spec H. now apply elem_of_nil in H.
  - cbn [for_each]. rewrite bind_eq. unfold copyfile at 1.
    destruct (Hex spec ltac:(set_solver)) as [content Hcontent].
    rewrite Hcontent. cbn [default from_option id].
    cbn [map] in Hnd. apply NoDup_cons in Hnd as [Hfresh Hnd].
    destruct (IH (set_file (share_path spec) content w))
      as (w' & Hrun & Ht & Hfiles & Hother).
    { intros s Hs. unfold set_file. cbn [files].
      rewrite lookup_insert_ne by (apply Hdisj; set_solver). apply Hex. set_solver. }
    { exact Hnd. }
    { intros s s' Hs Hs'. apply Hdisj; set_solver. }
    exists w'. split; [exact Hrun|]. unfold set_file in *. cbn [trace files] in *.
    split; [exact Ht|]. split.
    + intros s Hs. apply elem_of_cons in Hs as [->|Hs].
      * rewrite Hother by exact Hfresh. now rewrite lookup_insert_eq.
      * rewrite Hfiles by exact Hs. apply lookup_insert_ne. apply Hdisj; set_solver.
    + intros p Hp. cbn [map] in Hp. apply not_elem_of_cons in Hp as [Hne Hp].
      rewrite Hother by exact Hp. now apply lookup_insert_ne.
Qed.

End CopyPhase.

(** X15 on the sample host: the file of [cope]. *)
Lemma copy_files_to_host_completes_witness :
  ∃ w',
    CheckFiles.copy_files_to_host Sample.remote Sample.csv_reader [Sample.cope] Sample.start
    = (Ok [Sample.cope], w')
    ∧ CheckFiles.files w' !! CheckFiles.local_path Sample.cope
      = Some [[CheckFiles.CStr "LM2"; CheckFiles.CStr "Amount"];
              [CheckFiles.CStr "A1"; CheckFiles.CStr "25.00"];
              [CheckFiles.CStr "B2"; CheckFiles.CStr "7.50"]].
Proof.
  destruct (copy_files_to_host_completes Sample.remote Sample.csv_reader [Sample.cope]
              Sample.start) as (w' & Hrun & _ & Hfiles & _).
  - intros spec Hs. apply list_elem_of_singleton in Hs as ->. reflexivity.
  - repeat constructor. apply not_elem_of_nil.
  - exists w'. split; [exact Hrun|].
    etransitivity; [apply Hfiles, list_elem_of_singleton; reflexivity|]. reflexivity.
Defined.

(** X16 on the host with the unterminated file of [wpr]: [cope] is copied,
    then the copy of [wpr] raises. *)
Lemma copy_files_to_host_stops_at_failure_witness :
  ∃ w',
    CheckFiles.copy_files_to_host Sample.remote_unterminated Sample.csv_reader
      ([Sample.cope] ++ Sample.wpr :: []) Sample.start
    = (Raise UnboundLocalError, w')
    ∧ CheckFiles.files w' !! CheckFiles.local_path Sample.wpr
      = Some [[CheckFiles.CStr "LM2"; CheckFiles.CStr "Amount"]].
Proof.
  destruct (copy_files_to_host_stops_at_failure Sample.remote_unterminated Sample.csv_reader
              [Sample.cope] [] Sample.wpr UnboundLocalError Sample.start)
    as (w' & Hrun & _ & _ & Hbad & _).
  - intros spec Hs. apply list_elem_of_singleton in Hs as ->. reflexivity.
  - reflexivity.
  - apply (bool_decide_unpack _). vm_compute. exact I.
  - exists w'. split; [exact Hrun|]. etransitivity; [exact Hbad | reflexivity].
Defined.

(** X17 on a staged file of [cope]. *)
Lemma copy_files_to_share_copies_witness :
  ∃ w',
    CheckFiles.copy_files_to_share [Sample.cope]
      {| CheckFiles.trace := [];
         CheckFiles.files := {[CheckFiles.local_path Sample.cope := [[CheckFiles.CStr "LM2"]]]} |}
    = (Ok (), w')
    ∧ CheckFiles.files w' !! CheckFiles.share_path Sample.cope
      = Some [[CheckFiles.CStr "LM2"]].
Proof.
  destruct (copy_files_to_share_copies [Sample.cope]
              {| CheckFiles.trace := [];
                 CheckFiles.files :=
                   {[CheckFiles.local_path Sample.cope := [[CheckFiles.CStr "LM2"]]]} |})
    as (w' & Hrun & _ & Hfiles & _).
  - intros spec Hs. apply list_elem_of_singleton in Hs as ->.
    cbn [CheckFiles.files]. rewrite lookup_singleton_eq. now eexists.
  - repeat constructor. apply not_elem_of_nil.
  - intros s s' Hs Hs'. apply list_elem_of_singleton in Hs as ->.
    apply list_elem_of_singleton in Hs' as ->. discriminate.
  - exists w'. split; [exact Hrun|].
    etransitivity; [apply Hfiles, list_elem_of_singleton; reflexivity|].
    apply lookup_singleton_eq.
Defined.

(** * A run on which no file is waiting *)

Section NothingWaiting.

Import CheckFiles.

Variable config_get : string → string → string → option string.
Variable remote : string → host_output.
Variable csv_reader : list string → list (list string).
Variable today : string.
Variable debugging : bool.

Lemma logger_debug_unformattable_world (text : string) (w : world) :
  logger_debug_unformattable debugging text w
  = (Ok (), {| trace := trace w ++ Spec.debug_events debugging (ELogFormatFailure text);
               files := files w |}).
Proof.
  unfold logger_debug_unformattable, Spec.debug_events. destruct debugging.
  - reflexivity.
  - cbn. now rewrite app_nil_r, world_eta.
Qed.

(** The first loop of the filter, in full. *)
Lemma list_present_trace :
  ∀ (prospective_files temp : list FileSpec) (w : world),
    list_present remote debugging prospective_files temp w
    = (Ok (temp ++ Spec.present remote prospective_files),
       {| trace := trace w ++ flat_map (Spec.ls_events debugging) prospective_files;
          files := files w |}).
Proof.
  induction prospective_files as [|spec rest IH]; intros temp w.
  - cbn. now rewrite !app_nil_r, world_eta.
  - cbn [list_present]. rewrite bind_eq, logger_debug_unformattable_world.
    rewrite bind_eq, run_command_eq, IH. cbn [emit trace files flat_map Spec.present].
    unfold Spec.ls_events at 2. rewrite <- !app_assoc. reflexivity.
Qed.

Lemma present_nothing (prospective_files : list FileSpec) :
  (∀ spec, spec ∈ prospective_files → stdout (remote ("ls " +:+ remote_path spec)) = []) →
  Spec.present remote prospective_files = [].
Proof.
  induction prospective_files as [|spec rest IH]; intros H; [reflexivity|].
  unfold Spec.present. cbn [flat_map]. rewrite (H spec) by set_solver.
  apply IH. intros s Hs. apply H. set_solver.
Qed.

Lemma config_item_eq (specs : gmap string (gmap string string)) (group name v : string)
    (w : world) :
  specs !! group ≫= (.!! name) = Some v → config_item specs group name w = (Ok v, w).
Proof. intros H. unfold config_item. now rewrite H. Qed.

(** X18.  A run on which [ls] finds none of the three files: with a
    complete configuration file it returns normally, and all it has done is
    connect to the audit database and to the host, look for each file, and
    then still try to move each file aside (warning about every command
    that fails); it records nothing and writes no file. *)
Theorem run_with_nothing_waiting (config_path : string) (w : world)
    (host user keyname remote_directory done_directory temp_directory
       share_directory : string) :
  config_get config_path REMOTE HOST = Some host →
  config_get config_path REMOTE USER = Some user →
  config_get config_path REMOTE KEYNAME = Some keyname →
  config_get config_path REMOTE DIRECTORY = Some remote_directory →
  config_get config_path REMOTE DONE_DIRECTORY = Some done_directory →
  config_get config_path LOCAL TEMP_DIRECTORY = Some temp_directory →
  config_get config_path LOCAL DESTINATION_DIRECTORY = Some share_directory →
  let prospective :=
    map (Spec.file_spec_of today remote_directory temp_directory share_directory
           done_directory) COMPANIES in
  (∀ spec, spec ∈ prospective → stdout (remote ("ls " +:+ remote_path spec)) = []) →
  copy_check_files config_get remote csv_reader today debugging config_path w
  = (Ok (),
     {| trace := trace w ++ [EDbConnect "ga_helper"; ESshClient host user keyname]
                 ++ flat_map (Spec.ls_events debugging) prospective
                 ++ flat_map (Spec.move_events remote) prospective;
        files := files w |}).
Proof.
  intros Hhost Huser Hkey Hrd Hdd Htd Hsd prospective Hls.
  destruct (get_configuration_present config_get config_path
              (emit (EDbConnect "ga_helper") w)) as (config & Hconfig & Hget).
  { intros group names name Hg Hn. unfold KEYS_WANTED in Hg.
    apply elem_of_cons in Hg as [[= -> ->]|Hg].
    - rewrite !elem_of_cons, elem_of_nil in Hn.
      destruct Hn as [->|[->|[->|[->|[->|[]]]]]]; eexists; eassumption.
    - apply list_elem_of_singleton in Hg as [= -> ->].
      rewrite !elem_of_cons, elem_of_nil in Hn.
      destruct Hn as [->|[->|[]]]; eexists; eassumption. }
  assert (Hremote : ∀ name v, name ∈ [HOST; USER; KEYNAME; DIRECTORY; DONE_DIRECTORY] →
                              config_get config_path REMOTE name = Some v →
                              config !! REMOTE ≫= (.!! name) = Some v).
  { intros name v Hn Hv. rewrite <- Hv. eapply (Hget REMOTE); [|exact Hn].
    unfold KEYS_WANTED. apply elem_of_cons. now left. }
  assert (Hlocal : ∀ name v, name ∈ [TEMP_DIRECTORY; DESTINATION_DIRECTORY] →
                             config_get config_path LOCAL name = Some v →
                             config !! LOCAL ≫= (.!! name) = Some v).
  { intros name v Hn Hv. rewrite <- Hv. eapply (Hget LOCAL); [|exact Hn].
    unfold KEYS_WANTED. apply elem_of_cons. right. apply elem_of_cons. now left. }
  unfold copy_check_files.
  rewrite bind_eq, do_event_eq, bind_eq, Hconfig.
  rewrite bind_eq. unfold make_ssh_client.
  rewrite bind_eq, (config_item_eq config REMOTE HOST host)
    by (apply Hremote; [set_solver | exact Hhost]).
  rewrite bind_eq, (config_item_eq config REMOTE USER user)
    by (apply Hremote; [set_solver | exact Huser]).
  rewrite bind_eq, (config_item_eq config REMOTE KEYNAME keyname)
    by (apply Hremote; [set_solver | exact Hkey]).
  rewrite do_event_eq.
  rewrite bind_eq. unfold name_prospective_files.
  rewrite bind_eq, (config_item_eq config REMOTE DIRECTORY remote_directory)
    by (apply Hremote; [set_solver | exact Hrd]).
  rewrite bind_eq, (config_item_eq config LOCAL TEMP_DIRECTORY temp_directory)
    by (apply Hlocal; [set_solver | exact Htd]).
  rewrite bind_eq, (config_item_eq config LOCAL DESTINATION_DIRECTORY share_directory)
    by (apply Hlocal; [set_solver | exact Hsd]).
  rewrite bind_eq, (config_item_eq config REMOTE DONE_DIRECTORY done_directory)
    by (apply Hremote; [set_solver | exact Hdd]).
  cbn [mret prog_ret].
  change (map _ COMPANIES) with prospective.
  rewrite bind_eq. unfold available_non_empty_files.
  rewrite bind_eq, list_present_trace, (present_nothing prospective Hls).
  cbn [app keep_non_empty mret prog_ret length Nat.ltb Nat.leb].
  rewrite bind_eq. cbn [mret prog_ret].
  rewrite move_remote_files_aside_trace. cbn [emit trace files].
  rewrite <- !app_assoc. reflexivity.
Qed.

End NothingWaiting.

(** X18 on the host on which nothing is waiting and every command fails. *)
Lemma run_with_nothing_waiting_witness :
  fst (CheckFiles.copy_check_files Sample.config_get Sample.remote_empty Sample.csv_reader
         "20250602-1415" false "transfer.ini" Sample.start)
  = Ok ()
  ∧ CheckFiles.files
      (snd (CheckFiles.copy_check_files Sample.config_get Sample.remote_empty
              Sample.csv_reader "20250602-1415" false "transfer.ini" Sample.start))
    = ∅.
Proof.
  rewrite (run_with_nothing_waiting Sample.config_get Sample.remote_empty Sample.csv_reader
             "20250602-1415" false "transfer.ini" Sample.start
             "trfr.example.org" "poliops" "/home/runner/.ssh/id_transfer"
             "/in" "/in/old" "/var/tmp/cr" "/mnt/accounting/cr");
    try reflexivity.
  - split; reflexivity.
Defined.
